(** * The audit ledger of the cloud-mining console

    A shallow embedding of [src/services/logger.ts] (the capped,
    most-recent-first audit ledger kept in [localStorage]) and of the
    filter-and-sort pipeline of the audit-log view
    ([sortedAndFilteredLogs]), with the properties the specification
    states about them.

    The program is TypeScript running in a browser.  The embedding has
    four layers:
    - [JS]: the JavaScript values that reach the ledger, and the string
      primitives the code calls;
    - [JSON]: [JSON.stringify] and [JSON.parse] on those values;
    - [Browser]: [localStorage], the event bus and the console as an
      explicit world state, with a completion monad for [try]/[catch];
    - [LoggerService] and [AuditLogView]: the repository's code.

    [Shape], [Ledger] and [View] hold the vocabulary of the statements,
    [Sample] the concrete worlds of the examples.  The properties
    follow the definitions: first the round trip through JSON, then
    what each operation of the ledger computes, then the properties
    the specification states, C1 to C10.

    A last part covers more of the view: [Runtime] and [Date] add the
    array, string and date primitives it calls, [AuditLogTable] embeds
    the pages, the page controls, the sort headers, the purge button
    and the CSV export, [CSV] is a reader for the exported format, and
    the properties X1 to X21 follow. *)

From Stdlib Require Import ZArith NArith String Ascii List Bool Lia.
From Stdlib Require Import DecimalString DecimalN Permutation Sorted.
From stdpp Require Import gmap strings list.

Local Open Scope string_scope.

(** ** JavaScript values *)

Module JS.

(** Strings are sequences of code units below 256 (the Latin-1 part of
    UTF-16), which [string] represents exactly. *)

(** Numbers: the integral doubles and the three non-finite ones.
    Fractional doubles and the negative zero are outside the model. *)
Inductive JsNum : Type :=
| Fin (z : Z)
| NaN
| PosInf
| NegInf.

Definition MAX_SAFE_INTEGER : Z := 9007199254740991.

Definition safe_integer (z : Z) : bool :=
  ((- MAX_SAFE_INTEGER <=? z) && (z <=? MAX_SAFE_INTEGER))%Z.

(** The values an [any] can hold here.  [VObj] lists the own enumerable
    properties of a plain object in enumeration order. *)
Unset Elimination Schemes.
Inductive JsVal : Type :=
| VUndefined
| VNull
| VBool (b : bool)
| VNum (n : JsNum)
| VBigInt (z : Z)
| VStr (s : string)
| VArr (items : list JsVal)
| VObj (props : list (string * JsVal)).
Set Elimination Schemes.

Inductive JsError : Type :=
| SyntaxError
| TypeError
| RangeError
| QuotaExceededError
| SecurityError.

(** ToBoolean. *)
Definition truthy (v : JsVal) : bool :=
  match v with
  | VUndefined | VNull => false
  | VBool b => b
  | VNum (Fin z) => negb (z =? 0)%Z
  | VNum NaN => false
  | VNum _ => true
  | VBigInt z => negb (z =? 0)%Z
  | VStr s => negb (String.eqb s EmptyString)
  | VArr _ | VObj _ => true
  end.

Definition in_range (lo hi : N) (c : ascii) : bool :=
  ((lo <=? N_of_ascii c) && (N_of_ascii c <=? hi))%N.

(** [String.prototype.toLowerCase] on Latin-1: A-Z, and the accented
    capitals 0xC0-0xDE except the multiplication sign 0xD7.  On this
    text the function works one code unit at a time; beyond Latin-1 it
    does not (a capital sigma is lowered according to its place in the
    word), and such text is outside the model, as it is for every
    string here. *)
Definition lower_char (c : ascii) : ascii :=
  if in_range 65 90 c then ascii_of_N (N_of_ascii c + 32)
  else if in_range 192 222 c && negb (N_of_ascii c =? 215)%N
       then ascii_of_N (N_of_ascii c + 32)
  else c.

Fixpoint toLowerCase (s : string) : string :=
  match s with
  | EmptyString => EmptyString
  | String c r => String (lower_char c) (toLowerCase r)
  end.

(** [String.prototype.toUpperCase], exact on ASCII (the only input the
    ledger gives it is a base-36 numeral). *)
Definition upper_char (c : ascii) : ascii :=
  if in_range 97 122 c then ascii_of_N (N_of_ascii c - 32) else c.

Fixpoint toUpperCase (s : string) : string :=
  match s with
  | EmptyString => EmptyString
  | String c r => String (upper_char c) (toUpperCase r)
  end.

Fixpoint drop_chars (n : nat) (s : string) : string :=
  match n, s with
  | S n', String _ r => drop_chars n' r
  | _, _ => s
  end.

Fixpoint take_chars (n : nat) (s : string) : string :=
  match n, s with
  | S n', String c r => String c (take_chars n' r)
  | _, _ => EmptyString
  end.

(** [s.substr(start, len)] for non-negative arguments. *)
Definition substr (start len : nat) (s : string) : string :=
  take_chars len (drop_chars start s).

Fixpoint starts_with (p s : string) : bool :=
  match p, s with
  | EmptyString, _ => true
  | String a p', String b s' => Ascii.eqb a b && starts_with p' s'
  | String _ _, EmptyString => false
  end.

(** [s.includes(p)]. *)
Fixpoint includes (s p : string) : bool :=
  starts_with p s ||
  match s with
  | EmptyString => false
  | String _ r => includes r p
  end.

(** The relational operators on two strings compare code units. *)
Definition str_ltb (a b : string) : bool :=
  match String.compare a b with Lt => true | _ => false end.

End JS.
Export JS.

(** ** JSON.stringify and JSON.parse *)

Module JSON.

(** *** Serialisation *)

Definition dquote : ascii := ascii_of_N 34.

Definition hex_digit (n : N) : ascii :=
  if (n <? 10)%N then ascii_of_N (48 + n) else ascii_of_N (87 + n).

(** QuoteJSONString, one code unit at a time.  (A backslash in a
    string literal of Rocq stands for itself.) *)
Definition escape_char (c : ascii) : string :=
  let n := N_of_ascii c in
  if (n =? 34)%N then String "\" (String dquote EmptyString)
  else if (n =? 92)%N then "\\"
  else if (n =? 8)%N then "\b"
  else if (n =? 12)%N then "\f"
  else if (n =? 10)%N then "\n"
  else if (n =? 13)%N then "\r"
  else if (n =? 9)%N then "\t"
  else if (n <? 32)%N
       then "\u00" +:+
            String (hex_digit (n / 16))
              (String (hex_digit (n mod 16)) EmptyString)
  else String c EmptyString.

Fixpoint escape (s : string) : string :=
  match s with
  | EmptyString => EmptyString
  | String c r => escape_char c +:+ escape r
  end.

Definition quote (s : string) : string :=
  String dquote (escape s +:+ String dquote EmptyString).

(** Number::toString on an integer: exact on the safe integers, the
    numbers of the well-formed values (above them a double prints its
    shortest digits, and an exponent from 1e21 on). *)
Definition print_nat (n : N) : string :=
  NilEmpty.string_of_uint (N.to_uint n).

Definition print_int (z : Z) : string :=
  match z with
  | Zneg p => String "-" (print_nat (Npos p))
  | _ => print_nat (Z.to_N z)
  end.

Fixpoint print_elements (pr : JsVal -> string) (l : list JsVal) : string :=
  match l with
  | [] => EmptyString
  | [x] => pr x
  | x :: l' => pr x +:+ "," +:+ print_elements pr l'
  end.

Fixpoint print_members (pr : JsVal -> string) (l : list (string * JsVal))
  : string :=
  match l with
  | [] => EmptyString
  | [(k, x)] => quote k +:+ ":" +:+ pr x
  | (k, x) :: l' => quote k +:+ ":" +:+ pr x +:+ "," +:+ print_members pr l'
  end.

(** The text of a JSON value (a value built from [VNull], [VBool],
    finite [VNum], [VStr], [VArr] and [VObj]). *)
Fixpoint print (v : JsVal) : string :=
  match v with
  | VBool true => "true"
  | VBool false => "false"
  | VNum (Fin z) => print_int z
  | VStr s => quote s
  | VArr l => "[" +:+ print_elements print l +:+ "]"
  | VObj ps => "{" +:+ print_members print ps +:+ "}"
  | _ => "null"
  end.

(** SerializeJSONProperty as a normal form: [None] is [undefined]
    (the property is left out of an object, and is [null] in an
    array); non-finite numbers become [null].  The case of a BigInt is
    never consulted: [stringify] throws first. *)
Fixpoint jsonify (v : JsVal) : option JsVal :=
  match v with
  | VUndefined => None
  | VNull => Some VNull
  | VBool b => Some (VBool b)
  | VNum (Fin z) => Some (VNum (Fin z))
  | VNum _ => Some VNull
  | VBigInt _ => Some VNull
  | VStr s => Some (VStr s)
  | VArr l =>
      Some (VArr (List.map (fun x => match jsonify x with
                                     | Some j => j
                                     | None => VNull
                                     end) l))
  | VObj ps =>
      Some (VObj ((fix members (ps : list (string * JsVal)) :=
                     match ps with
                     | [] => []
                     | (k, x) :: ps' =>
                         match jsonify x with
                         | Some j => (k, j) :: members ps'
                         | None => members ps'
                         end
                     end) ps))
  end.

(** A BigInt anywhere in the traversed value makes [JSON.stringify]
    throw a TypeError. *)
Fixpoint has_bigint (v : JsVal) : bool :=
  match v with
  | VBigInt _ => true
  | VArr l => existsb has_bigint l
  | VObj ps => existsb (fun p => has_bigint (snd p)) ps
  | _ => false
  end.

(** [JSON.stringify(v)]: a thrown error, or [undefined] ([None]), or
    the text. *)
Definition stringify (v : JsVal) : JsError + option string :=
  if has_bigint v then inl TypeError
  else inr (print <$> jsonify v).

(** *** Parsing *)

(** The outcome of reading a text: a value, a SyntaxError, or a text
    that denotes something outside the model (a fractional or unsafe
    number, a code unit above 255, an integer-like property key), about
    which the model says nothing. *)
Inductive Parsed (A : Type) : Type :=
| Ok (a : A)
| Malformed
| Beyond.
Arguments Ok {A} a.
Arguments Malformed {A}.
Arguments Beyond {A}.

Definition bindP {A B} (p : Parsed A) (k : A -> Parsed B) : Parsed B :=
  match p with
  | Ok a => k a
  | Malformed => Malformed
  | Beyond => Beyond
  end.

Definition is_ws (c : ascii) : bool :=
  let n := N_of_ascii c in
  ((n =? 32) || (n =? 9) || (n =? 10) || (n =? 13))%N.

Fixpoint skip_ws (s : string) : string :=
  match s with
  | String c r => if is_ws c then skip_ws r else s
  | EmptyString => s
  end.

Definition is_digit (c : ascii) : bool := in_range 48 57 c.

Fixpoint span_digits (s : string) : string * string :=
  match s with
  | String c r =>
      if is_digit c
      then let (d, t) := span_digits r in (String c d, t)
      else (EmptyString, s)
  | EmptyString => (EmptyString, EmptyString)
  end.

Definition hex_value (c : ascii) : option N :=
  let n := N_of_ascii c in
  if in_range 48 57 c then Some (n - 48)%N
  else if in_range 97 102 c then Some (n - 87)%N
  else if in_range 65 70 c then Some (n - 55)%N
  else None.

(** The single-character escapes of the JSON grammar. *)
Definition unescape (c : ascii) : option ascii :=
  let n := N_of_ascii c in
  if (n =? 34)%N then Some c
  else if (n =? 92)%N then Some c
  else if (n =? 47)%N then Some c
  else if (n =? 98)%N then Some (ascii_of_N 8)
  else if (n =? 102)%N then Some (ascii_of_N 12)
  else if (n =? 110)%N then Some (ascii_of_N 10)
  else if (n =? 114)%N then Some (ascii_of_N 13)
  else if (n =? 116)%N then Some (ascii_of_N 9)
  else None.

Definition cons_char (c : ascii) (p : Parsed (string * string))
  : Parsed (string * string) :=
  bindP p (fun '(str, t) => Ok (String c str, t)).

(** The characters of a string literal, after its opening quote. *)
Fixpoint parse_chars (s : string) : Parsed (string * string) :=
  match s with
  | EmptyString => Malformed
  | String c r =>
      if Ascii.eqb c dquote then Ok (EmptyString, r)
      else if Ascii.eqb c "\" then
        match r with
        | EmptyString => Malformed
        | String e r' =>
            if Ascii.eqb e "u" then
              match r' with
              | String h1 (String h2 (String h3 (String h4 r''))) =>
                  match hex_value h1, hex_value h2,
                        hex_value h3, hex_value h4 with
                  | Some a, Some b, Some c', Some d =>
                      let code := (4096 * a + 256 * b + 16 * c' + d)%N in
                      if (code <? 256)%N
                      then cons_char (ascii_of_N code) (parse_chars r'')
                      else Beyond
                  | _, _, _, _ => Malformed
                  end
              | _ => Malformed
              end
            else
              match unescape e with
              | Some ch => cons_char ch (parse_chars r')
              | None => Malformed
              end
        end
      else if (N_of_ascii c <? 32)%N then Malformed
      else cons_char c (parse_chars r)
  end.

Definition continues_number (s : string) : bool :=
  match s with
  | String c _ =>
      Ascii.eqb c "." || Ascii.eqb c "e" || Ascii.eqb c "E"
  | EmptyString => false
  end.

(** An integer numeral; a fraction or exponent part, negative zero and
    integers beyond the safe range are outside the model. *)
Definition parse_number (s : string) : Parsed (JsVal * string) :=
  let '(neg, body) :=
    match s with
    | String c r => if Ascii.eqb c "-" then (true, r) else (false, s)
    | EmptyString => (false, s)
    end in
  let '(ds, rest) := span_digits body in
  match ds with
  | EmptyString => Malformed
  | String d ds' =>
      if Ascii.eqb d "0" && negb (String.eqb ds' EmptyString) then Malformed
      else if continues_number rest then Beyond
      else
        match NilEmpty.uint_of_string ds with
        | Some u =>
            let n := Z.of_N (N.of_uint u) in
            if neg && (n =? 0)%Z then Beyond
            else if (MAX_SAFE_INTEGER <? n)%Z then Beyond
            else Ok (VNum (Fin (if neg then - n else n)%Z), rest)
        | None => Beyond
        end
  end.

Definition parse_literal (s : string) : Parsed (JsVal * string) :=
  if starts_with "true" s then Ok (VBool true, drop_chars 4 s)
  else if starts_with "false" s then Ok (VBool false, drop_chars 5 s)
  else if starts_with "null" s then Ok (VNull, drop_chars 4 s)
  else Malformed.

Fixpoint all_digits (s : string) : bool :=
  match s with
  | EmptyString => true
  | String c r => is_digit c && all_digits r
  end.

(** A key that is a canonical decimal numeral is enumerated before the
    other keys; such objects are outside the model. *)
Definition index_like (k : string) : bool :=
  match k with
  | EmptyString => false
  | String c r =>
      all_digits k && (negb (Ascii.eqb c "0") || String.eqb r EmptyString)
  end.

(** CreateDataProperty: a repeated key keeps its place and takes the
    later value. *)
Fixpoint set_prop (k : string) (v : JsVal) (o : list (string * JsVal))
  : list (string * JsVal) :=
  match o with
  | [] => [(k, v)]
  | (k', v') :: o' =>
      if String.eqb k k' then (k, v) :: o' else (k', v') :: set_prop k v o'
  end.

Definition make_object (ms : list (string * JsVal)) : Parsed JsVal :=
  if existsb (fun m => index_like (fst m)) ms then Beyond
  else Ok (VObj (fold_left (fun o m => set_prop (fst m) (snd m) o) ms [])).

Fixpoint parse_value (fuel : nat) (s : string) {struct fuel}
  : Parsed (JsVal * string) :=
  match fuel with
  | O => Beyond
  | S fuel' =>
      match skip_ws s with
      | EmptyString => Malformed
      | String c r =>
          if Ascii.eqb c "[" then
            match skip_ws r with
            | EmptyString => Malformed
            | String c' r' =>
                if Ascii.eqb c' "]" then Ok (VArr [], r')
                else bindP (parse_elements fuel' r)
                       (fun '(l, t) => Ok (VArr l, t))
            end
          else if Ascii.eqb c "{" then
            match skip_ws r with
            | EmptyString => Malformed
            | String c' r' =>
                if Ascii.eqb c' "}" then Ok (VObj [], r')
                else bindP (parse_members fuel' r)
                       (fun '(ms, t) =>
                          bindP (make_object ms) (fun o => Ok (o, t)))
            end
          else if Ascii.eqb c dquote then
            bindP (parse_chars r) (fun '(str, t) => Ok (VStr str, t))
          else if Ascii.eqb c "-" || is_digit c then
            parse_number (String c r)
          else parse_literal (String c r)
      end
  end
with parse_elements (fuel : nat) (s : string) {struct fuel}
  : Parsed (list JsVal * string) :=
  match fuel with
  | O => Beyond
  | S fuel' =>
      bindP (parse_value fuel' s) (fun '(v, t) =>
        match skip_ws t with
        | EmptyString => Malformed
        | String c r =>
            if Ascii.eqb c "," then
              bindP (parse_elements fuel' r)
                (fun '(l, t') => Ok (v :: l, t'))
            else if Ascii.eqb c "]" then Ok ([v], r)
            else Malformed
        end)
  end
with parse_members (fuel : nat) (s : string) {struct fuel}
  : Parsed (list (string * JsVal) * string) :=
  match fuel with
  | O => Beyond
  | S fuel' =>
      match skip_ws s with
      | EmptyString => Malformed
      | String c r =>
          if Ascii.eqb c dquote then
            bindP (parse_chars r) (fun '(k, t) =>
              match skip_ws t with
              | EmptyString => Malformed
              | String c1 r1 =>
                  if Ascii.eqb c1 ":" then
                    bindP (parse_value fuel' r1) (fun '(v, t1) =>
                      match skip_ws t1 with
                      | EmptyString => Malformed
                      | String c2 r2 =>
                          if Ascii.eqb c2 "," then
                            bindP (parse_members fuel' r2)
                              (fun '(ms, t2) => Ok ((k, v) :: ms, t2))
                          else if Ascii.eqb c2 "}" then Ok ([(k, v)], r2)
                          else Malformed
                      end)
                  else Malformed
              end)
          else Malformed
      end
  end.

(** [JSON.parse(s)]. *)
Definition parse (s : string) : Parsed JsVal :=
  bindP (parse_value (S (String.length s)) s) (fun '(v, t) =>
    match skip_ws t with
    | EmptyString => Ok v
    | String _ _ => Malformed
    end).

End JSON.

(** ** The browser: storage, events, console *)

Module Browser.

(** How a statement completes. [Unmodelled] is a run that left the
    model (see [JSON.Beyond]); no [catch] resumes it. *)
Inductive Completion (A : Type) : Type :=
| Normal (a : A)
| Throw (e : JsError)
| Unmodelled.
Arguments Normal {A} a.
Arguments Throw {A} e.
Arguments Unmodelled {A}.

(** The effects an observer outside the ledger can see, in the order
    they happen. *)
Inductive Effect : Type :=
| SetItem (key value : string)
| RemoveItem (key : string)
| DispatchEvent (type : string) (detail : JsVal)
| ConsoleError (message : string) (e : JsError).

Record World : Type := mkWorld {
  localStorage : gmap string string;
  trace : list Effect
}.

(** What the host decides: whether the document may touch
    [localStorage] at all (otherwise every access throws a
    SecurityError), and which writes exceed the quota. *)
Record Host : Type := mkHost {
  access_denied : bool;
  quota_exceeded : gmap string string -> string -> string -> bool
}.

(** What the clock and the random generator answer during one call:
    [Math.random().toString(36)] and [Date.now()]. *)
Record Tick : Type := mkTick {
  random36 : string;
  now : Z
}.

Definition M (A : Type) : Type := World -> Completion A * World.

Definition ret {A} (a : A) : M A := fun w => (Normal a, w).

Definition throw {A} (e : JsError) : M A := fun w => (Throw e, w).

Definition bind {A B} (m : M A) (k : A -> M B) : M B :=
  fun w =>
    match m w with
    | (Normal a, w') => k a w'
    | (Throw e, w') => (Throw e, w')
    | (Unmodelled, w') => (Unmodelled, w')
    end.

(** [try { body } catch (e) { handler }]. *)
Definition try_catch {A} (body : M A) (handler : JsError -> M A) : M A :=
  fun w =>
    match body w with
    | (Throw e, w') => handler e w'
    | r => r
    end.

Definition emit (e : Effect) : M unit :=
  fun w => (Normal tt, mkWorld (localStorage w) (trace w ++ [e])).

Definition dispatchEvent (type : string) (detail : JsVal) : M unit :=
  emit (DispatchEvent type detail).

Definition console_error (message : string) (e : JsError) : M unit :=
  emit (ConsoleError message e).

Definition JSON_parse (s : string) : M JsVal :=
  fun w =>
    match JSON.parse s with
    | JSON.Ok v => (Normal v, w)
    | JSON.Malformed => (Throw SyntaxError, w)
    | JSON.Beyond => (Unmodelled, w)
    end.

Definition JSON_stringify (v : JsVal) : M (option string) :=
  match JSON.stringify v with
  | inl e => throw e
  | inr r => ret r
  end.

(** The elements an iteration over a value yields: those of an array,
    the characters of a string; nothing else here is iterable. *)
Definition iterate (v : JsVal) : option (list JsVal) :=
  match v with
  | VArr l => Some l
  | VStr s =>
      Some (List.map (fun c => VStr (String c EmptyString))
              (list_ascii_of_string s))
  | _ => None
  end.

(** Spreading a value into an array literal. *)
Definition spread (v : JsVal) : M (list JsVal) :=
  match iterate v with
  | Some l => ret l
  | None => throw TypeError
  end.

Section Storage.
Variable host : Host.

(** Reading the property [window.localStorage]: where the document may
    not use the storage, the read itself throws. *)
Definition window_localStorage : M unit :=
  fun w =>
    if access_denied host then (Throw SecurityError, w)
    else (Normal tt, w).

(** [localStorage.getItem(k)], [localStorage.setItem(k, v)] and
    [localStorage.removeItem(k)]: the read of [localStorage] and the
    call. *)
Definition getItem (k : string) : M (option string) :=
  fun w =>
    if access_denied host then (Throw SecurityError, w)
    else (Normal (localStorage w !! k), w).

Definition setItem (k v : string) : M unit :=
  fun w =>
    if access_denied host then (Throw SecurityError, w)
    else if quota_exceeded host (localStorage w) k v
    then (Throw QuotaExceededError, w)
    else (Normal tt,
          mkWorld (<[k := v]> (localStorage w)) (trace w ++ [SetItem k v])).

Definition removeItem (k : string) : M unit :=
  fun w =>
    if access_denied host then (Throw SecurityError, w)
    else (Normal tt,
          mkWorld (delete k (localStorage w)) (trace w ++ [RemoveItem k])).
End Storage.

End Browser.
Export Browser.

Declare Scope js_scope.
Delimit Scope js_scope with js.
Notation "'const' x ':=' m ';' k" := (bind m (fun x => k))
  (at level 10, x name, m at level 100, k at level 200) : js_scope.
Notation "'run' m ';' k" := (bind m (fun _ => k))
  (at level 10, m at level 100, k at level 200) : js_scope.

(** ** src/services/logger.ts *)

Inductive LogCategory : Type :=
| SYSTEM | FINANCIAL | SECURITY | OPERATION | AI | MARKETPLACE.

(** The string value of each member of the enum. *)
Definition category_name (c : LogCategory) : string :=
  match c with
  | SYSTEM => "SYSTEM"
  | FINANCIAL => "FINANCIAL"
  | SECURITY => "SECURITY"
  | OPERATION => "OPERATION"
  | AI => "AI"
  | MARKETPLACE => "MARKETPLACE"
  end.

Module LoggerService.

Definition STORAGE_KEY : string := "cloudmine_audit_ledger".

(** The cap written in [log]. *)
Definition CAP : nat := 500.

(** [`LOG-${Math.random().toString(36).substr(2, 9).toUpperCase()}`] *)
Definition log_id (t : Tick) : string :=
  "LOG-" +:+ toUpperCase (substr 2 9 (random36 t)).

(** The object literal [newLog]; an omitted [metadata] argument is
    [undefined]. *)
Definition newLog (t : Tick) (category : LogCategory) (action : string)
    (metadata : option (list (string * JsVal))) : JsVal :=
  VObj [ ("id", VStr (log_id t));
         ("timestamp", VNum (Fin (now t)));
         ("category", VStr (category_name category));
         ("action", VStr action);
         ("metadata", match metadata with
                      | Some props => VObj props
                      | None => VUndefined
                      end) ].

Section WithHost.
Variable host : Host.
Local Open Scope js_scope.

Definition getLogs : M JsVal :=
  try_catch
    (const saved := getItem host STORAGE_KEY;
     match saved with
     | Some s =>
         if String.eqb s EmptyString then ret (VArr [])
         else JSON_parse s
     | None => ret (VArr [])
     end)
    (fun e =>
       run console_error "Failed to load audit ledger:" e;
       ret (VArr [])).

(** [log].  In [localStorage.setItem(STORAGE_KEY,
    JSON.stringify(updatedLogs))] the object [localStorage] is read
    before the argument is evaluated. *)
Definition log (t : Tick) (category : LogCategory) (action : string)
    (metadata : option (list (string * JsVal))) : M unit :=
  let newLog := newLog t category action metadata in
  try_catch
    (const logs := getLogs;
     const items := spread logs;
     let updatedLogs := take CAP (newLog :: items) in
     run window_localStorage host;
     const text := JSON_stringify (VArr updatedLogs);
     run setItem host STORAGE_KEY
           (match text with Some s => s | None => "undefined" end);
     dispatchEvent "audit-log-updated" newLog)
    (fun e => console_error "Failed to save audit log:" e).

Definition clearLogs (t : Tick) : M unit :=
  run log t SECURITY "Manual ledger purge initiated" None;
  removeItem host STORAGE_KEY.
End WithHost.

End LoggerService.

(** ** The [AuditLog] interface of the type declarations *)

Module AuditLog.
Record t : Type := mk {
  id : string;
  timestamp : Z;
  category : LogCategory;
  action : string;
  metadata : option JsVal
}.
End AuditLog.

Definition category_eqb (a b : LogCategory) : bool :=
  String.eqb (category_name a) (category_name b).

Definition category_of_name (s : string) : option LogCategory :=
  List.find (fun c => String.eqb (category_name c) s)
    [SYSTEM; FINANCIAL; SECURITY; OPERATION; AI; MARKETPLACE].

(** Reading a property of a plain object; a missing one is
    [undefined]. *)
Fixpoint get_prop (k : string) (ps : list (string * JsVal)) : JsVal :=
  match ps with
  | [] => VUndefined
  | (k', v) :: r => if String.eqb k k' then v else get_prop k r
  end.

(** What the code sees when it uses a value as an [AuditLog]. *)
Definition entry_of_value (v : JsVal) : option AuditLog.t :=
  match v with
  | VObj ps =>
      match get_prop "id" ps, get_prop "timestamp" ps,
            get_prop "category" ps, get_prop "action" ps with
      | VStr i, VNum (Fin ts), VStr c, VStr a =>
          match category_of_name c with
          | Some cat =>
              Some (AuditLog.mk i ts cat a
                      (match get_prop "metadata" ps with
                       | VUndefined => None
                       | m => Some m
                       end))
          | None => None
          end
      | _, _, _, _ => None
      end
  | _ => None
  end.

(** ** The audit-log view: [sortedAndFilteredLogs] *)

Module AuditLogView.

(** The state [filter : LogCategory | 'ALL']. *)
Inductive CategoryFilter : Type :=
| ALL
| Only (c : LogCategory).

Inductive SortKey : Type := timestamp | category | action.
Inductive SortDirection : Type := asc | desc.

Record SortConfig : Type := mkSortConfig {
  key : SortKey;
  direction : SortDirection
}.

(** [Array.prototype.filter] with a callback that may throw. *)
Fixpoint Array_filter {A} (p : A -> Completion bool) (l : list A)
  : Completion (list A) :=
  match l with
  | [] => Normal []
  | x :: r =>
      match p x with
      | Normal b =>
          match Array_filter p r with
          | Normal r' => Normal (if b then x :: r' else r')
          | Throw e => Throw e
          | Unmodelled => Unmodelled
          end
      | Throw e => Throw e
      | Unmodelled => Unmodelled
      end
  end.

Fixpoint insert_sorted {A} (cmp : A -> A -> Z) (x : A) (l : list A)
  : list A :=
  match l with
  | [] => [x]
  | y :: r => if (0 <? cmp x y)%Z then y :: insert_sorted cmp x r
              else x :: y :: r
  end.

(** [Array.prototype.sort(cmp)]: the stable sort. *)
Fixpoint Array_sort {A} (cmp : A -> A -> Z) (l : list A) : list A :=
  match l with
  | [] => []
  | x :: r => insert_sorted cmp x (Array_sort cmp r)
  end.

(** The value of [a[key]]. *)
Inductive Field : Type :=
| FNum (z : Z)
| FStr (s : string).

Definition field (k : SortKey) (e : AuditLog.t) : Field :=
  match k with
  | timestamp => FNum (AuditLog.timestamp e)
  | category => FStr (category_name (AuditLog.category e))
  | action => FStr (AuditLog.action e)
  end.

(** [if (typeof val === 'string') val = val.toLowerCase()] *)
Definition lowered (v : Field) : Field :=
  match v with
  | FStr s => FStr (toLowerCase s)
  | FNum z => FNum z
  end.

(** [valA < valB]; the two operands are always the same field of two
    entries, so a number never meets a string. *)
Definition js_lt (a b : Field) : bool :=
  match a, b with
  | FNum x, FNum y => (x <? y)%Z
  | FStr x, FStr y => str_ltb x y
  | _, _ => false
  end.

(** The comparator handed to [sort]. *)
Definition compareFn (sortConfig : SortConfig) (a b : AuditLog.t) : Z :=
  let valA := lowered (field (key sortConfig) a) in
  let valB := lowered (field (key sortConfig) b) in
  if js_lt valA valB then
    match direction sortConfig with asc => (-1)%Z | desc => 1%Z end
  else if js_lt valB valA then
    match direction sortConfig with asc => 1%Z | desc => (-1)%Z end
  else 0%Z.

(** [log.metadata && JSON.stringify(log.metadata).toLowerCase()
    .includes(searchStr)], as a condition. *)
Definition matchesMetadata (searchStr : string) (log : AuditLog.t)
  : Completion bool :=
  match AuditLog.metadata log with
  | None => Normal false
  | Some m =>
      if truthy m then
        match JSON.stringify m with
        | inl e => Throw e
        | inr None => Throw TypeError
        | inr (Some text) => Normal (includes (toLowerCase text) searchStr)
        end
      else Normal false
  end.

(** The callback of [logs.filter]. *)
Definition keeps (filter : CategoryFilter) (searchQuery : string)
    (log : AuditLog.t) : Completion bool :=
  let matchesCategory :=
    match filter with
    | ALL => true
    | Only c => category_eqb (AuditLog.category log) c
    end in
  let searchStr := toLowerCase searchQuery in
  if String.eqb searchQuery EmptyString then Normal matchesCategory
  else
    let matchesText :=
      if includes (toLowerCase (AuditLog.action log)) searchStr
      then Normal true
      else if includes
                (toLowerCase (category_name (AuditLog.category log)))
                searchStr
      then Normal true
      else matchesMetadata searchStr log in
    match matchesText with
    | Normal b => Normal (matchesCategory && b)
    | Throw e => Throw e
    | Unmodelled => Unmodelled
    end.

Definition sortedAndFilteredLogs (logs : list AuditLog.t)
    (filter : CategoryFilter) (searchQuery : string)
    (sortConfig : SortConfig) : Completion (list AuditLog.t) :=
  match Array_filter (keeps filter searchQuery) logs with
  | Normal filtered => Normal (Array_sort (compareFn sortConfig) filtered)
  | Throw e => Throw e
  | Unmodelled => Unmodelled
  end.

(** The reading of the specification: an entry is shown when its
    category is the selected one and, for a non-empty query, its action
    text or its serialised metadata contains the query, letter case
    aside. *)
Definition shown_by_spec (filter : CategoryFilter) (searchQuery : string)
    (log : AuditLog.t) : bool :=
  match filter with
  | ALL => true
  | Only c => category_eqb (AuditLog.category log) c
  end &&
  (String.eqb searchQuery EmptyString ||
   includes (toLowerCase (AuditLog.action log)) (toLowerCase searchQuery) ||
   match AuditLog.metadata log with
   | Some m =>
       match JSON.stringify m with
       | inr (Some text) =>
           includes (toLowerCase text) (toLowerCase searchQuery)
       | _ => false
       end
   | None => false
   end).

End AuditLogView.

(** ** Predicates of the statements *)

Module Shape.

Fixpoint distinct (l : list string) : bool :=
  match l with
  | [] => true
  | k :: r => negb (existsb (String.eqb k) r) && distinct r
  end.

(** The values the model stands for: numbers are safe integers, and an
    object lists distinct keys, none of them integer-like. *)
Fixpoint well_formed (v : JsVal) : bool :=
  match v with
  | VNum (Fin z) => safe_integer z
  | VArr l => forallb well_formed l
  | VObj ps =>
      distinct (List.map fst ps) &&
      forallb (fun p => negb (JSON.index_like (fst p)) && well_formed (snd p))
        ps
  | _ => true
  end.

(** The JSON values: what [JSON.parse] can return. *)
Fixpoint is_json (v : JsVal) : bool :=
  match v with
  | VNull | VBool _ | VStr _ => true
  | VNum (Fin z) => safe_integer z
  | VArr l => forallb is_json l
  | VObj ps =>
      distinct (List.map fst ps) &&
      forallb (fun p => negb (JSON.index_like (fst p)) && is_json (snd p)) ps
  | _ => false
  end.

(** What follows a value inside a text. *)
Definition delimiter (rest : string) : bool :=
  match rest with
  | EmptyString => true
  | String c _ => Ascii.eqb c "," || Ascii.eqb c "]" || Ascii.eqb c "}"
  end.

(** [JSON.stringify] of an array element: [undefined] is written as
    [null]. *)
Definition stored (v : JsVal) : JsVal :=
  match JSON.jsonify v with
  | Some j => j
  | None => VNull
  end.

(** The statement proved for every JSON value by induction. *)
Definition reads_back (v : JsVal) : Prop :=
  is_json v = true ->
  forall fuel rest,
    String.length (JSON.print v) <= fuel ->
    delimiter rest = true ->
    JSON.parse_value fuel (JSON.print v +:+ rest) = JSON.Ok (v, rest).

(** Every printed value starts with a character that is neither white
    space nor a closing bracket. *)
Definition opens_value (c : ascii) : bool :=
  negb (JSON.is_ws c) && negb (Ascii.eqb c "]") && negb (Ascii.eqb c "}").

(** The members [JSON.stringify] writes for an object. *)
Fixpoint kept_members (ps : list (string * JsVal)) : list (string * JsVal) :=
  match ps with
  | [] => []
  | (k, x) :: ps' =>
      match JSON.jsonify x with
      | Some j => (k, j) :: kept_members ps'
      | None => kept_members ps'
      end
  end.

Definition json_member (p : string * JsVal) : Prop :=
  JSON.index_like (fst p) = false /\ is_json (snd p) = true.

Definition parses_json (fuel : nat) : Prop :=
  (forall s v t, JSON.parse_value fuel s = JSON.Ok (v, t) ->
                 is_json v = true) /\
  (forall s l t, JSON.parse_elements fuel s = JSON.Ok (l, t) ->
                 forallb is_json l = true) /\
  (forall s ms t, JSON.parse_members fuel s = JSON.Ok (ms, t) ->
                  forallb (fun p => is_json (snd p)) ms = true).

End Shape.
Export Shape.

(** Induction on values, through the lists they nest. *)
Section JsValInduction.
Variable P : JsVal -> Prop.
Hypothesis Hundef : P VUndefined.
Hypothesis Hnull : P VNull.
Hypothesis Hbool : forall b, P (VBool b).
Hypothesis Hnum : forall n, P (VNum n).
Hypothesis Hbig : forall z, P (VBigInt z).
Hypothesis Hstr : forall s, P (VStr s).
Hypothesis Harr : forall l, Forall P l -> P (VArr l).
Hypothesis Hobj : forall ps, Forall (fun p => P (snd p)) ps -> P (VObj ps).

Fixpoint JsVal_ind (v : JsVal) : P v :=
  match v with
  | VUndefined => Hundef
  | VNull => Hnull
  | VBool b => Hbool b
  | VNum n => Hnum n
  | VBigInt z => Hbig z
  | VStr s => Hstr s
  | VArr l =>
      Harr l ((fix items (l : list JsVal) : Forall P l :=
                 match l with
                 | [] => @List.Forall_nil _ P
                 | x :: r => @List.Forall_cons _ P x r (JsVal_ind x) (items r)
                 end) l)
  | VObj ps =>
      Hobj ps ((fix props (ps : list (string * JsVal))
                  : Forall (fun p => P (snd p)) ps :=
                  match ps with
                  | [] => @List.Forall_nil _ _
                  | p :: r =>
                      @List.Forall_cons _ (fun p => P (snd p)) p r
                        (JsVal_ind (snd p)) (props r)
                  end) ps)
  end.
End JsValInduction.

(** ** Vocabulary for the ledger's properties *)

Module Ledger.

(** One call of [LoggerService.log]: its arguments and what the clock
    and the random generator answer during it. *)
Record Call : Type := mkCall {
  call_tick : Tick;
  call_category : LogCategory;
  call_action : string;
  call_metadata : option (list (string * JsVal))
}.

(** The entry the call creates in memory. *)
Definition entry (c : Call) : JsVal :=
  LoggerService.newLog (call_tick c) (call_category c) (call_action c)
    (call_metadata c).

(** The entry as a later [getLogs] returns it. *)
Definition persisted (c : Call) : JsVal := stored (entry c).

(** The same, read as an [AuditLog]: the id, timestamp, category and
    action of the call, and what [JSON.stringify] kept of the
    metadata. *)
Definition reloaded_entry (c : Call) : AuditLog.t :=
  AuditLog.mk
    (LoggerService.log_id (call_tick c))
    (now (call_tick c))
    (call_category c)
    (call_action c)
    (option_map (fun props => VObj (kept_members props)) (call_metadata c)).

(** A call within the model whose entry [JSON.stringify] accepts. *)
Definition call_ok (c : Call) : bool :=
  well_formed (entry c) && negb (JSON.has_bigint (entry c)).

Definition append (host : Host) (c : Call) : M unit :=
  LoggerService.log host (call_tick c) (call_category c) (call_action c)
    (call_metadata c).

Fixpoint appends (host : Host) (calls : list Call) : M unit :=
  match calls with
  | [] => ret tt
  | c :: r => bind (append host c) (fun _ => appends host r)
  end.

(** [v.id] for an object [v]. *)
Definition id_of (v : JsVal) : JsVal :=
  match v with
  | VObj props => get_prop "id" props
  | _ => VUndefined
  end.

(** The metadata of the call, if any, is a JSON value. *)
Definition json_metadata (c : Call) : bool :=
  match call_metadata c with
  | Some props => is_json (VObj props)
  | None => true
  end.

(** A character of [Number.prototype.toString(36)] applied to a number
    in [0, 1): a digit, a lower-case letter or the point. *)
Definition base36_char (ch : ascii) : bool :=
  in_range 48 57 ch || in_range 97 122 ch || Ascii.eqb ch ".".

Fixpoint base36_text (s : string) : bool :=
  match s with
  | EmptyString => true
  | String ch r => base36_char ch && base36_text r
  end.

(** The call [clearLogs] makes before it removes the key. *)
Definition purge_call (t : Tick) : Call :=
  mkCall t SECURITY "Manual ledger purge initiated" None.

(** The world after [removeItem] of the ledger's key. *)
Definition removed (w : World) : World :=
  mkWorld (delete LoggerService.STORAGE_KEY (localStorage w))
    (trace w ++ [RemoveItem LoggerService.STORAGE_KEY]).

(** A host that lets the document use [localStorage] and accepts every
    write. *)
Definition reliable (host : Host) : Prop :=
  access_denied host = false /\
  forall st k v, quota_exceeded host st k v = false.

(** The sequence [log] keeps: the new element first, cut at the cap. *)
Definition capped (x : JsVal) (l : list JsVal) : list JsVal :=
  take LoggerService.CAP (x :: l).

(** The text [log] writes for a sequence of stored entries. *)
Definition ledger_text (l : list JsVal) : string := JSON.print (VArr l).

(** The world after a write of [text] followed by the notification
    carrying [detail]. *)
Definition written (text : string) (detail : JsVal) (w : World) : World :=
  mkWorld (<[LoggerService.STORAGE_KEY := text]> (localStorage w))
    (trace w ++ [SetItem LoggerService.STORAGE_KEY text;
                 DispatchEvent "audit-log-updated" detail]).

(** The world after [log] caught [e]. *)
Definition save_failed (e : JsError) (w : World) : World :=
  mkWorld (localStorage w)
    (trace w ++ [ConsoleError "Failed to save audit log:" e]).

(** The world after [getLogs] caught [e]. *)
Definition load_failed (e : JsError) (w : World) : World :=
  mkWorld (localStorage w)
    (trace w ++ [ConsoleError "Failed to load audit ledger:" e]).

(** The stored text is absent, or a text the model can read. *)
Definition ledger_in_model (w : World) : bool :=
  match localStorage w !! LoggerService.STORAGE_KEY with
  | Some s =>
      match JSON.parse s with
      | JSON.Beyond => String.eqb s EmptyString
      | _ => true
      end
  | None => true
  end.

(** The number of entries [getLogs] returns ([0] when it returns no
    sequence). *)
Definition ledger_size (host : Host) (w : World) : nat :=
  match fst (LoggerService.getLogs host w) with
  | Normal (VArr l) => length l
  | _ => 0
  end.

(** A call within the model: the entry it creates is a well-formed
    value.  It may hold a BigInt, which [JSON.stringify] rejects. *)
Definition call_in_model (c : Call) : bool := well_formed (entry c).

(** The elements [log] spreads after the new entry: those of the value
    [getLogs] returns, when it is iterable. *)
Definition held (host : Host) (w : World) : option (list JsVal) :=
  match fst (LoggerService.getLogs host w) with
  | Normal v => iterate v
  | _ => None
  end.

(** The write of the call takes place: the document may use the
    storage, what [getLogs] returns can be spread, [JSON.stringify]
    accepts the entry, and the storage accepts the text. *)
Definition accepted (host : Host) (c : Call) (w : World) : bool :=
  negb (access_denied host) &&
  match held host w with
  | Some items =>
      negb (JSON.has_bigint (entry c)) &&
      negb (quota_exceeded host (localStorage w) LoggerService.STORAGE_KEY
              (ledger_text (capped (persisted c) items)))
  | None => false
  end.

(** The calls of a run whose write takes place, in the order of the
    run. *)
Fixpoint recorded (host : Host) (calls : list Call) (w : World)
  : list Call :=
  match calls with
  | [] => []
  | c :: r =>
      let w' := snd (append host c w) in
      if accepted host c w then c :: recorded host r w'
      else recorded host r w'
  end.

(** No effect after the first [n] of the trace is a notification. *)
Definition silent_after (n : nat) (w : World) : Prop :=
  forall type detail, ~ In (DispatchEvent type detail) (drop n (trace w)).

End Ledger.

(** ** Vocabulary for the view's properties *)

Module View.

(** [JSON.stringify] accepts the metadata of the entry. *)
Definition serialisable (e : AuditLog.t) : bool :=
  match AuditLog.metadata e with
  | Some m => negb (JSON.has_bigint m)
  | None => true
  end.

(** [text] contains [query], letter case aside. *)
Definition contains (text query : string) : bool :=
  includes (toLowerCase text) (toLowerCase query).

(** What the view shows: the entries of the selected category whose
    action text, category name or serialised (non-falsy) metadata
    contains the query, when there is a query. *)
Definition shown (filter : AuditLogView.CategoryFilter)
    (searchQuery : string) (e : AuditLog.t) : bool :=
  match filter with
  | AuditLogView.ALL => true
  | AuditLogView.Only c => category_eqb (AuditLog.category e) c
  end &&
  (String.eqb searchQuery EmptyString ||
   contains (AuditLog.action e) searchQuery ||
   contains (category_name (AuditLog.category e)) searchQuery ||
   match AuditLog.metadata e with
   | Some m => truthy m && contains (JSON.print (stored m)) searchQuery
   | None => false
   end).

(** The key the entries are compared by: the selected field, strings
    in lower case. *)
Definition sort_key (cfg : AuditLogView.SortConfig) (e : AuditLog.t)
  : AuditLogView.Field :=
  AuditLogView.lowered (AuditLogView.field (AuditLogView.key cfg) e).

(** [a] may stand before [b]: its key is not above (ascending) or not
    below (descending) the key of [b]. *)
Definition in_order (cfg : AuditLogView.SortConfig) (a b : AuditLog.t)
  : bool :=
  match AuditLogView.direction cfg with
  | AuditLogView.asc =>
      negb (AuditLogView.js_lt (sort_key cfg b) (sort_key cfg a))
  | AuditLogView.desc =>
      negb (AuditLogView.js_lt (sort_key cfg a) (sort_key cfg b))
  end.

End View.

(** Concrete hosts, worlds and calls, for the examples. *)
Module Sample.

Definition host_ok : Host := mkHost false (fun _ _ _ => false).

(** A host whose storage is full. *)
Definition host_full : Host := mkHost false (fun _ _ _ => true).

(** A host that denies the document its storage. *)
Definition host_denied : Host := mkHost true (fun _ _ _ => false).

Definition fresh : World := mkWorld ∅ [].

Definition holding (text : string) : World :=
  mkWorld (<[LoggerService.STORAGE_KEY := text]> ∅) [].

Definition evt (n : Z) (r : string) (c : LogCategory) (a : string)
  : Ledger.Call :=
  Ledger.mkCall (mkTick r (1700000000000 + n)) c a None.

Definition three_calls : list Ledger.Call :=
  [ evt 0 "0.4fzyo82mvyr" SYSTEM "evt-0";
    evt 1 "0.i9x3k2m7qp1" FINANCIAL "evt-1";
    evt 2 "0.zz81hd72kq0" SECURITY "evt-2" ].

(** The 501 calls [evt-0] to [evt-500] of the scenario. *)
Definition many_calls : list Ledger.Call :=
  List.map (fun n => evt (Z.of_nat n) "0.k2j4h6g8d0s"
                       SYSTEM ("evt-" +:+ JSON.print_nat (N.of_nat n)))
    (seq 0 501).

Definition fourth_call : Ledger.Call :=
  Ledger.mkCall (mkTick "0.c3po5r2d2xx" 1700000000003) OPERATION
    "Bot status toggled: PAUSED"
    (Some [("botId", VStr "b-7"); ("temp", VNum (Fin 54))]).

(** Metadata with a BigInt, which [JSON.stringify] rejects. *)
Definition wei_call : Ledger.Call :=
  Ledger.mkCall (mkTick "0.b1g1ntxyz01" 1700000000005) FINANCIAL
    "Extraction transaction finalized" (Some [("wei", VBigInt 1)]).

(** The store after the three calls. *)
Definition stocked : World :=
  snd (Ledger.appends host_ok three_calls fresh).

(** Metadata with a number that JSON cannot write. *)
Definition nan_call : Ledger.Call :=
  Ledger.mkCall (mkTick "0.7x1y2z3a4b5" 1700000000004) OPERATION
    "Thermal threshold check passed" (Some [("avgTemp", VNum NaN)]).

(** Two draws that agree on their first nine digits after the point. *)
Definition twin_a : Ledger.Call := evt 5 "0.4fzyo82mvyr" SYSTEM "first".
Definition twin_b : Ledger.Call := evt 6 "0.4fzyo82mvzz9" AI "second".

Definition boot : AuditLog.t :=
  AuditLog.mk "LOG-4FZYO82MV" 1700000000000 SYSTEM
    "Lattice heartbeat pulse" None.

Definition payout : AuditLog.t :=
  AuditLog.mk "LOG-I9X3K2M7Q" 1700000000001 FINANCIAL
    "Bot performance payout calculated"
    (Some (VObj [("botId", VStr "HyperNode-Prime"); ("amount", VNum (Fin 14))])).

Definition by_newest : AuditLogView.SortConfig :=
  AuditLogView.mkSortConfig AuditLogView.timestamp AuditLogView.desc.

End Sample.
(** ** More of the runtime: array slices, string splitting, dates *)

Module Runtime.

(** The index [Array.prototype.slice] makes of an integral argument: a
    negative one counts from the end, and both ways the index is kept
    within the array. *)
Definition relative_index (len k : Z) : Z :=
  if (k <? 0)%Z then Z.max (len + k) 0 else Z.min k len.

(** [l.slice(start, end)] for integral arguments. *)
Definition Array_slice {A} (start end_ : Z) (l : list A) : list A :=
  let len := Z.of_nat (length l) in
  let k := relative_index len start in
  let final := relative_index len end_ in
  take (Z.to_nat (Z.max (final - k) 0)) (drop (Z.to_nat k) l).

(** [Math.ceil(a / b)] for integers [a >= 0] and [b > 0] as small as
    the length of an array: the quotient of the two doubles is an
    integer when [b] divides [a] and lies strictly between two integers
    otherwise, so its ceiling is the ceiling of the exact quotient. *)
Definition Math_ceil_div (a b : Z) : Z := (- ((- a) / b))%Z.

(** [s.split(sep)] for a separator of one character. *)
Fixpoint split (sep : ascii) (s : string) : list string :=
  match s with
  | EmptyString => [EmptyString]
  | String c r =>
      if Ascii.eqb c sep then EmptyString :: split sep r
      else match split sep r with
           | x :: xs => String c x :: xs
           | [] => [String c EmptyString]
           end
  end.

(** [s.replace(/c/g, by)]: every occurrence of the character [c]
    replaced. *)
Fixpoint replace_char (c : ascii) (by_ : string) (s : string) : string :=
  match s with
  | EmptyString => EmptyString
  | String x r =>
      if Ascii.eqb x c then by_ +:+ replace_char c by_ r
      else String x (replace_char c by_ r)
  end.

Definition LF : ascii := ascii_of_N 10.

End Runtime.
Export Runtime.

(** The time values of [Date], after the definitions of ECMA-262
    (21.4.1): days and years are counted from 1 January 1970 UTC, the
    calendar is the proleptic Gregorian one. *)
Module Date.
Local Open Scope Z_scope.

Definition msPerDay : Z := 86400000.

Definition Day (t : Z) : Z := t / msPerDay.

Definition DayFromYear (y : Z) : Z :=
  365 * (y - 1970) + (y - 1969) / 4 - (y - 1901) / 100 + (y - 1601) / 400.

(** The largest year whose first day is not after [t]: it is the year
    the mean length of a year suggests, or a neighbour of it. *)
Definition YearFromTime (t : Z) : Z :=
  let y := 1970 + Day t * 400 / 146097 in
  if DayFromYear (y + 1) <=? Day t then y + 1
  else if DayFromYear y <=? Day t then y
  else y - 1.

Definition leap_year (y : Z) : bool :=
  (y mod 4 =? 0) && (negb (y mod 100 =? 0) || (y mod 400 =? 0)).

Definition InLeapYear (t : Z) : Z :=
  if leap_year (YearFromTime t) then 1 else 0.

Definition DayWithinYear (t : Z) : Z := Day t - DayFromYear (YearFromTime t).

Definition MonthFromTime (t : Z) : Z :=
  let d := DayWithinYear t in
  let l := InLeapYear t in
  if d <? 31 then 0
  else if d <? 59 + l then 1
  else if d <? 90 + l then 2
  else if d <? 120 + l then 3
  else if d <? 151 + l then 4
  else if d <? 181 + l then 5
  else if d <? 212 + l then 6
  else if d <? 243 + l then 7
  else if d <? 273 + l then 8
  else if d <? 304 + l then 9
  else if d <? 334 + l then 10
  else 11.

Definition DateFromTime (t : Z) : Z :=
  let d := DayWithinYear t in
  let l := InLeapYear t in
  match MonthFromTime t with
  | 0 => d + 1
  | 1 => d - 30
  | 2 => d - 58 - l
  | 3 => d - 89 - l
  | 4 => d - 119 - l
  | 5 => d - 150 - l
  | 6 => d - 180 - l
  | 7 => d - 211 - l
  | 8 => d - 242 - l
  | 9 => d - 272 - l
  | 10 => d - 303 - l
  | _ => d - 333 - l
  end.

Definition HourFromTime (t : Z) : Z := (t / 3600000) mod 24.
Definition MinFromTime (t : Z) : Z := (t / 60000) mod 60.
Definition SecFromTime (t : Z) : Z := (t / 1000) mod 60.
Definition msFromTime (t : Z) : Z := t mod 1000.

(** The time values a [Date] can hold (TimeClip); [new Date(t)] for
    another number is an invalid date. *)
Definition valid (t : Z) : bool :=
  (-8640000000000000 <=? t) && (t <=? 8640000000000000).

(** A number in decimal, with zeros before it up to [width] digits. *)
Definition pad (width : nat) (n : Z) : string :=
  let s := JSON.print_nat (Z.to_N n) in
  string_of_list_ascii (repeat "0"%char (width - String.length s)) +:+ s.

(** Four digits for the years 0 to 9999, a sign and six digits for the
    others. *)
Definition year_text (y : Z) : string :=
  if (0 <=? y) && (y <=? 9999) then pad 4 y
  else if y <? 0 then String "-" (pad 6 (- y))
  else String "+" (pad 6 y).

(** [new Date(t).toISOString()]: on an invalid date the call throws a
    RangeError. *)
Definition toISOString (t : Z) : Completion string :=
  if valid t
  then Normal (year_text (YearFromTime t) +:+ "-" +:+
               pad 2 (MonthFromTime t + 1) +:+ "-" +:+
               pad 2 (DateFromTime t) +:+ "T" +:+
               pad 2 (HourFromTime t) +:+ ":" +:+
               pad 2 (MinFromTime t) +:+ ":" +:+
               pad 2 (SecFromTime t) +:+ "." +:+
               pad 3 (msFromTime t) +:+ "Z")
  else Throw RangeError.

End Date.

(** ** The audit-log view: pages, sort headers, purge and export *)

Module AuditLogTable.
Import AuditLogView.

Definition PAGE_SIZE : Z := 20.

(** [Math.ceil(sortedAndFilteredLogs.length / PAGE_SIZE)] *)
Definition totalPages {A} (shown : list A) : Z :=
  Math_ceil_div (Z.of_nat (length shown)) PAGE_SIZE.

Definition paginatedLogs {A} (shown : list A) (currentPage : Z) : list A :=
  let start := ((currentPage - 1) * PAGE_SIZE)%Z in
  Array_slice start (start + PAGE_SIZE) shown.

(** The two numbers of the line [Showing a-b of n records]. *)
Definition showing_from (currentPage : Z) : Z :=
  ((currentPage - 1) * PAGE_SIZE + 1)%Z.

Definition showing_to {A} (shown : list A) (currentPage : Z) : Z :=
  Z.min (currentPage * PAGE_SIZE) (Z.of_nat (length shown)).

(** The part of the component's state the page controls read and
    write. *)
Record PageState : Type := mkPageState {
  currentPage : Z;
  inspectingLogId : option string;
  backgroundLogsCount : Z
}.

(** [handlePageChange]; the scrolling of the table into view is left
    out. *)
Definition handlePageChange (page : Z) (st : PageState) : PageState :=
  mkPageState page None
    (if (page =? 1)%Z then 0%Z else backgroundLogsCount st).

(** A button: the function its [onClick] applies to the state, and its
    [disabled] attribute. *)
Record Button : Type := mkButton {
  onClick : PageState -> PageState;
  disabled : bool
}.

(** A click on a disabled button does nothing. *)
Definition click (b : Button) (st : PageState) : PageState :=
  if disabled b then st else onClick b st.

(** The numbers [i] of the loop of [renderPaginationButtons], each with
    the test [currentPage === i] that highlights its button. *)
Definition pageNumbers (currentPage totalPages : Z) : list (Z * bool) :=
  let maxVisiblePages := 5%Z in
  let startPage := Z.max 1 (currentPage - 2) in
  let endPage := Z.min totalPages (startPage + maxVisiblePages - 1) in
  let startPage :=
    if (endPage - startPage <? maxVisiblePages - 1)%Z
    then Z.max 1 (endPage - maxVisiblePages + 1)
    else startPage in
  List.map (fun i => (i, (currentPage =? i)%Z))
    (seqZ startPage (endPage - startPage + 1)).

Definition renderPaginationButtons (currentPage totalPages : Z)
  : list Button :=
  List.map (fun b => mkButton (handlePageChange (fst b)) false)
    (pageNumbers currentPage totalPages).

(** The row of page controls, shown when there is more than one page:
    first, previous, the numbered buttons, next, last. *)
Definition pageControls (currentPage totalPages : Z) : list Button :=
  if (1 <? totalPages)%Z then
    [ mkButton (handlePageChange 1) (currentPage =? 1)%Z;
      mkButton (handlePageChange (currentPage - 1)) (currentPage =? 1)%Z ]
    ++ renderPaginationButtons currentPage totalPages ++
    [ mkButton (handlePageChange (currentPage + 1))
        (currentPage =? totalPages)%Z;
      mkButton (handlePageChange totalPages) (currentPage =? totalPages)%Z ]
  else [].

Definition sortkey_eqb (a b : SortKey) : bool :=
  match a, b with
  | timestamp, timestamp | category, category | action, action => true
  | _, _ => false
  end.

(** The updater [handleSort] hands to [setSortConfig]. *)
Definition handleSort (key : SortKey) (prev : SortConfig) : SortConfig :=
  mkSortConfig key
    (if sortkey_eqb (AuditLogView.key prev) key &&
        match direction prev with asc => true | desc => false end
     then desc else asc).

(** [log.id.split('-')[1]], the text shown after [#] in the first
    column; [None] is [undefined], which renders as nothing. *)
Definition id_label (id : string) : option string :=
  split "-" id !! 1%nat.

Section WithHost.
Variable host : Host.
Local Open Scope js_scope.

(** [handleClear]: [confirmed] is the answer of the dialog.  The value
    is the argument of [setLogs], when the call is reached. *)
Definition handleClear (t : Tick) (confirmed : bool) : M (option JsVal) :=
  if confirmed then
    run LoggerService.clearLogs host t;
    const logs := LoggerService.getLogs host;
    ret (Some logs)
  else ret None.

End WithHost.

(** *** The export *)

Definition headers : list string :=
  ["ID"; "Timestamp_Unix"; "UTC_Date"; "Category"; "Action"; "Metadata_JSON"].

(** The template that puts [s] between two double quotes, after
    [replace] has doubled every double quote of [s]. *)
Definition quoted (s : string) : string :=
  String JSON.dquote
    (replace_char JSON.dquote
       (String JSON.dquote (String JSON.dquote EmptyString)) s
     +:+ String JSON.dquote EmptyString).

(** [JSON.stringify(log.metadata || {})], a string on which [replace]
    can be called. *)
Definition metadata_json (log : AuditLog.t) : Completion string :=
  let value :=
    match AuditLog.metadata log with
    | Some m => if truthy m then m else VObj []
    | None => VObj []
    end in
  match JSON.stringify value with
  | inl e => Throw e
  | inr None => Throw TypeError
  | inr (Some text) => Normal text
  end.

(** The array the callback of [map] makes of an entry, its cells in
    the order the array literal evaluates them. *)
Definition row (log : AuditLog.t) : Completion (list string) :=
  match Date.toISOString (AuditLog.timestamp log) with
  | Normal date =>
      match metadata_json log with
      | Normal text =>
          Normal [ AuditLog.id log;
                   JSON.print_int (AuditLog.timestamp log);
                   date;
                   category_name (AuditLog.category log);
                   quoted (AuditLog.action log);
                   quoted text ]
      | Throw e => Throw e
      | Unmodelled => Unmodelled
      end
  | Throw e => Throw e
  | Unmodelled => Unmodelled
  end.

(** [Array.prototype.map] with a callback that may throw. *)
Fixpoint Array_map {A B} (f : A -> Completion B) (l : list A)
  : Completion (list B) :=
  match l with
  | [] => Normal []
  | x :: r =>
      match f x with
      | Normal y =>
          match Array_map f r with
          | Normal r' => Normal (y :: r')
          | Throw e => Throw e
          | Unmodelled => Unmodelled
          end
      | Throw e => Throw e
      | Unmodelled => Unmodelled
      end
  end.

Definition csvContent (shown : list AuditLog.t) : Completion string :=
  match Array_map row shown with
  | Normal rows =>
      Normal (String.concat (String LF EmptyString)
                (String.concat "," headers
                 :: List.map (String.concat ",") rows))
  | Throw e => Throw e
  | Unmodelled => Unmodelled
  end.

(** What the click on the link downloads. *)
Record Download : Type := mkDownload {
  download : string;
  content : string
}.

(** A completion as a step of the monad. *)
Definition complete {A} (c : Completion A) : M A := fun w => (c, w).

(** [handleExportCSV]: [now] is what [new Date()] reads from the clock.
    The value is the file handed to the browser, if any.  The flag
    [isExporting] and its timer are left out. *)
Definition handleExportCSV (now : Z) (shown : list AuditLog.t)
  : M (option Download) :=
  if (length shown =? 0)%nat then ret None
  else
    try_catch
      (bind (complete (csvContent shown)) (fun csv =>
       bind (complete (Date.toISOString now)) (fun stamp =>
       ret (Some (mkDownload
                    ("cloudmine_audit_export_" +:+
                     replace_char ":" "-" (replace_char "." "-" stamp) +:+
                     ".csv")
                    csv)))))
      (fun e => bind (console_error "Export failed:" e) (fun _ => ret None)).

End AuditLogTable.

(** ** A reader of comma-separated values *)

(** The format of RFC 4180, records separated by a line feed: a field
    is either enclosed in double quotes, a doubled quote inside it
    standing for one quote, or holds no quote, comma or line feed. *)
Module CSV.

Inductive Mode : Type :=
| FieldStart
| Unquoted
| Quoted
| QuoteSeen.

(** The records of a text are built from its end: [push] puts a
    character before the first field of the first record, [end_field]
    and [end_record] open a new first field and a new first record. *)
Definition push (c : ascii) (r : option (list (list string)))
  : option (list (list string)) :=
  match r with
  | Some ((f :: fs) :: rs) => Some ((String c f :: fs) :: rs)
  | _ => None
  end.

Definition end_field (r : option (list (list string)))
  : option (list (list string)) :=
  match r with
  | Some (fs :: rs) => Some ((EmptyString :: fs) :: rs)
  | _ => None
  end.

Definition end_record (r : option (list (list string)))
  : option (list (list string)) :=
  match r with
  | Some rs => Some ([EmptyString] :: rs)
  | None => None
  end.

Fixpoint scan (m : Mode) (s : string) : option (list (list string)) :=
  match s with
  | EmptyString =>
      match m with
      | Quoted => None
      | _ => Some [[EmptyString]]
      end
  | String c r =>
      match m with
      | FieldStart =>
          if Ascii.eqb c JSON.dquote then scan Quoted r
          else if Ascii.eqb c "," then end_field (scan FieldStart r)
          else if Ascii.eqb c LF then end_record (scan FieldStart r)
          else push c (scan Unquoted r)
      | Unquoted =>
          if Ascii.eqb c JSON.dquote then None
          else if Ascii.eqb c "," then end_field (scan FieldStart r)
          else if Ascii.eqb c LF then end_record (scan FieldStart r)
          else push c (scan Unquoted r)
      | Quoted =>
          if Ascii.eqb c JSON.dquote then scan QuoteSeen r
          else push c (scan Quoted r)
      | QuoteSeen =>
          if Ascii.eqb c JSON.dquote then push c (scan Quoted r)
          else if Ascii.eqb c "," then end_field (scan FieldStart r)
          else if Ascii.eqb c LF then end_record (scan FieldStart r)
          else None
      end
  end.

Definition read (s : string) : option (list (list string)) :=
  scan FieldStart s.

(** A text that can stand as a field without quotes. *)
Definition plain_char (c : ascii) : bool :=
  negb (Ascii.eqb c JSON.dquote) && negb (Ascii.eqb c ",") &&
  negb (Ascii.eqb c LF).

Fixpoint plain (s : string) : bool :=
  match s with
  | EmptyString => true
  | String c r => plain_char c && plain r
  end.

(** [a] put before the first field of the first record. *)
Fixpoint prepend (a : string) (r : option (list (list string)))
  : option (list (list string)) :=
  match a with
  | EmptyString => r
  | String c a' => push c (prepend a' r)
  end.

(** The text that may follow a field: nothing, a comma or a line
    feed. *)
Definition boundary (rest : string) : bool :=
  match rest with
  | EmptyString => true
  | String c _ => Ascii.eqb c "," || Ascii.eqb c LF
  end.

(** The two ways the export writes a field: as it is, when it can
    stand without quotes, or in quotes. *)
Definition encodes (raw enc : string) : Prop :=
  (enc = raw /\ plain raw = true) \/ enc = AuditLogTable.quoted raw.

End CSV.

(** ** Vocabulary for the export *)

Module Exporting.

(** An entry the export can write: its id can stand without quotes,
    its timestamp is a time value of [Date], and [JSON.stringify]
    accepts its metadata. *)
Definition exportable (e : AuditLog.t) : bool :=
  CSV.plain (AuditLog.id e) && Date.valid (AuditLog.timestamp e) &&
  View.serialisable e.

(** The record an entry stands for: the six values of its row, the
    action and the metadata as they are before the quoting. *)
Definition record (log : AuditLog.t) : Completion (list string) :=
  match Date.toISOString (AuditLog.timestamp log) with
  | Normal date =>
      match AuditLogTable.metadata_json log with
      | Normal text =>
          Normal [ AuditLog.id log;
                   JSON.print_int (AuditLog.timestamp log);
                   date;
                   category_name (AuditLog.category log);
                   AuditLog.action log;
                   text ]
      | Throw e => Throw e
      | Unmodelled => Unmodelled
      end
  | Throw e => Throw e
  | Unmodelled => Unmodelled
  end.

End Exporting.

(** ** Vocabulary for the properties of the table *)

Module Table.

Definition field_eqb (a b : AuditLogView.Field) : bool :=
  match a, b with
  | AuditLogView.FNum x, AuditLogView.FNum y => (x =? y)%Z
  | AuditLogView.FStr x, AuditLogView.FStr y => String.eqb x y
  | _, _ => false
  end.

(** The entry has the sort key [k]. *)
Definition has_key (cfg : AuditLogView.SortConfig) (k : AuditLogView.Field)
    (e : AuditLog.t) : bool :=
  field_eqb (View.sort_key cfg e) k.

(** The clock did not run backwards from one call to the next. *)
Definition clock_monotone (calls : list Ledger.Call) : Prop :=
  StronglySorted
    (fun a b => (now (Ledger.call_tick a) <= now (Ledger.call_tick b))%Z)
    calls.

(** The sort configuration the component starts with. *)
Definition initial_sort : AuditLogView.SortConfig :=
  AuditLogView.mkSortConfig AuditLogView.timestamp AuditLogView.desc.

End Table.

(** ** Vocabulary for the identifiers *)

Module Ident.

(** A character of a base-36 numeral in upper case. *)
Definition upper36_char (ch : ascii) : bool :=
  in_range 48 57 ch || in_range 65 90 ch || Ascii.eqb ch ".".

Fixpoint upper36_text (s : string) : bool :=
  match s with
  | EmptyString => true
  | String ch r => upper36_char ch && upper36_text r
  end.

(** The text does not hold the character. *)
Fixpoint free_of (c : ascii) (s : string) : bool :=
  match s with
  | EmptyString => true
  | String ch r => negb (Ascii.eqb ch c) && free_of c r
  end.

End Ident.

(** * Properties *)

(** ** Strings *)

Lemma append_assoc (a b c : string) : (a +:+ b) +:+ c = a +:+ (b +:+ c).
Proof.
  induction a as [|x a IH]; [reflexivity|].
  change (String x ((a +:+ b) +:+ c) = String x (a +:+ (b +:+ c))).
  now rewrite IH.
Qed.

Lemma append_cons (x : ascii) (a b : string) :
  String x a +:+ b = String x (a +:+ b).
Proof. reflexivity. Qed.

Lemma append_nil_l (b : string) : EmptyString +:+ b = b.
Proof. reflexivity. Qed.

Lemma append_nil_r (a : string) : a +:+ EmptyString = a.
Proof.
  induction a as [|x a IH]; [reflexivity|].
  rewrite append_cons. now rewrite IH.
Qed.

Lemma length_append (a b : string) :
  String.length (a +:+ b) = String.length a + String.length b.
Proof.
  induction a as [|x a IH]; [reflexivity|].
  rewrite append_cons. simpl. now rewrite IH.
Qed.

(** ** JSON: a printed value reads back as itself *)


Lemma parse_chars_escape_char (c : ascii) (t : string) :
  JSON.parse_chars (JSON.escape_char c +:+ t)
  = JSON.cons_char c (JSON.parse_chars t).
Proof.
  destruct c as [b0 b1 b2 b3 b4 b5 b6 b7].
  destruct b0, b1, b2, b3, b4, b5, b6, b7; reflexivity.
Qed.

Lemma parse_chars_escape (s rest : string) :
  JSON.parse_chars (JSON.escape s +:+ String JSON.dquote rest)
  = JSON.Ok (s, rest).
Proof.
  induction s as [|c s IH]; [reflexivity|].
  change (JSON.escape (String c s))
    with (JSON.escape_char c +:+ JSON.escape s).
  rewrite append_assoc, parse_chars_escape_char, IH.
  reflexivity.
Qed.

Lemma parse_chars_quote (s rest : string) :
  exists body, JSON.quote s +:+ rest = String JSON.dquote body /\
               JSON.parse_chars body = JSON.Ok (s, rest).
Proof.
  exists (JSON.escape s +:+ String JSON.dquote rest). split.
  - unfold JSON.quote. rewrite append_cons, append_assoc. reflexivity.
  - apply parse_chars_escape.
Qed.

Lemma span_digits_uint (d : Decimal.uint) (rest : string) :
  JSON.span_digits rest = (EmptyString, rest) ->
  JSON.span_digits (NilEmpty.string_of_uint d +:+ rest)
  = (NilEmpty.string_of_uint d, rest).
Proof.
  intros Hrest.
  induction d as [|d IH|d IH|d IH|d IH|d IH|d IH|d IH|d IH|d IH|d IH];
    [exact Hrest|..];
    cbn [NilEmpty.string_of_uint]; rewrite append_cons;
    cbn [JSON.span_digits]; rewrite IH; reflexivity.
Qed.

Lemma delimiter_span (rest : string) :
  delimiter rest = true -> JSON.span_digits rest = (EmptyString, rest).
Proof.
  destruct rest as [|c r]; [reflexivity|].
  cbn [delimiter JSON.span_digits]. intros H.
  assert (JSON.is_digit c = false) as ->; [|reflexivity].
  apply orb_true_iff in H as [H|H]; [apply orb_true_iff in H as [H|H]|];
    apply Ascii.eqb_eq in H; subst c; reflexivity.
Qed.

Lemma delimiter_continues (rest : string) :
  delimiter rest = true -> JSON.continues_number rest = false.
Proof.
  destruct rest as [|c r]; [reflexivity|].
  cbn [delimiter JSON.continues_number]. intros H.
  apply orb_true_iff in H as [H|H]; [apply orb_true_iff in H as [H|H]|];
    apply Ascii.eqb_eq in H; subst c; reflexivity.
Qed.

Lemma delimiter_skip_ws (rest : string) :
  delimiter rest = true -> JSON.skip_ws rest = rest.
Proof.
  destruct rest as [|c r]; [reflexivity|].
  cbn [delimiter JSON.skip_ws]. intros H.
  assert (JSON.is_ws c = false) as ->; [|reflexivity].
  apply orb_true_iff in H as [H|H]; [apply orb_true_iff in H as [H|H]|];
    apply Ascii.eqb_eq in H; subst c; reflexivity.
Qed.

Lemma to_uint_normal (n : N) : N.to_uint n = Decimal.unorm (N.to_uint n).
Proof.
  rewrite <- (DecimalN.Unsigned.to_of (N.to_uint n)).
  now rewrite DecimalN.Unsigned.of_to.
Qed.

(** A printed natural number starts with a digit, and with [0] only
    when it is zero. *)
Lemma print_nat_head (n : N) :
  exists c r, JSON.print_nat n = String c r /\
              JSON.is_digit c = true /\
              Ascii.eqb c "-" = false /\
              (Ascii.eqb c "0" && negb (String.eqb r EmptyString) = false).
Proof.
  unfold JSON.print_nat. rewrite to_uint_normal.
  set (d := N.to_uint n). unfold Decimal.unorm.
  pose proof (DecimalFacts.nzhead_nonzero d) as Hnz.
  destruct (Decimal.nzhead d) as [|u|u|u|u|u|u|u|u|u|u];
    try (eexists _, _; repeat split; reflexivity).
  exfalso. exact (Hnz u eq_refl).
Qed.

Lemma parse_number_print_nat (n : N) (rest : string) :
  (Z.of_N n <=? MAX_SAFE_INTEGER)%Z = true ->
  delimiter rest = true ->
  JSON.parse_number (JSON.print_nat n +:+ rest)
  = JSON.Ok (VNum (Fin (Z.of_N n)), rest).
Proof.
  intros Hsafe Hrest.
  destruct (print_nat_head n) as (c & r & Hpr & Hd & Hminus & Hzero).
  unfold JSON.parse_number.
  rewrite Hpr, append_cons, Hminus, <- append_cons, <- Hpr.
  unfold JSON.print_nat at 1.
  rewrite (span_digits_uint _ _ (delimiter_span _ Hrest)).
  fold (JSON.print_nat n). rewrite Hpr, Hzero, <- Hpr.
  rewrite (delimiter_continues _ Hrest).
  unfold JSON.print_nat. rewrite NilEmpty.usu, DecimalN.Unsigned.of_to.
  cbn [andb].
  assert ((MAX_SAFE_INTEGER <? Z.of_N n)%Z = false) as ->; [|reflexivity].
  apply Z.ltb_ge. now apply Z.leb_le.
Qed.

Lemma parse_number_print_int (z : Z) (rest : string) :
  safe_integer z = true ->
  delimiter rest = true ->
  JSON.parse_number (JSON.print_int z +:+ rest)
  = JSON.Ok (VNum (Fin z), rest).
Proof.
  intros Hsafe Hrest. unfold safe_integer in Hsafe.
  apply andb_true_iff in Hsafe as [Hlo Hhi].
  destruct z as [|p|p].
  - apply (parse_number_print_nat 0 rest); [reflexivity|exact Hrest].
  - change (JSON.print_int (Z.pos p)) with (JSON.print_nat (N.pos p)).
    apply (parse_number_print_nat (N.pos p) rest); [exact Hhi|exact Hrest].
  - change (JSON.print_int (Z.neg p))
      with (String "-" (JSON.print_nat (N.pos p))).
    destruct (print_nat_head (N.pos p)) as (c & r & Hpr & Hd & Hminus & Hzero).
    unfold JSON.parse_number. rewrite append_cons.
    cbn [Ascii.eqb Bool.eqb]. 
    unfold JSON.print_nat at 1.
    rewrite (span_digits_uint _ _ (delimiter_span _ Hrest)).
    fold (JSON.print_nat (N.pos p)). rewrite Hpr, Hzero, <- Hpr.
    rewrite (delimiter_continues _ Hrest).
    unfold JSON.print_nat. rewrite NilEmpty.usu, DecimalN.Unsigned.of_to.
    cbn [andb Z.of_N Z.eqb].
    assert ((MAX_SAFE_INTEGER <? Z.pos p)%Z = false) as ->; [|reflexivity].
    apply Z.ltb_ge. apply Z.leb_le in Hlo. unfold MAX_SAFE_INTEGER in *. lia.
Qed.


Lemma parse_value_number (fuel : nat) (c : ascii) (r : string) :
  Ascii.eqb c "-" || JSON.is_digit c = true ->
  JSON.parse_value (S fuel) (String c r) = JSON.parse_number (String c r).
Proof.
  destruct c as [b0 b1 b2 b3 b4 b5 b6 b7].
  destruct b0, b1, b2, b3, b4, b5, b6, b7;
    (discriminate || (intros _; reflexivity)).
Qed.

Lemma print_int_head (z : Z) :
  exists c r, JSON.print_int z = String c r /\
              Ascii.eqb c "-" || JSON.is_digit c = true.
Proof.
  destruct z as [|p|p].
  - exists "0"%char, EmptyString. split; reflexivity.
  - destruct (print_nat_head (N.pos p)) as (c & r & Hpr & Hd & _).
    exists c, r. split; [exact Hpr|]. rewrite Hd. apply orb_true_r.
  - eexists _, _. split; reflexivity.
Qed.


Lemma opens_value_number (c : ascii) :
  Ascii.eqb c "-" || JSON.is_digit c = true -> opens_value c = true.
Proof.
  destruct c as [b0 b1 b2 b3 b4 b5 b6 b7].
  destruct b0, b1, b2, b3, b4, b5, b6, b7;
    (discriminate || (intros _; reflexivity)).
Qed.

Lemma print_head (v : JsVal) :
  exists c r, JSON.print v = String c r /\ opens_value c = true.
Proof.
  destruct v as [| |[|]|[z| | |]| | | |];
    try (eexists _, _; split; reflexivity).
  destruct (print_int_head z) as (c & r & Hpr & Hc).
  exists c, r. split; [exact Hpr|]. now apply opens_value_number.
Qed.

Lemma print_nonempty (v : JsVal) : 1 <= String.length (JSON.print v).
Proof.
  destruct (print_head v) as (c & r & -> & _). simpl. lia.
Qed.

Lemma opens_value_skip (c : ascii) (r : string) :
  opens_value c = true -> JSON.skip_ws (String c r) = String c r.
Proof.
  unfold opens_value. intros H.
  apply andb_true_iff in H as [H _]. apply andb_true_iff in H as [H _].
  cbn [JSON.skip_ws]. now destruct (JSON.is_ws c).
Qed.

Lemma parse_elements_step (fuel : nat) (s : string) :
  JSON.parse_elements (S fuel) s
  = JSON.bindP (JSON.parse_value fuel s) (fun '(v, t) =>
      match JSON.skip_ws t with
      | EmptyString => JSON.Malformed
      | String c r =>
          if Ascii.eqb c "," then
            JSON.bindP (JSON.parse_elements fuel r)
              (fun '(l, t') => JSON.Ok (v :: l, t'))
          else if Ascii.eqb c "]" then JSON.Ok ([v], r)
          else JSON.Malformed
      end).
Proof. reflexivity. Qed.

Lemma print_elements_cons (x y : JsVal) (l : list JsVal) :
  JSON.print_elements JSON.print (x :: y :: l)
  = JSON.print x +:+ "," +:+ JSON.print_elements JSON.print (y :: l).
Proof. reflexivity. Qed.

Lemma parse_elements_print (l : list JsVal) :
  Forall reads_back l ->
  forallb is_json l = true ->
  l <> [] ->
  forall fuel rest,
    String.length (JSON.print_elements JSON.print l) + 1 <= fuel ->
    JSON.parse_elements fuel
      (JSON.print_elements JSON.print l +:+ String "]" rest)
    = JSON.Ok (l, rest).
Proof.
  induction 1 as [|x l Hx Hl IH]; [congruence|].
  intros Hjson _ fuel rest Hfuel.
  cbn [forallb] in Hjson. apply andb_true_iff in Hjson as [Hjx Hjl].
  destruct fuel as [|fuel]; [lia|].
  rewrite parse_elements_step.
  destruct l as [|y l].
  - cbn [JSON.print_elements] in *.
    rewrite (Hx Hjx fuel (String "]" rest)); [reflexivity|lia|reflexivity].
  - rewrite print_elements_cons in *.
    rewrite !length_append in Hfuel. cbn [String.length] in Hfuel.
    rewrite !append_assoc.
    rewrite (Hx Hjx fuel); [|lia|reflexivity].
    cbn [JSON.bindP]. rewrite append_cons, append_nil_l.
    rewrite (delimiter_skip_ws (String "," _)) by reflexivity.
    change (Ascii.eqb "," ",") with true. cbv iota.
    rewrite IH; [reflexivity|exact Hjl|discriminate|lia].
Qed.

Lemma parse_members_step (fuel : nat) (body : string) :
  JSON.parse_members (S fuel) (String JSON.dquote body)
  = JSON.bindP (JSON.parse_chars body) (fun '(k, t) =>
      match JSON.skip_ws t with
      | EmptyString => JSON.Malformed
      | String c1 r1 =>
          if Ascii.eqb c1 ":" then
            JSON.bindP (JSON.parse_value fuel r1) (fun '(v, t1) =>
              match JSON.skip_ws t1 with
              | EmptyString => JSON.Malformed
              | String c2 r2 =>
                  if Ascii.eqb c2 "," then
                    JSON.bindP (JSON.parse_members fuel r2)
                      (fun '(ms, t2) => JSON.Ok ((k, v) :: ms, t2))
                  else if Ascii.eqb c2 "}" then JSON.Ok ([(k, v)], r2)
                  else JSON.Malformed
              end)
          else JSON.Malformed
      end).
Proof. reflexivity. Qed.

Lemma print_members_cons (k : string) (x : JsVal) (p : string * JsVal)
    (ps : list (string * JsVal)) :
  JSON.print_members JSON.print ((k, x) :: p :: ps)
  = JSON.quote k +:+ ":" +:+ JSON.print x +:+ "," +:+
    JSON.print_members JSON.print (p :: ps).
Proof. reflexivity. Qed.

Lemma print_members_one (k : string) (x : JsVal) :
  JSON.print_members JSON.print [(k, x)]
  = JSON.quote k +:+ ":" +:+ JSON.print x.
Proof. reflexivity. Qed.

Lemma parse_members_print (ps : list (string * JsVal)) :
  Forall (fun p => reads_back (snd p)) ps ->
  forallb (fun p => is_json (snd p)) ps = true ->
  ps <> [] ->
  forall fuel rest,
    String.length (JSON.print_members JSON.print ps) + 1 <= fuel ->
    JSON.parse_members fuel
      (JSON.print_members JSON.print ps +:+ String "}" rest)
    = JSON.Ok (ps, rest).
Proof.
  induction 1 as [|[k x] ps Hx Hps IH]; [congruence|].
  intros Hjson _ fuel rest Hfuel.
  cbn [forallb snd] in Hjson. apply andb_true_iff in Hjson as [Hjx Hjps].
  cbn [snd] in Hx.
  destruct fuel as [|fuel]; [lia|].
  destruct ps as [|p ps].
  - rewrite print_members_one in *.
    rewrite !length_append in Hfuel. cbn [String.length] in Hfuel.
    rewrite !append_assoc.
    destruct (parse_chars_quote k
                (":" +:+ JSON.print x +:+ String "}" rest))
      as (body & -> & Hbody).
    rewrite parse_members_step, Hbody. cbn [JSON.bindP].
    rewrite append_cons, append_nil_l.
    change (JSON.skip_ws (String ":" ?t)) with (String ":" t).
    change (Ascii.eqb ":" ":") with true. cbv iota.
    rewrite (Hx Hjx fuel (String "}" rest)); [reflexivity|lia|reflexivity].
  - rewrite print_members_cons in *.
    rewrite !length_append in Hfuel. cbn [String.length] in Hfuel.
    rewrite !append_assoc.
    destruct (parse_chars_quote k
                (":" +:+ JSON.print x +:+ "," +:+
                 JSON.print_members JSON.print (p :: ps) +:+ String "}" rest))
      as (body & -> & Hbody).
    rewrite parse_members_step, Hbody. cbn [JSON.bindP].
    rewrite append_cons, append_nil_l.
    change (JSON.skip_ws (String ":" ?t)) with (String ":" t).
    change (Ascii.eqb ":" ":") with true. cbv iota.
    rewrite (Hx Hjx fuel); [|lia|reflexivity].
    cbn [JSON.bindP]. rewrite append_cons, append_nil_l.
    rewrite (delimiter_skip_ws (String "," _)) by reflexivity.
    change (Ascii.eqb "," ",") with true. cbv iota.
    rewrite IH; [reflexivity|exact Hjps|discriminate|lia].
Qed.

Lemma existsb_eqb_In (k : string) (l : list string) :
  existsb (String.eqb k) l = true <-> In k l.
Proof.
  rewrite existsb_exists. split.
  - intros (x & Hin & Heq). apply String.eqb_eq in Heq. now subst.
  - intros Hin. exists k. split; [exact Hin|apply String.eqb_refl].
Qed.

Lemma distinct_NoDup (l : list string) : distinct l = true <-> NoDup l.
Proof.
  induction l as [|k l IH]; cbn [distinct].
  - split; [constructor|reflexivity].
  - rewrite andb_true_iff, negb_true_iff, IH, NoDup_cons.
    rewrite <- not_true_iff_false, existsb_eqb_In, <- list_elem_of_In.
    reflexivity.
Qed.

Lemma set_prop_fresh (k : string) (v : JsVal) (o : list (string * JsVal)) :
  ~ In k (List.map fst o) -> JSON.set_prop k v o = (o ++ [(k, v)])%list.
Proof.
  induction o as [|[k' v'] o IH]; [reflexivity|].
  cbn [List.map fst In JSON.set_prop]. intros Hnot.
  destruct (String.eqb_spec k k') as [->|Hne]; [tauto|].
  cbn [app]. rewrite IH; [reflexivity|tauto].
Qed.

Lemma fold_set_prop (ps acc : list (string * JsVal)) :
  NoDup (List.map fst (acc ++ ps)%list) ->
  fold_left (fun o m => JSON.set_prop (fst m) (snd m) o) ps acc
  = (acc ++ ps)%list.
Proof.
  revert acc. induction ps as [|[k v] ps IH]; intros acc Hnd.
  - now rewrite app_nil_r.
  - cbn [fold_left fst snd].
    rewrite set_prop_fresh.
    + rewrite IH; rewrite <- app_assoc; [reflexivity|exact Hnd].
    + rewrite List.map_app in Hnd. apply NoDup_app in Hnd as (_ & Hdisj & _).
      intros Hin. apply (Hdisj k); [now apply list_elem_of_In|].
      cbn [List.map fst]. apply list_elem_of_In. now left.
Qed.

Lemma make_object_json (ps : list (string * JsVal)) :
  is_json (VObj ps) = true -> JSON.make_object ps = JSON.Ok (VObj ps).
Proof.
  cbn [is_json]. intros H. apply andb_true_iff in H as [Hd Hall].
  unfold JSON.make_object.
  assert (existsb (fun m => JSON.index_like (fst m)) ps = false) as ->.
  { apply not_true_iff_false. rewrite existsb_exists.
    intros ([k v] & Hin & Hidx).
    rewrite forallb_forall in Hall. specialize (Hall _ Hin).
    cbn [fst snd] in *. rewrite Hidx in Hall. discriminate. }
  rewrite fold_set_prop; [reflexivity|].
  cbn [app]. now apply distinct_NoDup.
Qed.

Lemma parse_value_string (fuel : nat) (body : string) :
  JSON.parse_value (S fuel) (String JSON.dquote body)
  = JSON.bindP (JSON.parse_chars body)
      (fun '(str, t) => JSON.Ok (VStr str, t)).
Proof. reflexivity. Qed.

Lemma parse_value_array (fuel : nat) (c : ascii) (r : string) :
  opens_value c = true ->
  JSON.parse_value (S fuel) (String "[" (String c r))
  = JSON.bindP (JSON.parse_elements fuel (String c r))
      (fun '(l, t) => JSON.Ok (VArr l, t)).
Proof.
  intros Hc.
  change (JSON.parse_value (S fuel) (String "[" (String c r)))
    with (match JSON.skip_ws (String c r) with
          | EmptyString => JSON.Malformed
          | String c' r' =>
              if Ascii.eqb c' "]" then JSON.Ok (VArr [], r')
              else JSON.bindP (JSON.parse_elements fuel (String c r))
                     (fun '(l, t) => JSON.Ok (VArr l, t))
          end).
  rewrite (opens_value_skip _ _ Hc).
  unfold opens_value in Hc.
  apply andb_true_iff in Hc as [Hc _]. apply andb_true_iff in Hc as [_ Hc].
  apply negb_true_iff in Hc. now rewrite Hc.
Qed.

Lemma parse_value_object (fuel : nat) (r : string) :
  JSON.parse_value (S fuel) (String "{" (String JSON.dquote r))
  = JSON.bindP (JSON.parse_members fuel (String JSON.dquote r))
      (fun '(ms, t) =>
         JSON.bindP (JSON.make_object ms) (fun o => JSON.Ok (o, t))).
Proof. reflexivity. Qed.

Lemma print_elements_head (l : list JsVal) :
  l <> [] ->
  exists c r, JSON.print_elements JSON.print l = String c r /\
              opens_value c = true.
Proof.
  destruct l as [|x [|y l]]; [congruence| |]; intros _;
    destruct (print_head x) as (c & r & Hpr & Hc).
  - exists c, r. now split.
  - exists c. eexists. rewrite print_elements_cons, Hpr, append_cons.
    now split.
Qed.

Lemma print_members_head (ps : list (string * JsVal)) :
  ps <> [] ->
  exists r, JSON.print_members JSON.print ps = String JSON.dquote r.
Proof.
  destruct ps as [|[k x] [|p ps]]; [congruence| |]; intros _.
  - rewrite print_members_one. unfold JSON.quote. rewrite append_cons.
    eexists. reflexivity.
  - rewrite print_members_cons. unfold JSON.quote. rewrite append_cons.
    eexists. reflexivity.
Qed.

Lemma forallb_is_json_members (ps : list (string * JsVal)) :
  forallb (fun p => negb (JSON.index_like (fst p)) && is_json (snd p)) ps
  = true ->
  forallb (fun p => is_json (snd p)) ps = true.
Proof.
  rewrite !forallb_forall. intros H p Hin. specialize (H p Hin).
  now apply andb_true_iff in H as [_ H].
Qed.

Lemma bracketed_text (o c : ascii) (body rest : string) :
  (String o EmptyString +:+ body +:+ String c EmptyString) +:+ rest
  = String o (body +:+ String c rest).
Proof. rewrite !append_assoc. reflexivity. Qed.

(** Reading the text of a JSON value gives the value back, whatever
    delimiter follows it. *)
Lemma print_reads_back (v : JsVal) : reads_back v.
Proof.
  induction v as [| |b|n|z|s|l IH|ps IH] using JsVal_ind;
    unfold reads_back; intros Hjson fuel rest Hfuel Hrest;
    try discriminate.
  - destruct fuel as [|fuel]; [simpl in Hfuel; lia|]. reflexivity.
  - destruct fuel as [|fuel]; [destruct b; simpl in Hfuel; lia|].
    destruct b; reflexivity.
  - destruct n as [z| | |]; try discriminate.
    destruct fuel as [|fuel];
      [pose proof (print_nonempty (VNum (Fin z))); lia|].
    cbn [JSON.print is_json] in *.
    destruct (print_int_head z) as (c & r & Hpr & Hc).
    rewrite Hpr, append_cons, (parse_value_number _ _ _ Hc).
    rewrite <- append_cons, <- Hpr.
    now apply parse_number_print_int.
  - destruct fuel as [|fuel];
      [pose proof (print_nonempty (VStr s)); lia|].
    cbn [JSON.print].
    destruct (parse_chars_quote s rest) as (body & -> & Hbody).
    now rewrite parse_value_string, Hbody.
  - cbn [JSON.print is_json] in *.
    rewrite !length_append in Hfuel. cbn [String.length] in Hfuel.
    destruct fuel as [|fuel]; [lia|].
    destruct l as [|x l]; [reflexivity|].
    destruct (print_elements_head (x :: l)) as (c & r & Hpr & Hc);
      [discriminate|].
    rewrite bracketed_text.
    rewrite Hpr, append_cons, (parse_value_array _ _ _ Hc).
    rewrite <- append_cons, <- Hpr.
    rewrite parse_elements_print;
      [reflexivity|exact IH|exact Hjson|discriminate|lia].
  - cbn [JSON.print] in *.
    rewrite !length_append in Hfuel. cbn [String.length] in Hfuel.
    destruct fuel as [|fuel]; [lia|].
    destruct ps as [|p ps]; [reflexivity|].
    destruct (print_members_head (p :: ps)) as (r & Hpr); [discriminate|].
    rewrite bracketed_text.
    rewrite Hpr, append_cons, parse_value_object.
    rewrite <- append_cons, <- Hpr.
    pose proof Hjson as Hobj. cbn [is_json] in Hjson.
    apply andb_true_iff in Hjson as [_ Hall].
    rewrite parse_members_print;
      [|exact IH|now apply forallb_is_json_members|discriminate|lia].
    cbn [JSON.bindP]. now rewrite (make_object_json _ Hobj).
Qed.

(** [JSON.parse(JSON.stringify(v))] for a JSON value. *)
Lemma parse_print (v : JsVal) :
  is_json v = true -> JSON.parse (JSON.print v) = JSON.Ok v.
Proof.
  intros Hjson. unfold JSON.parse.
  rewrite <- (append_nil_r (JSON.print v)) at 2.
  rewrite (print_reads_back v Hjson); [reflexivity|lia|reflexivity].
Qed.

(** ** JSON: what serialisation keeps *)


Lemma jsonify_object (ps : list (string * JsVal)) :
  JSON.jsonify (VObj ps) = Some (VObj (kept_members ps)).
Proof. reflexivity. Qed.

Lemma jsonify_array (l : list JsVal) :
  JSON.jsonify (VArr l) = Some (VArr (List.map stored l)).
Proof. reflexivity. Qed.

Lemma kept_members_keys (ps : list (string * JsVal)) (k : string) :
  In k (List.map fst (kept_members ps)) -> In k (List.map fst ps).
Proof.
  induction ps as [|[k' x] ps IH]; [tauto|].
  cbn [kept_members]. destruct (JSON.jsonify x); cbn [List.map fst In]; tauto.
Qed.

Lemma kept_members_distinct (ps : list (string * JsVal)) :
  distinct (List.map fst ps) = true ->
  distinct (List.map fst (kept_members ps)) = true.
Proof.
  induction ps as [|[k x] ps IH]; [reflexivity|].
  cbn [List.map fst distinct kept_members]. intros H.
  apply andb_true_iff in H as [Hk Hd].
  destruct (JSON.jsonify x); [|now apply IH].
  cbn [List.map fst distinct]. rewrite (IH Hd), andb_true_r.
  apply negb_true_iff, not_true_iff_false. rewrite existsb_eqb_In.
  intros Hin. apply kept_members_keys in Hin.
  apply existsb_eqb_In in Hin. rewrite Hin in Hk. discriminate.
Qed.

(** What [JSON.stringify] writes is the text of a JSON value. *)
Lemma stored_is_json (v : JsVal) :
  well_formed v = true -> JSON.has_bigint v = false ->
  is_json (stored v) = true.
Proof.
  induction v as [| |b|n|z|s|l IH|ps IH] using JsVal_ind;
    intros Hwf Hbig; try reflexivity; try discriminate.
  - destruct n; [exact Hwf|reflexivity..].
  - unfold stored. rewrite jsonify_array. cbn [is_json].
    cbn [well_formed JSON.has_bigint] in *.
    induction IH as [|x l Hx Hl IHl]; [reflexivity|].
    cbn [forallb existsb List.map] in *.
    apply andb_true_iff in Hwf as [Hwx Hwl].
    apply orb_false_iff in Hbig as [Hbx Hbl].
    rewrite (Hx Hwx Hbx). now apply IHl.
  - unfold stored. rewrite jsonify_object. cbn [is_json].
    cbn [well_formed JSON.has_bigint] in *.
    apply andb_true_iff in Hwf as [Hd Hall].
    rewrite (kept_members_distinct _ Hd). cbn [andb].
    clear Hd. induction IH as [|[k x] ps Hx Hps IHps]; [reflexivity|].
    cbn [forallb existsb fst snd kept_members] in *.
    apply andb_true_iff in Hall as [Hkx Hall].
    apply andb_true_iff in Hkx as [Hk Hwx].
    apply orb_false_iff in Hbig as [Hbx Hbig].
    specialize (Hx Hwx Hbx). unfold stored in Hx.
    destruct (JSON.jsonify x) as [j|]; [|now apply IHps].
    cbn [forallb fst snd]. rewrite Hk, Hx. now apply IHps.
Qed.

(** A JSON value is written as it is. *)
Lemma jsonify_json (v : JsVal) :
  is_json v = true -> JSON.jsonify v = Some v.
Proof.
  induction v as [| |b|n|z|s|l IH|ps IH] using JsVal_ind;
    intros Hjson; try reflexivity; try discriminate.
  - destruct n; [reflexivity|discriminate..].
  - rewrite jsonify_array. do 2 f_equal. cbn [is_json] in Hjson.
    induction IH as [|x l Hx Hl IHl]; [reflexivity|].
    cbn [forallb List.map] in *. apply andb_true_iff in Hjson as [Hjx Hjl].
    unfold stored at 1. rewrite (Hx Hjx). now rewrite IHl.
  - rewrite jsonify_object. do 2 f_equal. cbn [is_json] in Hjson.
    apply andb_true_iff in Hjson as [_ Hall].
    induction IH as [|[k x] ps Hx Hps IHps]; [reflexivity|].
    cbn [forallb fst snd kept_members] in *.
    apply andb_true_iff in Hall as [Hkx Hall].
    apply andb_true_iff in Hkx as [_ Hjx].
    rewrite (Hx Hjx). now rewrite IHps.
Qed.

Lemma stored_json (v : JsVal) : is_json v = true -> stored v = v.
Proof. intros H. unfold stored. now rewrite jsonify_json. Qed.

(** A JSON value is a well-formed value without a BigInt. *)
Lemma is_json_well_formed (v : JsVal) :
  is_json v = true -> well_formed v = true /\ JSON.has_bigint v = false.
Proof.
  induction v as [| |b|n|z|s|l IH|ps IH] using JsVal_ind;
    intros Hjson; try (split; reflexivity); try discriminate.
  - destruct n; [split; [exact Hjson|reflexivity]|discriminate..].
  - cbn [is_json well_formed JSON.has_bigint] in *.
    induction IH as [|x l Hx Hl IHl]; [split; reflexivity|].
    cbn [forallb existsb] in *. apply andb_true_iff in Hjson as [Hjx Hjl].
    destruct (Hx Hjx) as [-> ->]. now apply IHl.
  - cbn [is_json well_formed JSON.has_bigint] in *.
    apply andb_true_iff in Hjson as [Hd Hall]. rewrite Hd. cbn [andb].
    clear Hd. induction IH as [|[k x] ps Hx Hps IHps]; [split; reflexivity|].
    cbn [forallb existsb fst snd] in *.
    apply andb_true_iff in Hall as [Hkx Hall].
    apply andb_true_iff in Hkx as [Hk Hjx].
    destruct (Hx Hjx) as [-> ->]. rewrite Hk. now apply IHps.
Qed.

(** ** JSON: what parsing returns *)

Ltac break_match_hyp H :=
  match type of H with
  | context [match ?x with _ => _ end] => destruct x eqn:?
  | context [if ?x then _ else _] => destruct x eqn:?
  end.

Lemma parse_number_json (s : string) (v : JsVal) (t : string) :
  JSON.parse_number s = JSON.Ok (v, t) -> is_json v = true.
Proof.
  unfold JSON.parse_number. intros H.
  repeat (break_match_hyp H; try discriminate);
    injection H as <- <-; cbn [is_json]; unfold safe_integer;
    apply andb_true_iff; split; apply Z.leb_le;
    match goal with
    | Hm : (MAX_SAFE_INTEGER <? _)%Z = false |- _ => apply Z.ltb_ge in Hm
    end; unfold MAX_SAFE_INTEGER in *; lia.
Qed.

Lemma parse_literal_json (s : string) (v : JsVal) (t : string) :
  JSON.parse_literal s = JSON.Ok (v, t) -> is_json v = true.
Proof.
  unfold JSON.parse_literal. intros H.
  repeat (break_match_hyp H; try discriminate);
    injection H as <- <-; reflexivity.
Qed.

Lemma set_prop_keys (k : string) (v : JsVal) (o : list (string * JsVal)) :
  List.map fst (JSON.set_prop k v o)
  = if existsb (String.eqb k) (List.map fst o) then List.map fst o
    else (List.map fst o ++ [k])%list.
Proof.
  induction o as [|[k' v'] o IH]; [reflexivity|].
  cbn [JSON.set_prop List.map fst existsb].
  destruct (String.eqb_spec k k') as [->|Hne]; [reflexivity|].
  cbn [List.map fst orb]. rewrite IH.
  now destruct (existsb (String.eqb k) (List.map fst o)).
Qed.

Lemma set_prop_Forall (Q : string * JsVal -> Prop) (k : string) (v : JsVal)
    (o : list (string * JsVal)) :
  Q (k, v) -> Forall Q o -> Forall Q (JSON.set_prop k v o).
Proof.
  intros Hkv. induction 1 as [|[k' v'] o Hp Ho IH].
  - repeat constructor. exact Hkv.
  - cbn [JSON.set_prop]. destruct (String.eqb k k'); constructor; assumption.
Qed.


Lemma fold_set_prop_members (ms acc : list (string * JsVal)) :
  Forall json_member ms ->
  NoDup (List.map fst acc) -> Forall json_member acc ->
  let o := fold_left (fun o m => JSON.set_prop (fst m) (snd m) o) ms acc in
  NoDup (List.map fst o) /\ Forall json_member o.
Proof.
  intros Hms. revert acc.
  induction Hms as [|[k v] ms Hm Hms IH]; intros acc Hnd Hacc; [now split|].
  cbn [fold_left fst snd]. apply IH.
  - rewrite set_prop_keys.
    destruct (existsb (String.eqb k) (List.map fst acc)) eqn:E; [exact Hnd|].
    apply NoDup_app. split; [exact Hnd|]. split; [|apply NoDup_singleton].
    intros x Hx Hxk. apply list_elem_of_singleton in Hxk. subst x.
    apply list_elem_of_In, existsb_eqb_In in Hx. congruence.
  - now apply set_prop_Forall.
Qed.

Lemma make_object_is_json (ms : list (string * JsVal)) (o : JsVal) :
  forallb (fun p => is_json (snd p)) ms = true ->
  JSON.make_object ms = JSON.Ok o -> is_json o = true.
Proof.
  unfold JSON.make_object. intros Hms.
  destruct (existsb _ ms) eqn:Hidx; [discriminate|].
  intros H. injection H as <-.
  destruct (fold_set_prop_members ms []) as [Hnd Hall].
  - apply List.Forall_forall. intros p Hin. split.
    + apply not_true_iff_false. intros Hp.
      assert (existsb (fun m => JSON.index_like (fst m)) ms = true);
        [|congruence].
      apply existsb_exists. now exists p.
    + rewrite forallb_forall in Hms. now apply Hms.
  - constructor.
  - constructor.
  - cbn [is_json]. apply andb_true_iff. split; [now apply distinct_NoDup|].
    apply forallb_forall. intros p Hin.
    rewrite List.Forall_forall in Hall. destruct (Hall p Hin) as [-> ->].
    reflexivity.
Qed.


Lemma parse_value_unfold (fuel : nat) (s : string) :
  JSON.parse_value (S fuel) s
  = match JSON.skip_ws s with
    | EmptyString => JSON.Malformed
    | String c r =>
        if Ascii.eqb c "[" then
          match JSON.skip_ws r with
          | EmptyString => JSON.Malformed
          | String c' r' =>
              if Ascii.eqb c' "]" then JSON.Ok (VArr [], r')
              else JSON.bindP (JSON.parse_elements fuel r)
                     (fun '(l, t) => JSON.Ok (VArr l, t))
          end
        else if Ascii.eqb c "{" then
          match JSON.skip_ws r with
          | EmptyString => JSON.Malformed
          | String c' r' =>
              if Ascii.eqb c' "}" then JSON.Ok (VObj [], r')
              else JSON.bindP (JSON.parse_members fuel r)
                     (fun '(ms, t) =>
                        JSON.bindP (JSON.make_object ms)
                          (fun o => JSON.Ok (o, t)))
          end
        else if Ascii.eqb c JSON.dquote then
          JSON.bindP (JSON.parse_chars r)
            (fun '(str, t) => JSON.Ok (VStr str, t))
        else if Ascii.eqb c "-" || JSON.is_digit c then
          JSON.parse_number (String c r)
        else JSON.parse_literal (String c r)
    end.
Proof. reflexivity. Qed.

Lemma parse_members_unfold (fuel : nat) (s : string) :
  JSON.parse_members (S fuel) s
  = match JSON.skip_ws s with
    | EmptyString => JSON.Malformed
    | String c r =>
        if Ascii.eqb c JSON.dquote then
          JSON.bindP (JSON.parse_chars r) (fun '(k, t) =>
            match JSON.skip_ws t with
            | EmptyString => JSON.Malformed
            | String c1 r1 =>
                if Ascii.eqb c1 ":" then
                  JSON.bindP (JSON.parse_value fuel r1) (fun '(v, t1) =>
                    match JSON.skip_ws t1 with
                    | EmptyString => JSON.Malformed
                    | String c2 r2 =>
                        if Ascii.eqb c2 "," then
                          JSON.bindP (JSON.parse_members fuel r2)
                            (fun '(ms, t2) => JSON.Ok ((k, v) :: ms, t2))
                        else if Ascii.eqb c2 "}" then JSON.Ok ([(k, v)], r2)
                        else JSON.Malformed
                    end)
                else JSON.Malformed
            end)
        else JSON.Malformed
    end.
Proof. reflexivity. Qed.

Ltac break_bind H :=
  match type of H with
  | JSON.bindP ?p _ = _ =>
      let E := fresh "E" in
      destruct p as [[? ?]| |] eqn:E; cbn [JSON.bindP] in H;
      try discriminate
  end.

Lemma parse_is_json_fuel (fuel : nat) : parses_json fuel.
Proof.
  induction fuel as [|fuel (IHv & IHe & IHm)];
    [repeat split; intros; discriminate|].
  repeat split.
  - intros s v t H. rewrite parse_value_unfold in H.
    destruct (JSON.skip_ws s) as [|c r]; [discriminate|].
    destruct (Ascii.eqb c "[").
    { destruct (JSON.skip_ws r) as [|c' r']; [discriminate|].
      destruct (Ascii.eqb c' "]"); [injection H as <- <-; reflexivity|].
      break_bind H. injection H as <- <-. cbn [is_json]. eauto. }
    destruct (Ascii.eqb c "{").
    { destruct (JSON.skip_ws r) as [|c' r']; [discriminate|].
      destruct (Ascii.eqb c' "}"); [injection H as <- <-; reflexivity|].
      break_bind H.
      destruct (JSON.make_object l) as [o| |] eqn:Eo;
        cbn [JSON.bindP] in H; try discriminate.
      injection H as <- <-. eapply make_object_is_json; eauto. }
    destruct (Ascii.eqb c JSON.dquote).
    { break_bind H. injection H as <- <-. reflexivity. }
    destruct (Ascii.eqb c "-" || JSON.is_digit c).
    + eapply parse_number_json; eauto.
    + eapply parse_literal_json; eauto.
  - intros s l t H. rewrite parse_elements_step in H.
    break_bind H.
    destruct (JSON.skip_ws s0) as [|c r]; [discriminate|].
    destruct (Ascii.eqb c ",").
    { break_bind H. injection H as <- <-. cbn [forallb].
      erewrite IHv by eauto. eauto. }
    destruct (Ascii.eqb c "]"); [|discriminate].
    injection H as <- <-. cbn [forallb]. erewrite IHv by eauto. reflexivity.
  - intros s ms t H. rewrite parse_members_unfold in H.
    destruct (JSON.skip_ws s) as [|c r]; [discriminate|].
    destruct (Ascii.eqb c JSON.dquote); [|discriminate].
    break_bind H.
    destruct (JSON.skip_ws s1) as [|c1 r1]; [discriminate|].
    destruct (Ascii.eqb c1 ":"); [|discriminate].
    break_bind H.
    destruct (JSON.skip_ws s2) as [|c2 r2]; [discriminate|].
    destruct (Ascii.eqb c2 ",").
    { break_bind H. injection H as <- <-. cbn [forallb snd].
      erewrite IHv by eauto. eauto. }
    destruct (Ascii.eqb c2 "}"); [|discriminate].
    injection H as <- <-. cbn [forallb snd]. erewrite IHv by eauto.
    reflexivity.
Qed.

(** [JSON.parse] returns JSON values only. *)
Lemma parse_is_json (s : string) (v : JsVal) :
  JSON.parse s = JSON.Ok v -> is_json v = true.
Proof.
  unfold JSON.parse. intros H. break_bind H.
  destruct (JSON.skip_ws s0); [|discriminate]. injection H as <-.
  eapply (proj1 (parse_is_json_fuel _)); eauto.
Qed.

(** ** The ledger: what each operation computes *)

Lemma getLogs_spec (host : Host) (w : World) :
  LoggerService.getLogs host w
  = if access_denied host
    then (Normal (VArr []), Ledger.load_failed SecurityError w)
    else match localStorage w !! LoggerService.STORAGE_KEY with
         | Some s =>
             if String.eqb s EmptyString then (Normal (VArr []), w)
             else match JSON.parse s with
                  | JSON.Ok v => (Normal v, w)
                  | JSON.Malformed =>
                      (Normal (VArr []), Ledger.load_failed SyntaxError w)
                  | JSON.Beyond => (Unmodelled, w)
                  end
         | None => (Normal (VArr []), w)
         end.
Proof.
  unfold LoggerService.getLogs, try_catch, bind, getItem, JSON_parse.
  destruct (access_denied host); [reflexivity|].
  destruct (localStorage w !! LoggerService.STORAGE_KEY) as [s|];
    [|reflexivity].
  destruct (String.eqb s EmptyString); [reflexivity|].
  destruct (JSON.parse s); reflexivity.
Qed.

(** [getLogs] never throws, and never touches the storage. *)
Lemma getLogs_completion (host : Host) (w : World) :
  (exists v w', LoggerService.getLogs host w = (Normal v, w') /\
                is_json v = true /\
                localStorage w' = localStorage w) \/
  (LoggerService.getLogs host w = (Unmodelled, w) /\
   Ledger.ledger_in_model w = false /\ access_denied host = false).
Proof.
  rewrite getLogs_spec. unfold Ledger.ledger_in_model.
  destruct (access_denied host); [left; eauto 6|].
  destruct (localStorage w !! LoggerService.STORAGE_KEY) as [s|];
    [|left; eauto 6].
  destruct (String.eqb s EmptyString); [left; eauto 6|].
  destruct (JSON.parse s) as [v| |] eqn:E; [| |right; auto].
  - left. exists v, w. repeat split. eapply parse_is_json; eauto.
  - left. eauto 6.
Qed.

Lemma log_spec (host : Host) (t : Tick) (c : LogCategory) (a : string)
    (md : option (list (string * JsVal))) (w : World) :
  LoggerService.log host t c a md w
  = let entry := LoggerService.newLog t c a md in
    match LoggerService.getLogs host w with
    | (Normal logs, w1) =>
        match iterate logs with
        | Some items =>
            let updated := Ledger.capped entry items in
            if access_denied host
            then (Normal tt, Ledger.save_failed SecurityError w1)
            else if JSON.has_bigint (VArr updated)
            then (Normal tt, Ledger.save_failed TypeError w1)
            else
              let text := Ledger.ledger_text (List.map stored updated) in
              if quota_exceeded host (localStorage w1)
                   LoggerService.STORAGE_KEY text
              then (Normal tt, Ledger.save_failed QuotaExceededError w1)
              else (Normal tt, Ledger.written text entry w1)
        | None => (Normal tt, Ledger.save_failed TypeError w1)
        end
    | (Throw e, w1) => (Normal tt, Ledger.save_failed e w1)
    | (Unmodelled, w1) => (Unmodelled, w1)
    end.
Proof.
  unfold LoggerService.log, try_catch at 1, bind at 1.
  cbv zeta.
  destruct (LoggerService.getLogs host w) as [[logs|e|] w1];
    [|reflexivity..].
  unfold bind, spread.
  destruct (iterate logs) as [items|]; [|reflexivity].
  unfold ret, JSON_stringify, JSON.stringify, throw, window_localStorage.
  fold (Ledger.capped (LoggerService.newLog t c a md) items).
  destruct (access_denied host) eqn:Hacc; [reflexivity|].
  destruct (JSON.has_bigint (VArr _)); [reflexivity|].
  rewrite jsonify_array. cbn [fmap option_fmap option_map].
  unfold setItem, dispatchEvent, emit. rewrite Hacc.
  unfold ret. cbv beta iota. unfold Ledger.ledger_text.
  destruct (quota_exceeded host _ _ _); [reflexivity|].
  unfold Ledger.written. cbn [localStorage trace].
  now rewrite <- app_assoc.
Qed.

Lemma ledger_text_nonempty (l : list JsVal) :
  String.eqb (Ledger.ledger_text l) EmptyString = false.
Proof.
  unfold Ledger.ledger_text. cbn [JSON.print]. now rewrite append_cons.
Qed.

(** Reading the ledger right after a write returns what was written. *)
Lemma getLogs_written (host : Host) (l : list JsVal) (d : JsVal) (w : World) :
  access_denied host = false ->
  forallb is_json l = true ->
  let w' := Ledger.written (Ledger.ledger_text l) d w in
  LoggerService.getLogs host w' = (Normal (VArr l), w').
Proof.
  intros Hacc Hjson w'. rewrite getLogs_spec, Hacc.
  unfold w', Ledger.written at 1. cbn [localStorage].
  rewrite lookup_insert_eq, ledger_text_nonempty.
  unfold Ledger.ledger_text. now rewrite parse_print.
Qed.

Lemma existsb_take {A} (p : A -> bool) (n : nat) (l : list A) :
  existsb p l = false -> existsb p (take n l) = false.
Proof.
  revert n. induction l as [|x l IH]; intros [|n] H; try reflexivity.
  cbn [existsb take] in *. apply orb_false_iff in H as [-> H]. now apply IH.
Qed.

Lemma forallb_take {A} (p : A -> bool) (n : nat) (l : list A) :
  forallb p l = true -> forallb p (take n l) = true.
Proof.
  revert n. induction l as [|x l IH]; intros [|n] H; try reflexivity.
  cbn [forallb take] in *. apply andb_true_iff in H as [-> H]. now apply IH.
Qed.

Lemma map_stored_json (l : list JsVal) :
  forallb is_json l = true -> List.map stored l = l.
Proof.
  induction l as [|x l IH]; [reflexivity|].
  cbn [forallb List.map]. intros H. apply andb_true_iff in H as [Hx Hl].
  now rewrite (stored_json _ Hx), IH.
Qed.

Lemma no_bigint_json (l : list JsVal) :
  forallb is_json l = true -> existsb JSON.has_bigint l = false.
Proof.
  induction l as [|x l IH]; [reflexivity|].
  cbn [forallb existsb]. intros H. apply andb_true_iff in H as [Hx Hl].
  destruct (is_json_well_formed _ Hx) as [_ ->]. now apply IH.
Qed.

Lemma map_take {A B} (f : A -> B) (n : nat) (l : list A) :
  List.map f (take n l) = take n (List.map f l).
Proof.
  revert n. induction l as [|x l IH]; intros [|n]; try reflexivity.
  cbn [take List.map]. now rewrite IH.
Qed.

Lemma map_drop {A B} (f : A -> B) (n : nat) (l : list A) :
  List.map f (drop n l) = drop n (List.map f l).
Proof.
  revert n. induction l as [|x l IH]; intros [|n]; try reflexivity.
  cbn [drop List.map]. now rewrite IH.
Qed.

Lemma call_ok_stored (c : Ledger.Call) :
  Ledger.call_ok c = true -> is_json (Ledger.persisted c) = true.
Proof.
  unfold Ledger.call_ok, Ledger.persisted. intros H. apply andb_true_iff in H as [Hwf Hbig].
  apply negb_true_iff in Hbig. now apply stored_is_json.
Qed.

(** A successful append: what is written and announced. *)
Lemma append_ok (host : Host) (c : Ledger.Call) (l : list JsVal)
    (w w1 : World) :
  Ledger.reliable host ->
  Ledger.call_ok c = true ->
  LoggerService.getLogs host w = (Normal (VArr l), w1) ->
  let kept := Ledger.capped (Ledger.persisted c) l in
  Ledger.append host c w
  = (Normal tt, Ledger.written (Ledger.ledger_text kept) (Ledger.entry c) w1)
  /\ forallb is_json kept = true.
Proof.
  intros [Hacc Hquota] Hok Hget kept.
  assert (forallb is_json l = true) as Hl.
  { destruct (getLogs_completion host w) as [(v & w' & Hv & Hj & _)|[Hv _]];
      rewrite Hget in Hv; [|discriminate].
    injection Hv as <- <-. exact Hj. }
  pose proof (call_ok_stored c Hok) as Hentry.
  unfold Ledger.call_ok in Hok. apply andb_true_iff in Hok as [_ Hbig].
  apply negb_true_iff in Hbig.
  assert (List.map stored (Ledger.capped (Ledger.entry c) l) = kept) as Hmap.
  { unfold kept, Ledger.capped, Ledger.persisted. rewrite map_take.
    cbn [List.map]. now rewrite (map_stored_json l Hl). }
  split.
  - unfold Ledger.append. rewrite log_spec. cbv zeta. rewrite Hget.
    cbn [iterate]. fold (Ledger.entry c).
    assert (JSON.has_bigint (VArr (Ledger.capped (Ledger.entry c) l)) = false)
      as ->.
    { cbn [JSON.has_bigint]. unfold Ledger.capped. apply existsb_take.
      cbn [existsb]. rewrite Hbig. now apply no_bigint_json. }
    now rewrite Hacc, Hquota, Hmap.
  - unfold kept, Ledger.capped. apply forallb_take. cbn [forallb].
    now rewrite Hentry.
Qed.

Lemma take_app_take {A} (n : nat) (a b : list A) :
  take n (a ++ take n b)%list = take n (a ++ b)%list.
Proof.
  rewrite !take_app, take_take. f_equal. f_equal. lia.
Qed.

(** Prepending under a cap, call after call, keeps the most recent
    elements, the latest first. *)
Lemma fold_capped {A} (f : A -> JsVal) (calls : list A) (l : list JsVal) :
  length l <= LoggerService.CAP ->
  fold_left (fun acc c => Ledger.capped (f c) acc) calls l
  = take LoggerService.CAP (rev (List.map f calls) ++ l)%list.
Proof.
  revert l. induction calls as [|c calls IH]; intros l Hlen.
  - cbn [fold_left List.map rev app]. now rewrite take_ge.
  - cbn [fold_left List.map rev]. rewrite IH.
    + unfold Ledger.capped. rewrite take_app_take, <- app_assoc. reflexivity.
    + unfold Ledger.capped. rewrite length_take. lia.
Qed.

(** A run of appends on a reliable host. *)
Lemma appends_ok (host : Host) (calls : list Ledger.Call) :
  Ledger.reliable host ->
  forallb Ledger.call_ok calls = true ->
  forall (l : list JsVal) (w w1 : World),
    LoggerService.getLogs host w = (Normal (VArr l), w1) ->
    exists w',
      Ledger.appends host calls w = (Normal tt, w') /\
      fst (LoggerService.getLogs host w')
      = Normal (VArr (fold_left
                        (fun acc c => Ledger.capped (Ledger.persisted c) acc)
                        calls l)).
Proof.
  intros Hhost. induction calls as [|c calls IH]; intros Hok l w w1 Hget.
  - exists w. split; [reflexivity|]. now rewrite Hget.
  - cbn [forallb] in Hok. apply andb_true_iff in Hok as [Hc Hcalls].
    destruct (append_ok host c l w w1 Hhost Hc Hget) as [Happ Hkept].
    cbn [Ledger.appends fold_left]. unfold bind. rewrite Happ.
    eapply IH; [exact Hcalls|].
    apply getLogs_written; [apply Hhost|exact Hkept].
Qed.

(** What [getLogs] returns depends on the stored text only. *)
Lemma getLogs_storage (host : Host) (w1 w2 : World) :
  localStorage w1 = localStorage w2 ->
  fst (LoggerService.getLogs host w1) = fst (LoggerService.getLogs host w2).
Proof.
  intros E. rewrite !getLogs_spec, E.
  destruct (access_denied host); [reflexivity|].
  destruct (localStorage w2 !! LoggerService.STORAGE_KEY) as [s|];
    [|reflexivity].
  destruct (String.eqb s EmptyString); [reflexivity|].
  destruct (JSON.parse s); reflexivity.
Qed.

Lemma ledger_size_storage (host : Host) (w1 w2 : World) :
  localStorage w1 = localStorage w2 ->
  Ledger.ledger_size host w1 = Ledger.ledger_size host w2.
Proof.
  intros E. unfold Ledger.ledger_size. now rewrite (getLogs_storage _ _ _ E).
Qed.

(** The three ways a call of [log] can go: it writes and notifies, or
    it catches an error and touches nothing but the console, or the
    stored text is beyond the model. *)
Lemma append_cases (host : Host) (c : Ledger.Call) (w : World) :
  (exists v items w1,
      LoggerService.getLogs host w = (Normal v, w1) /\
      iterate v = Some items /\
      is_json v = true /\
      localStorage w1 = localStorage w /\
      access_denied host = false /\
      JSON.has_bigint (VArr (Ledger.capped (Ledger.entry c) items)) = false /\
      Ledger.append host c w
      = (Normal tt,
         Ledger.written
           (Ledger.ledger_text
              (List.map stored (Ledger.capped (Ledger.entry c) items)))
           (Ledger.entry c) w1)) \/
  (exists e w1,
      fst (LoggerService.getLogs host w) <> Unmodelled /\
      w1 = snd (LoggerService.getLogs host w) /\
      localStorage w1 = localStorage w /\
      Ledger.append host c w = (Normal tt, Ledger.save_failed e w1)) \/
  (Ledger.ledger_in_model w = false /\
   Ledger.append host c w = (Unmodelled, w)).
Proof.
  unfold Ledger.append. rewrite log_spec. cbv zeta.
  fold (Ledger.entry c).
  destruct (getLogs_completion host w)
    as [(v & w1 & Hget & Hjson & Hst)|(Hget & Hmodel & _)];
    rewrite Hget; [|right; right; now split].
  assert (forall e,
            exists e' w1',
              fst (Normal v, w1) <> Unmodelled /\
              w1' = snd (Normal v, w1) /\
              localStorage w1' = localStorage w /\
              (Normal tt, Ledger.save_failed e w1)
              = (Normal tt, Ledger.save_failed e' w1')) as Hfail.
  { intros e. exists e, w1. repeat split; [discriminate|exact Hst]. }
  destruct (iterate v) as [items|] eqn:Hit; [|right; left; apply Hfail].
  destruct (access_denied host) eqn:Hacc; [right; left; apply Hfail|].
  destruct (JSON.has_bigint _) eqn:Hbig; [right; left; apply Hfail|].
  destruct (quota_exceeded host _ _ _); [right; left; apply Hfail|].
  left. exists v, items, w1. repeat split; assumption.
Qed.

(** In the first case, for a call within the model, what is written
    reads back. *)
Lemma written_kept (c : Ledger.Call) (v : JsVal) (items : list JsVal) :
  Ledger.call_ok c = true ->
  is_json v = true -> iterate v = Some items ->
  List.map stored (Ledger.capped (Ledger.entry c) items)
  = Ledger.capped (Ledger.persisted c) items /\
  forallb is_json (Ledger.capped (Ledger.persisted c) items) = true.
Proof.
  intros Hok Hjson Hit.
  assert (forallb is_json items = true) as Hitems.
  { destruct v; try discriminate; cbn [iterate is_json] in *;
      injection Hit as <-; [|exact Hjson].
    induction (list_ascii_of_string s) as [|ch l IH]; [reflexivity|exact IH]. }
  split.
  - unfold Ledger.capped, Ledger.persisted. rewrite map_take. cbn [List.map].
    now rewrite (map_stored_json _ Hitems).
  - unfold Ledger.capped. apply forallb_take. cbn [forallb].
    now rewrite (call_ok_stored c Hok).
Qed.

Lemma length_capped (x : JsVal) (l : list JsVal) :
  length (Ledger.capped x l) <= LoggerService.CAP.
Proof. unfold Ledger.capped. rewrite length_take. lia. Qed.

(** After any call of [log], the ledger holds at most 500 entries if it
    did before. *)
Lemma append_keeps_cap (host : Host) (c : Ledger.Call) (w : World) :
  Ledger.call_ok c = true ->
  Ledger.ledger_size host w <= LoggerService.CAP ->
  Ledger.ledger_size host (snd (Ledger.append host c w)) <= LoggerService.CAP.
Proof.
  intros Hok Hsize.
  destruct (append_cases host c w)
    as [(v & items & w1 & Hget & Hit & Hjson & Hst & Hacc & Hbig & Happ)
       |[(e & w1 & _ & _ & Hst & Happ)|[_ Happ]]];
    rewrite Happ; cbn [snd].
  - destruct (written_kept c v items Hok Hjson Hit) as [-> Hkept].
    unfold Ledger.ledger_size.
    rewrite getLogs_written by assumption. cbn [fst].
    apply length_capped.
  - rewrite (ledger_size_storage host _ w); [exact Hsize|exact Hst].
  - exact Hsize.
Qed.

Lemma clearLogs_spec (host : Host) (t : Tick) (w : World) :
  LoggerService.clearLogs host t w
  = match Ledger.append host (Ledger.purge_call t) w with
    | (Normal _, w1) =>
        if access_denied host then (Throw SecurityError, w1)
        else (Normal tt, Ledger.removed w1)
    | (Throw e, w1) => (Throw e, w1)
    | (Unmodelled, w1) => (Unmodelled, w1)
    end.
Proof.
  unfold LoggerService.clearLogs, bind, Ledger.append, Ledger.purge_call.
  cbn [Ledger.call_tick Ledger.call_category Ledger.call_action
       Ledger.call_metadata].
  destruct (LoggerService.log host t SECURITY _ None w) as [[[]|e|] w1];
    reflexivity.
Qed.

Lemma getLogs_denied (host : Host) (w : World) :
  access_denied host = true ->
  fst (LoggerService.getLogs host w) = Normal (VArr []).
Proof. intros H. now rewrite getLogs_spec, H. Qed.

Lemma getLogs_removed (host : Host) (w : World) :
  fst (LoggerService.getLogs host (Ledger.removed w)) = Normal (VArr []).
Proof.
  rewrite getLogs_spec. destruct (access_denied host); [reflexivity|].
  unfold Ledger.removed. cbn [localStorage]. now rewrite lookup_delete_eq.
Qed.

(** [log] returns normally unless the stored text is beyond the
    model. *)
Lemma append_returns (host : Host) (c : Ledger.Call) (w : World) :
  (exists w', Ledger.append host c w = (Normal tt, w')) \/
  (Ledger.ledger_in_model w = false /\
   Ledger.append host c w = (Unmodelled, w)).
Proof.
  destruct (append_cases host c w)
    as [(v & items & w1 & _ & _ & _ & _ & _ & _ & Happ)
       |[(e & w1 & _ & _ & _ & Happ)|H]]; eauto.
Qed.

Lemma clearLogs_cases (host : Host) (t : Tick) (w : World) :
  (exists w1,
      Ledger.append host (Ledger.purge_call t) w = (Normal tt, w1) /\
      LoggerService.clearLogs host t w
      = if access_denied host then (Throw SecurityError, w1)
        else (Normal tt, Ledger.removed w1)) \/
  (Ledger.ledger_in_model w = false /\
   LoggerService.clearLogs host t w = (Unmodelled, w)).
Proof.
  rewrite clearLogs_spec.
  destruct (append_returns host (Ledger.purge_call t) w)
    as [(w1 & ->)|[Hm ->]]; eauto.
Qed.

Lemma getLogs_after_clearLogs (host : Host) (t : Tick) (w : World) :
  Ledger.ledger_in_model w = true ->
  fst (LoggerService.getLogs host (snd (LoggerService.clearLogs host t w)))
  = Normal (VArr []).
Proof.
  intros Hm.
  destruct (clearLogs_cases host t w) as [(w1 & _ & ->)|[Hm' _]];
    [|congruence].
  destruct (access_denied host) eqn:Hacc; cbn [snd].
  - now apply getLogs_denied.
  - apply getLogs_removed.
Qed.

Lemma clearLogs_size (host : Host) (t : Tick) (w : World) :
  Ledger.ledger_size host w <= LoggerService.CAP ->
  Ledger.ledger_size host (snd (LoggerService.clearLogs host t w))
  <= LoggerService.CAP.
Proof.
  intros Hsize.
  destruct (clearLogs_cases host t w) as [(w1 & _ & ->)|[_ ->]];
    [|exact Hsize].
  unfold Ledger.ledger_size.
  destruct (access_denied host) eqn:Hacc; cbn [snd].
  - rewrite getLogs_denied by assumption. cbn. lia.
  - rewrite getLogs_removed. cbn. lia.
Qed.

Lemma getLogs_size (host : Host) (w : World) :
  Ledger.ledger_size host (snd (LoggerService.getLogs host w))
  = Ledger.ledger_size host w.
Proof.
  apply ledger_size_storage.
  destruct (getLogs_completion host w) as [(v & w' & -> & _ & E)|[-> _]];
    [exact E|reflexivity].
Qed.

Lemma take_rev {A} (n : nat) (l : list A) :
  take n (rev l) = rev (drop (length l - n) l).
Proof.
  rewrite !rev_alt.
  change (take n (reverse l) = reverse (drop (length l - n) l)).
  apply take_reverse.
Qed.

(** *** Calls whose write takes place, and the others *)

Lemma capped_cons (x : JsVal) (l : list JsVal) :
  Ledger.capped x l = x :: take 499 l.
Proof. reflexivity. Qed.

Lemma iterate_json (v : JsVal) (items : list JsVal) :
  is_json v = true -> iterate v = Some items ->
  forallb is_json items = true.
Proof.
  intros Hjson Hit.
  destruct v; try discriminate; cbn [iterate is_json] in *;
    injection Hit as <-; [|exact Hjson].
  induction (list_ascii_of_string s) as [|ch l IH]; [reflexivity|exact IH].
Qed.

Lemma held_spec (host : Host) (w : World) (items : list JsVal) :
  Ledger.held host w = Some items ->
  exists v w1,
    LoggerService.getLogs host w = (Normal v, w1) /\
    iterate v = Some items /\
    localStorage w1 = localStorage w /\
    forallb is_json items = true.
Proof.
  unfold Ledger.held. intros H.
  destruct (getLogs_completion host w)
    as [(v & w1 & Hget & Hjson & Hst)|(Hget & _)];
    rewrite Hget in H; cbn [fst] in H; [|discriminate].
  exists v, w1. repeat split; try assumption.
  exact (iterate_json v items Hjson H).
Qed.

Lemma map_stored_capped (x : JsVal) (items : list JsVal) :
  forallb is_json items = true ->
  List.map stored (Ledger.capped x items) = Ledger.capped (stored x) items.
Proof.
  intros H. unfold Ledger.capped. rewrite map_take. cbn [List.map].
  now rewrite (map_stored_json items H).
Qed.

Lemma has_bigint_capped (x : JsVal) (items : list JsVal) :
  forallb is_json items = true ->
  JSON.has_bigint (VArr (Ledger.capped x items)) = JSON.has_bigint x.
Proof.
  intros H. rewrite capped_cons. cbn [JSON.has_bigint existsb].
  rewrite (existsb_take _ 499 items (no_bigint_json items H)).
  apply orb_false_r.
Qed.

Lemma getLogs_in_model (host : Host) (w : World) :
  Ledger.ledger_in_model w = true ->
  fst (LoggerService.getLogs host w) <> Unmodelled.
Proof.
  intros Hm. destruct (getLogs_completion host w)
    as [(v & w1 & -> & _)|(_ & Hm' & _)]; [discriminate|congruence].
Qed.

(** A call whose write takes place: what [log] does. *)
Lemma append_accepted (host : Host) (c : Ledger.Call) (w : World) :
  Ledger.call_in_model c = true ->
  Ledger.accepted host c w = true ->
  exists items,
    Ledger.held host w = Some items /\
    forallb is_json (Ledger.capped (Ledger.persisted c) items) = true /\
    Ledger.append host c w
    = (Normal tt,
       Ledger.written
         (Ledger.ledger_text (Ledger.capped (Ledger.persisted c) items))
         (Ledger.entry c) (snd (LoggerService.getLogs host w))) /\
    localStorage (snd (LoggerService.getLogs host w)) = localStorage w /\
    access_denied host = false.
Proof.
  unfold Ledger.call_in_model, Ledger.accepted. intros Hwf Hacc.
  apply andb_true_iff in Hacc as [Hden Hacc]. apply negb_true_iff in Hden.
  destruct (Ledger.held host w) as [items|] eqn:Hheld; [|discriminate].
  apply andb_true_iff in Hacc as [Hbig Hquota].
  apply negb_true_iff in Hbig, Hquota.
  destruct (held_spec host w items Hheld) as (v & w1 & Hget & Hit & Hst & Hj).
  exists items. split; [reflexivity|].
  assert (is_json (Ledger.persisted c) = true) as Hentry
    by (now apply stored_is_json).
  assert (forallb is_json (Ledger.capped (Ledger.persisted c) items) = true)
    as Hkept.
  { rewrite capped_cons. cbn [forallb]. rewrite Hentry.
    now apply forallb_take. }
  split; [exact Hkept|]. rewrite Hget. cbn [snd].
  split; [|split; [exact Hst|exact Hden]].
  unfold Ledger.append. rewrite log_spec. cbv zeta. rewrite Hget, Hit, Hden.
  fold (Ledger.entry c). rewrite (has_bigint_capped _ items Hj), Hbig.
  rewrite (map_stored_capped _ items Hj). fold (Ledger.persisted c).
  now rewrite Hst, Hquota.
Qed.

(** A call whose write does not take place: [log] reports one error
    and leaves the storage as it is. *)
Lemma append_refused (host : Host) (c : Ledger.Call) (w : World) :
  fst (LoggerService.getLogs host w) <> Unmodelled ->
  Ledger.accepted host c w = false ->
  exists e,
    Ledger.append host c w
    = (Normal tt,
       Ledger.save_failed e (snd (LoggerService.getLogs host w))) /\
    localStorage (snd (LoggerService.getLogs host w)) = localStorage w.
Proof.
  unfold Ledger.accepted, Ledger.held. intros Hm Hacc.
  unfold Ledger.append. rewrite log_spec. cbv zeta.
  destruct (getLogs_completion host w)
    as [(v & w1 & Hget & Hjson & Hst)|(Hget & _)];
    rewrite Hget in *; cbn [fst snd] in *; [|contradiction].
  destruct (iterate v) as [items|] eqn:Hit; [|eauto].
  destruct (access_denied host); [eauto|].
  pose proof (iterate_json v items Hjson Hit) as Hj.
  fold (Ledger.entry c). rewrite (has_bigint_capped _ items Hj).
  destruct (JSON.has_bigint (Ledger.entry c)); [eauto|].
  rewrite (map_stored_capped _ items Hj). fold (Ledger.persisted c).
  cbn [negb andb] in Hacc. apply negb_false_iff in Hacc.
  rewrite Hst, Hacc. eauto.
Qed.

(** What [getLogs] returns after the call, in the two cases. *)
Lemma getLogs_after_accepted (host : Host) (c : Ledger.Call) (w : World) :
  Ledger.call_in_model c = true ->
  Ledger.accepted host c w = true ->
  exists items,
    Ledger.held host w = Some items /\
    fst (LoggerService.getLogs host (snd (Ledger.append host c w)))
    = Normal (VArr (Ledger.persisted c :: take 499 items)).
Proof.
  intros Hwf Hacc.
  destruct (append_accepted host c w Hwf Hacc)
    as (items & Hheld & Hkept & -> & _ & Hden).
  exists items. split; [exact Hheld|]. cbn [snd].
  now rewrite (getLogs_written host _ _ _ Hden Hkept).
Qed.

Lemma getLogs_after_refused (host : Host) (c : Ledger.Call) (w : World) :
  fst (LoggerService.getLogs host w) <> Unmodelled ->
  Ledger.accepted host c w = false ->
  localStorage (snd (Ledger.append host c w)) = localStorage w /\
  fst (LoggerService.getLogs host (snd (Ledger.append host c w)))
  = fst (LoggerService.getLogs host w).
Proof.
  intros Hm Hacc.
  destruct (append_refused host c w Hm Hacc) as (e & -> & Hst).
  cbn [snd]. split; [exact Hst|].
  apply getLogs_storage. exact Hst.
Qed.

(** On a host whose storage accepts the writes, the write of a call
    with an entry [JSON.stringify] accepts takes place whenever the
    store holds a sequence. *)
Lemma accepted_reliable (host : Host) (c : Ledger.Call) (w : World)
    (l : list JsVal) :
  Ledger.reliable host ->
  JSON.has_bigint (Ledger.entry c) = false ->
  fst (LoggerService.getLogs host w) = Normal (VArr l) ->
  Ledger.accepted host c w = true /\ Ledger.held host w = Some l.
Proof.
  intros [Hden Hquota] Hbig Hget.
  unfold Ledger.accepted, Ledger.held. rewrite Hget. cbn [iterate].
  now rewrite Hden, Hbig, Hquota.
Qed.

(** A run of calls: the ledger holds the entries of the calls whose
    write took place, the latest first, cut at the cap. *)
Lemma appends_recorded (host : Host) (calls : list Ledger.Call) :
  forallb Ledger.call_in_model calls = true ->
  forall (l : list JsVal) (w : World),
    fst (LoggerService.getLogs host w) = Normal (VArr l) ->
    length l <= LoggerService.CAP ->
    exists w',
      Ledger.appends host calls w = (Normal tt, w') /\
      fst (LoggerService.getLogs host w')
      = Normal (VArr (take LoggerService.CAP
                        (rev (List.map Ledger.persisted
                                (Ledger.recorded host calls w)) ++ l)%list)).
Proof.
  induction calls as [|c calls IH]; intros Hok l w Hget Hlen.
  - exists w. split; [reflexivity|]. cbn. now rewrite take_ge.
  - cbn [forallb] in Hok. apply andb_true_iff in Hok as [Hc Hok].
    cbn [Ledger.appends Ledger.recorded]. unfold bind.
    assert (fst (LoggerService.getLogs host w) <> Unmodelled) as Hm
      by (rewrite Hget; discriminate).
    destruct (Ledger.accepted host c w) eqn:Hacc.
    + destruct (getLogs_after_accepted host c w Hc Hacc)
        as (items & Hheld & Hafter).
      assert (items = l) as ->.
      { unfold Ledger.held in Hheld. rewrite Hget in Hheld.
        cbn [iterate] in Hheld. congruence. }
      destruct (append_accepted host c w Hc Hacc)
        as (items & Hheld' & _ & Happ & _).
      assert (items = l) as -> by congruence.
      rewrite Happ in *. cbn [snd] in *.
      destruct (IH Hok _ _ Hafter) as (w' & Hrun & Hread).
      { rewrite <- capped_cons. apply length_capped. }
      exists w'. split; [exact Hrun|]. rewrite Hread. f_equal. f_equal.
      rewrite <- capped_cons. unfold Ledger.capped.
      rewrite take_app_take. cbn [List.map rev].
      now rewrite <- app_assoc.
    + destruct (getLogs_after_refused host c w Hm Hacc) as [_ Hsame].
      destruct (append_refused host c w Hm Hacc) as (e & Happ & _).
      rewrite Happ in *. cbn [snd] in *. rewrite Hget in Hsame.
      exact (IH Hok l _ Hsame Hlen).
Qed.

Lemma recorded_all (host : Host) (calls : list Ledger.Call) :
  Ledger.reliable host ->
  forallb Ledger.call_ok calls = true ->
  forall (l : list JsVal) (w : World),
    fst (LoggerService.getLogs host w) = Normal (VArr l) ->
    Ledger.recorded host calls w = calls.
Proof.
  intros Hhost. induction calls as [|c calls IH]; intros Hok l w Hget;
    [reflexivity|].
  cbn [forallb] in Hok. apply andb_true_iff in Hok as [Hc Hok].
  pose proof Hc as Hc'. unfold Ledger.call_ok in Hc'.
  apply andb_true_iff in Hc' as [Hwf Hbig]. apply negb_true_iff in Hbig.
  destruct (accepted_reliable host c w l Hhost Hbig Hget) as [Hacc Hheld].
  cbn [Ledger.recorded]. rewrite Hacc. f_equal.
  destruct (getLogs_after_accepted host c w Hwf Hacc) as (items & _ & Hafter).
  exact (IH Hok _ _ Hafter).
Qed.

Lemma call_ok_in_model (calls : list Ledger.Call) :
  forallb Ledger.call_ok calls = true ->
  forallb Ledger.call_in_model calls = true.
Proof.
  induction calls as [|c calls IH]; [reflexivity|].
  cbn [forallb]. intros H. apply andb_true_iff in H as [Hc H].
  rewrite (IH H), andb_true_r. unfold Ledger.call_ok in Hc.
  now apply andb_true_iff in Hc as [Hc _].
Qed.

(** The bound of the ledger is kept by every call within the model. *)
Lemma append_keeps_cap_in_model (host : Host) (c : Ledger.Call) (w : World) :
  Ledger.call_in_model c = true ->
  Ledger.ledger_size host w <= LoggerService.CAP ->
  Ledger.ledger_size host (snd (Ledger.append host c w)) <= LoggerService.CAP.
Proof.
  intros Hc Hsize.
  destruct (JSON.has_bigint (Ledger.entry c)) eqn:Hbig.
  - assert (Ledger.accepted host c w = false) as Hacc.
    { unfold Ledger.accepted. rewrite Hbig.
      destruct (negb (access_denied host)), (Ledger.held host w);
        reflexivity. }
    destruct (getLogs_completion host w)
      as [(v & w1 & Hget & _)|(Hget & Hm & _)].
    + assert (fst (LoggerService.getLogs host w) <> Unmodelled) as Hm
        by (rewrite Hget; discriminate).
      destruct (getLogs_after_refused host c w Hm Hacc) as [Hst _].
      now rewrite (ledger_size_storage host _ w Hst).
    + destruct (append_returns host c w) as [(w' & Happ)|(_ & ->)];
        [|exact Hsize].
      exfalso. unfold Ledger.append in Happ. rewrite log_spec in Happ.
      cbv zeta in Happ. rewrite Hget in Happ. discriminate.
  - apply append_keeps_cap; [|exact Hsize].
    unfold Ledger.call_ok. unfold Ledger.call_in_model in Hc.
    now rewrite Hc, Hbig.
Qed.

(** The world after [log] ran on a host that denies the storage: two
    messages on the console, nothing else. *)
Lemma append_denied (host : Host) (c : Ledger.Call) (w : World) :
  access_denied host = true ->
  Ledger.append host c w
  = (Normal tt,
     Ledger.save_failed SecurityError (Ledger.load_failed SecurityError w)).
Proof.
  intros Hden. unfold Ledger.append. rewrite log_spec. cbv zeta.
  rewrite getLogs_spec, Hden. cbn [iterate]. reflexivity.
Qed.

Lemma clearLogs_denied (host : Host) (t : Tick) (w : World) :
  access_denied host = true ->
  LoggerService.clearLogs host t w
  = (Throw SecurityError,
     Ledger.save_failed SecurityError (Ledger.load_failed SecurityError w)).
Proof.
  intros Hden. rewrite clearLogs_spec.
  now rewrite (append_denied host (Ledger.purge_call t) w Hden), Hden.
Qed.

(** [clearLogs] where the storage may be used: the purge call, then
    the removal. *)
Lemma clearLogs_accessible (host : Host) (t : Tick) (w : World) :
  access_denied host = false ->
  fst (LoggerService.getLogs host w) <> Unmodelled ->
  LoggerService.clearLogs host t w
  = (Normal tt,
     Ledger.removed (snd (Ledger.append host (Ledger.purge_call t) w))).
Proof.
  intros Hden Hm. rewrite clearLogs_spec, Hden.
  destruct (Ledger.accepted host (Ledger.purge_call t) w) eqn:Hacc.
  - destruct (append_cases host (Ledger.purge_call t) w)
      as [(v & items & w1 & _ & _ & _ & _ & _ & _ & ->)
         |[(e & w1 & _ & _ & _ & ->)|(_ & Happ)]]; try reflexivity.
    exfalso. apply Hm. unfold Ledger.append in Happ.
    rewrite log_spec in Happ. cbv zeta in Happ.
    destruct (LoggerService.getLogs host w) as [[v|e|] w1];
      [|discriminate Happ|reflexivity].
    destruct (iterate v); [|discriminate Happ].
    rewrite Hden in Happ.
    destruct (JSON.has_bigint _); [discriminate Happ|].
    destruct (quota_exceeded host _ _ _); discriminate Happ.
  - destruct (append_refused host (Ledger.purge_call t) w Hm Hacc)
      as (e & -> & _). reflexivity.
Qed.

Lemma length_recorded (host : Host) (calls : list Ledger.Call) (w : World) :
  length (Ledger.recorded host calls w) <= length calls.
Proof.
  revert w. induction calls as [|c calls IH]; intros w; [reflexivity|].
  cbn [Ledger.recorded length].
  destruct (Ledger.accepted host c w); cbn [length];
    specialize (IH (snd (Ledger.append host c w))); lia.
Qed.

(** ** The ledger: the properties of the specification *)

(** Read back as an [AuditLog], a persisted entry has the id, the
    timestamp, the category and the action of its call; the metadata
    is what [JSON.stringify] kept of it. *)
Lemma persisted_entry (c : Ledger.Call) :
  entry_of_value (Ledger.persisted c) = Some (Ledger.reloaded_entry c).
Proof.
  destruct c as [t cat a [ps|]]; destruct cat; reflexivity.
Qed.

Lemma persisted_entries (calls : list Ledger.Call) :
  List.map entry_of_value (rev (List.map Ledger.persisted calls))
  = rev (List.map (fun c => Some (Ledger.reloaded_entry c)) calls).
Proof.
  rewrite <- List.map_rev, List.map_map, List.map_rev.
  f_equal. apply List.map_ext. intros c. apply persisted_entry.
Qed.

Lemma host_ok_reliable : Ledger.reliable Sample.host_ok.
Proof. split; [reflexivity|intros; reflexivity]. Defined.

(** The claim C1 as it is stated fails where the writes do not take
    place: on a host whose storage is full, three calls from an empty
    store leave no entry; and on a host that accepts every write, one
    call whose metadata holds a BigInt leaves none either. *)
Lemma appends_on_full_storage_leave_nothing :
  length Sample.three_calls = 3 /\
  fst (LoggerService.getLogs Sample.host_full
         (snd (Ledger.appends Sample.host_full Sample.three_calls
                 Sample.fresh)))
  = Normal (VArr []) /\
  fst (LoggerService.getLogs Sample.host_ok
         (snd (Ledger.append Sample.host_ok Sample.wei_call Sample.fresh)))
  = Normal (VArr []).
Proof. repeat split; reflexivity. Qed.

(** C1 (amended). After a run of at most 500 calls from an empty
    store, [getLogs] returns the entries of exactly those calls whose
    write took place, the latest first, each with the id, timestamp,
    category and action of its call: all of them on a host whose
    storage accepts the writes, when [JSON.stringify] accepts every
    entry.  After one call, on any host and over any stored text: if
    the write took place the new entry is at index 0, followed by the
    first 499 of the elements held before; if not, the storage is as
    it was and [getLogs] returns what it returned before. *)
Theorem appended_entries_latest_first (host : Host) :
  (forall (calls : list Ledger.Call) (w : World),
      localStorage w !! LoggerService.STORAGE_KEY = None ->
      forallb Ledger.call_in_model calls = true ->
      length calls <= 500 ->
      exists w' entries,
        Ledger.appends host calls w = (Normal tt, w') /\
        fst (LoggerService.getLogs host w') = Normal (VArr entries) /\
        entries
        = rev (List.map Ledger.persisted (Ledger.recorded host calls w)) /\
        List.map entry_of_value entries
        = rev (List.map (fun c => Some (Ledger.reloaded_entry c))
                 (Ledger.recorded host calls w)) /\
        (Ledger.reliable host ->
         forallb Ledger.call_ok calls = true ->
         Ledger.recorded host calls w = calls /\
         length entries = length calls)) /\
  (forall (c : Ledger.Call) (w : World),
      Ledger.call_in_model c = true ->
      Ledger.ledger_in_model w = true ->
      exists w',
        Ledger.append host c w = (Normal tt, w') /\
        if Ledger.accepted host c w
        then exists items,
               Ledger.held host w = Some items /\
               fst (LoggerService.getLogs host w')
               = Normal (VArr (Ledger.persisted c :: take 499 items))
        else localStorage w' = localStorage w /\
             fst (LoggerService.getLogs host w')
             = fst (LoggerService.getLogs host w)) /\
  (forall (c : Ledger.Call) (l : list JsVal) (w : World),
      Ledger.reliable host ->
      JSON.has_bigint (Ledger.entry c) = false ->
      fst (LoggerService.getLogs host w) = Normal (VArr l) ->
      Ledger.accepted host c w = true /\ Ledger.held host w = Some l).
Proof.
  split; [|split].
  - intros calls w Hempty Hok Hlen.
    assert (fst (LoggerService.getLogs host w) = Normal (VArr [])) as Hget.
    { rewrite getLogs_spec, Hempty. now destruct (access_denied host). }
    destruct (appends_recorded host calls Hok [] w Hget) as (w' & Hrun & Hread);
      [cbn; lia|].
    pose proof (length_recorded host calls w) as Hrec.
    rewrite app_nil_r, take_ge in Hread
      by (rewrite length_rev, length_map; unfold LoggerService.CAP; lia).
    exists w', (rev (List.map Ledger.persisted
                       (Ledger.recorded host calls w))).
    split; [exact Hrun|]. split; [exact Hread|]. split; [reflexivity|].
    split; [apply persisted_entries|].
    intros Hhost Hall.
    rewrite (recorded_all host calls Hhost Hall [] w Hget).
    split; [reflexivity|]. now rewrite length_rev, length_map.
  - intros c w Hc Hm.
    pose proof (getLogs_in_model host w Hm) as Hm'.
    destruct (Ledger.accepted host c w) eqn:Hacc.
    + destruct (append_accepted host c w Hc Hacc)
        as (items & _ & _ & Happ & _).
      eexists. split; [exact Happ|].
      destruct (getLogs_after_accepted host c w Hc Hacc)
        as (items' & Hheld & Hafter).
      exists items'. split; [exact Hheld|]. now rewrite Happ in Hafter.
    + destruct (append_refused host c w Hm' Hacc) as (e & Happ & _).
      eexists. split; [exact Happ|].
      destruct (getLogs_after_refused host c w Hm' Hacc) as [Hst Hsame].
      rewrite Happ in Hst, Hsame. now split.
  - intros c l w Hhost Hbig Hget. now apply accepted_reliable.
Qed.

Lemma appended_entries_latest_first_witness :
  (exists w' entries,
      Ledger.appends Sample.host_ok Sample.three_calls Sample.fresh
      = (Normal tt, w') /\
      fst (LoggerService.getLogs Sample.host_ok w') = Normal (VArr entries) /\
      entries = rev (List.map Ledger.persisted Sample.three_calls) /\
      length entries = 3) /\
  (exists w' items,
      Ledger.append Sample.host_ok Sample.fourth_call Sample.stocked
      = (Normal tt, w') /\
      Ledger.held Sample.host_ok Sample.stocked = Some items /\
      length items = 3 /\
      fst (LoggerService.getLogs Sample.host_ok w')
      = Normal (VArr (Ledger.persisted Sample.fourth_call :: take 499 items)))
  /\
  (exists w',
      Ledger.append Sample.host_ok Sample.wei_call Sample.stocked
      = (Normal tt, w') /\
      localStorage w' = localStorage Sample.stocked /\
      fst (LoggerService.getLogs Sample.host_ok w')
      = fst (LoggerService.getLogs Sample.host_ok Sample.stocked)).
Proof.
  destruct (appended_entries_latest_first Sample.host_ok)
    as (Hrun & Hone & _).
  split; [|split].
  - destruct (Hrun Sample.three_calls Sample.fresh eq_refl eq_refl)
      as (w' & entries & H1 & H2 & H3 & _ & H5); [cbn; lia|].
    destruct (H5 host_ok_reliable eq_refl) as [Hall Hlen].
    exists w', entries. rewrite Hall in H3.
    split; [exact H1|]. split; [exact H2|]. split; [exact H3|exact Hlen].
  - destruct (Hone Sample.fourth_call Sample.stocked eq_refl eq_refl)
      as (w' & Happ & Hkind).
    change (Ledger.accepted Sample.host_ok Sample.fourth_call Sample.stocked)
      with true in Hkind.
    destruct Hkind as (items & Hheld & Hread).
    exists w', items. split; [exact Happ|]. split; [exact Hheld|].
    split; [|exact Hread].
    vm_compute in Hheld. injection Hheld as <-. reflexivity.
  - destruct (Hone Sample.wei_call Sample.stocked eq_refl eq_refl)
      as (w' & Happ & Hkind).
    change (Ledger.accepted Sample.host_ok Sample.wei_call Sample.stocked)
      with false in Hkind.
    exists w'. split; [exact Happ|exact Hkind].
Defined.

(** The claim C2 as it is stated fails in the same way: on a host whose
    storage is full, 501 calls from an empty store leave no entry, not
    the 500 latest. *)
Lemma full_storage_keeps_none_of_501 :
  length Sample.many_calls = 501 /\
  fst (LoggerService.getLogs Sample.host_full
         (snd (Ledger.appends Sample.host_full Sample.many_calls
                 Sample.fresh)))
  = Normal (VArr []).
Proof. split; vm_compute; reflexivity. Qed.

(** C2 (amended). The ledger never holds more than 500 entries: under
    any host, [log] (for every call within the model, also one whose
    write fails), [clearLogs] and [getLogs] keep the bound.  After a
    run of calls over a store that holds a sequence within the bound,
    [getLogs] returns the entries of the calls whose write took place,
    the latest first, followed by the elements held before, cut at
    500: so, once 500 writes or more took place, exactly the entries
    of the last 500 of them.  On a host whose storage accepts the
    writes, when [JSON.stringify] accepts every entry, the write of
    every call takes place. *)
Theorem ledger_keeps_latest_500 (host : Host) :
  (forall (calls : list Ledger.Call) (l : list JsVal) (w : World),
     fst (LoggerService.getLogs host w) = Normal (VArr l) ->
     length l <= 500 ->
     forallb Ledger.call_in_model calls = true ->
     exists w' kept,
       Ledger.appends host calls w = (Normal tt, w') /\
       fst (LoggerService.getLogs host w') = Normal (VArr kept) /\
       kept = take 500 (rev (List.map Ledger.persisted
                               (Ledger.recorded host calls w)) ++ l)%list /\
       length kept <= 500 /\
       (500 <= length (Ledger.recorded host calls w) ->
        kept = rev (List.map Ledger.persisted
                      (drop (length (Ledger.recorded host calls w) - 500)
                         (Ledger.recorded host calls w))) /\
        length kept = 500) /\
       (Ledger.reliable host ->
        forallb Ledger.call_ok calls = true ->
        Ledger.recorded host calls w = calls)) /\
  (forall w : World,
     Ledger.ledger_size host w <= 500 ->
     (forall c, Ledger.call_in_model c = true ->
                Ledger.ledger_size host (snd (Ledger.append host c w)) <= 500) /\
     (forall t,
        Ledger.ledger_size host (snd (LoggerService.clearLogs host t w))
        <= 500) /\
     Ledger.ledger_size host (snd (LoggerService.getLogs host w)) <= 500).
Proof.
  split.
  - intros calls l w Hget Hlen Hok.
    destruct (appends_recorded host calls Hok l w Hget Hlen)
      as (w' & Hrun & Hread).
    set (written := Ledger.recorded host calls w) in *.
    exists w', (take 500 (rev (List.map Ledger.persisted written) ++ l)%list).
    split; [exact Hrun|]. split; [exact Hread|].
    split; [reflexivity|]. split; [|split].
    + rewrite length_take. lia.
    + intros Hmany.
      assert (take 500 (rev (List.map Ledger.persisted written) ++ l)%list
              = rev (List.map Ledger.persisted
                       (drop (length written - 500) written))) as ->.
      { rewrite take_app_le by (rewrite length_rev, length_map; lia).
        now rewrite take_rev, length_map, <- map_drop. }
      split; [reflexivity|].
      rewrite length_rev, length_map, length_drop. lia.
    + intros Hhost Hall. exact (recorded_all host calls Hhost Hall l w Hget).
  - intros w Hsize. split; [|split].
    + intros c Hc. now apply append_keeps_cap_in_model.
    + intros t. now apply clearLogs_size.
    + now rewrite getLogs_size.
Qed.

Lemma ledger_keeps_latest_500_witness :
  (exists w' kept,
      Ledger.appends Sample.host_ok Sample.many_calls Sample.stocked
      = (Normal tt, w') /\
      fst (LoggerService.getLogs Sample.host_ok w') = Normal (VArr kept) /\
      kept = rev (List.map Ledger.persisted (drop 1 Sample.many_calls)) /\
      length kept = 500) /\
  Ledger.ledger_size Sample.host_ok
    (snd (Ledger.append Sample.host_ok Sample.wei_call Sample.stocked))
  <= 500 /\
  Ledger.ledger_size Sample.host_full
    (snd (LoggerService.clearLogs Sample.host_full
            (Ledger.call_tick Sample.fourth_call) Sample.stocked)) <= 500.
Proof.
  destruct (ledger_keeps_latest_500 Sample.host_ok) as [Hrun Hinv].
  destruct (ledger_keeps_latest_500 Sample.host_full) as [_ Hinv'].
  split.
  - destruct (Hrun Sample.many_calls
                (rev (List.map Ledger.persisted Sample.three_calls))
                Sample.stocked eq_refl)
      as (w' & kept & H1 & H2 & _ & _ & H5 & H6);
      [vm_compute; lia|reflexivity|].
    rewrite (H6 host_ok_reliable eq_refl) in H5.
    destruct H5 as [H5 H5']; [vm_compute; lia|].
    exists w', kept. split; [exact H1|]. split; [exact H2|].
    split; [exact H5|exact H5'].
  - destruct (Hinv Sample.stocked) as (Happend & _); [vm_compute; lia|].
    destruct (Hinv' Sample.stocked) as (_ & Hclear & _); [vm_compute; lia|].
    split; [apply Happend; reflexivity|apply Hclear].
Defined.







(** C5. [log] never throws: whatever the category, the action, the
    metadata, the stored text and the host (a storage that is denied,
    or full), the call does not complete with an error; on every
    stored text within the model it completes normally, with no value,
    whether the write took place or not. *)
Theorem log_never_throws (host : Host) (t : Tick) (category : LogCategory)
    (action : string) (metadata : option (list (string * JsVal)))
    (w : World) :
  (forall e w', LoggerService.log host t category action metadata w
                <> (Throw e, w')) /\
  (Ledger.ledger_in_model w = true ->
   exists w', LoggerService.log host t category action metadata w
              = (Normal tt, w')).
Proof.
  pose proof (append_returns host (Ledger.mkCall t category action metadata) w)
    as H.
  unfold Ledger.append in H.
  cbn [Ledger.call_tick Ledger.call_category Ledger.call_action
       Ledger.call_metadata] in H.
  split.
  - intros e w' E. destruct H as [(w2 & H)|[_ H]]; congruence.
  - intros Hm. destruct H as [H|[H _]]; [exact H|congruence].
Qed.

Lemma log_never_throws_witness :
  (forall e w',
      LoggerService.log Sample.host_full
        (Ledger.call_tick Sample.fourth_call) OPERATION "tune"
        (Some [("big", VBigInt 7)]) (Sample.holding "42")
      <> (Throw e, w')) /\
  exists w',
    LoggerService.log Sample.host_full
      (Ledger.call_tick Sample.fourth_call) OPERATION "tune"
      (Some [("big", VBigInt 7)]) (Sample.holding "42")
    = (Normal tt, w').
Proof.
  destruct (log_never_throws Sample.host_full
              (Ledger.call_tick Sample.fourth_call) OPERATION "tune"
              (Some [("big", VBigInt 7)]) (Sample.holding "42"))
    as [Hnot Hret].
  split; [exact Hnot|]. apply Hret. reflexivity.
Defined.

(** What does hold of [getLogs] on bad data: with no stored text, an
    empty one, or one that [JSON.parse] rejects, it returns the empty
    sequence. *)
Lemma getLogs_absent_or_malformed (host : Host) (w : World) :
  match localStorage w !! LoggerService.STORAGE_KEY with
  | Some s => String.eqb s EmptyString = true \/
              JSON.parse s = JSON.Malformed
  | None => True
  end ->
  fst (LoggerService.getLogs host w) = Normal (VArr []).
Proof.
  rewrite getLogs_spec. destruct (access_denied host); [reflexivity|].
  destruct (localStorage w !! LoggerService.STORAGE_KEY) as [s|];
    [|reflexivity].
  intros [->| ->]; [reflexivity|]. now destruct (String.eqb s EmptyString).
Qed.

(** A stored text that is JSON is returned as parsed, whatever it
    denotes. *)
Lemma getLogs_returns_parsed (host : Host) (w : World) (s : string)
    (v : JsVal) :
  access_denied host = false ->
  localStorage w !! LoggerService.STORAGE_KEY = Some s ->
  JSON.parse s = JSON.Ok v ->
  LoggerService.getLogs host w = (Normal v, w).
Proof.
  intros Hacc Hs Hv. rewrite getLogs_spec, Hacc, Hs, Hv.
  destruct (String.eqb_spec s EmptyString) as [->|_]; [discriminate|].
  reflexivity.
Qed.

(** C6. With the text [42] under the key (well-formed JSON, but no
    sequence of entries), [getLogs] returns the number 42, not an empty
    sequence; every later [log] then fails at the spread and writes
    nothing. *)
Theorem getLogs_on_stored_number :
  LoggerService.getLogs Sample.host_ok (Sample.holding "42")
  = (Normal (VNum (Fin 42)), Sample.holding "42") /\
  Ledger.append Sample.host_ok Sample.fourth_call (Sample.holding "42")
  = (Normal tt, Ledger.save_failed TypeError (Sample.holding "42")).
Proof. split; reflexivity. Qed.

Lemma entry_of_entry (c : Ledger.Call) :
  entry_of_value (Ledger.entry c)
  = Some (AuditLog.mk
            (LoggerService.log_id (Ledger.call_tick c))
            (now (Ledger.call_tick c))
            (Ledger.call_category c)
            (Ledger.call_action c)
            (option_map VObj (Ledger.call_metadata c))).
Proof.
  destruct c as [t cat a [ps|]]; destruct cat; reflexivity.
Qed.

Lemma kept_members_json (ps : list (string * JsVal)) :
  is_json (VObj ps) = true -> kept_members ps = ps.
Proof.
  intros H. apply jsonify_json in H. rewrite jsonify_object in H.
  now injection H.
Qed.

Lemma entry_unchanged (c : Ledger.Call) :
  Ledger.json_metadata c = true ->
  entry_of_value (Ledger.persisted c) = entry_of_value (Ledger.entry c).
Proof.
  rewrite persisted_entry, entry_of_entry.
  unfold Ledger.json_metadata, Ledger.reloaded_entry.
  destruct (Ledger.call_metadata c) as [ps|]; [|reflexivity].
  intros H. cbn [option_map]. now rewrite (kept_members_json _ H).
Qed.

(** The claim C7 as it is stated fails for metadata that is not a JSON
    value: an entry created with a NaN in its metadata is reloaded with
    [null] in its place. *)
Lemma reload_changes_nan_metadata :
  let updated := Ledger.capped (Ledger.entry Sample.nan_call) [] in
  exists w' reloaded,
    Ledger.append Sample.host_ok Sample.nan_call Sample.fresh
    = (Normal tt, w') /\
    LoggerService.getLogs Sample.host_ok w' = (Normal (VArr reloaded), w') /\
    List.map entry_of_value reloaded <> List.map entry_of_value updated.
Proof.
  eexists _, _. split; [reflexivity|]. split; [reflexivity|].
  vm_compute. discriminate.
Qed.

(** C7 (amended). For an entry whose metadata is a JSON value (or is
    absent), writing the sequence kept in memory and reading it back
    yields the same sequence of entries, in the same order.  Whatever
    the metadata, what is read back is the kept sequence as
    [JSON.stringify] writes it. *)
Theorem reload_yields_same_entries (host : Host) (c : Ledger.Call)
    (l : list JsVal) (w w1 : World) :
  Ledger.reliable host ->
  Ledger.call_ok c = true ->
  LoggerService.getLogs host w = (Normal (VArr l), w1) ->
  let updated := Ledger.capped (Ledger.entry c) l in
  exists w' reloaded,
    Ledger.append host c w = (Normal tt, w') /\
    LoggerService.getLogs host w' = (Normal (VArr reloaded), w') /\
    reloaded = List.map stored updated /\
    (Ledger.json_metadata c = true ->
     List.map entry_of_value reloaded = List.map entry_of_value updated).
Proof.
  intros Hhost Hok Hget updated.
  destruct (append_ok host c l w w1 Hhost Hok Hget) as [Happ Hkept].
  assert (is_json (VArr l) = true) as Hl.
  { destruct (getLogs_completion host w) as [(v & w' & Hv & Hj & _)|[Hv _]];
      rewrite Hget in Hv; [|discriminate].
    injection Hv as <- <-. exact Hj. }
  destruct (written_kept c (VArr l) l Hok Hl eq_refl) as [Hmap _].
  eexists _, _. split; [exact Happ|]. split; [|split].
  - apply getLogs_written; [apply Hhost|exact Hkept].
  - unfold updated. now rewrite Hmap.
  - intros Hmeta. unfold updated, Ledger.capped. rewrite !map_take.
    cbn [List.map]. now rewrite (entry_unchanged c Hmeta).
Qed.

Lemma reload_yields_same_entries_witness :
  let updated := Ledger.capped (Ledger.entry Sample.fourth_call) [] in
  exists w' reloaded,
    Ledger.append Sample.host_ok Sample.fourth_call Sample.fresh
    = (Normal tt, w') /\
    LoggerService.getLogs Sample.host_ok w' = (Normal (VArr reloaded), w') /\
    reloaded = List.map stored updated /\
    List.map entry_of_value reloaded = List.map entry_of_value updated.
Proof.
  destruct (reload_yields_same_entries Sample.host_ok Sample.fourth_call []
              Sample.fresh Sample.fresh host_ok_reliable eq_refl eq_refl)
    as (w' & reloaded & Happ & Hget & Hre & Hsame).
  exists w', reloaded. repeat split; [exact Happ|exact Hget|exact Hre|].
  apply Hsame. reflexivity.
Defined.

(** *** Identifiers *)

Lemma N_upper_char (x : ascii) :
  N_of_ascii (upper_char x)
  = if in_range 97 122 x then (N_of_ascii x - 32)%N else N_of_ascii x.
Proof.
  unfold upper_char. destruct (in_range 97 122 x) eqn:E; [|reflexivity].
  apply N_ascii_embedding. unfold in_range in E.
  apply andb_true_iff in E as [_ E]. apply N.leb_le in E. lia.
Qed.

Lemma upper_char_inj (a b : ascii) :
  Ledger.base36_char a = true -> Ledger.base36_char b = true ->
  upper_char a = upper_char b -> a = b.
Proof.
  intros Ha Hb E. apply (f_equal N_of_ascii) in E.
  rewrite !N_upper_char in E.
  rewrite <- (ascii_N_embedding a), <- (ascii_N_embedding b). f_equal.
  unfold Ledger.base36_char, in_range in *.
  assert (forall c, Ascii.eqb c "." = true -> N_of_ascii c = 46%N) as Hdot
    by (intros c Hc; apply Ascii.eqb_eq in Hc; now subst c).
  repeat match goal with
         | H : (_ || _) = true |- _ => apply orb_true_iff in H as [H|H]
         | H : (_ && _) = true |- _ => apply andb_true_iff in H as [? H]
         | H : (_ <=? _)%N = true |- _ => apply N.leb_le in H
         | H : Ascii.eqb _ "." = true |- _ => apply Hdot in H
         end;
    repeat match type of E with
           | context [((?x <=? ?y)%N)] => destruct (N.leb_spec x y)
           end;
    cbn [andb] in E; lia.
Qed.

Lemma toUpperCase_inj (s1 s2 : string) :
  Ledger.base36_text s1 = true -> Ledger.base36_text s2 = true ->
  toUpperCase s1 = toUpperCase s2 -> s1 = s2.
Proof.
  revert s2. induction s1 as [|a s1 IH]; intros [|b s2] H1 H2 E;
    try reflexivity; try discriminate.
  cbn [Ledger.base36_text toUpperCase] in *.
  apply andb_true_iff in H1 as [Ha H1]. apply andb_true_iff in H2 as [Hb H2].
  injection E as Ec Es.
  now rewrite (upper_char_inj a b Ha Hb Ec), (IH s2 H1 H2 Es).
Qed.

Lemma base36_drop (n : nat) (s : string) :
  Ledger.base36_text s = true -> Ledger.base36_text (drop_chars n s) = true.
Proof.
  revert s. induction n as [|n IH]; intros [|a s] H; try exact H.
  cbn [drop_chars]. apply IH. cbn [Ledger.base36_text] in H.
  now apply andb_true_iff in H as [_ H].
Qed.

Lemma base36_take (n : nat) (s : string) :
  Ledger.base36_text s = true -> Ledger.base36_text (take_chars n s) = true.
Proof.
  revert s. induction n as [|n IH]; intros [|a s] H; try reflexivity.
  cbn [take_chars Ledger.base36_text] in *.
  apply andb_true_iff in H as [-> H]. now apply IH.
Qed.

(** The claim C9 as it is stated fails: two distinct calls whose
    random draws agree on their first nine digits get the same id. *)
Lemma two_calls_one_id :
  Sample.twin_a <> Sample.twin_b /\
  random36 (Ledger.call_tick Sample.twin_a)
  <> random36 (Ledger.call_tick Sample.twin_b) /\
  Ledger.id_of (Ledger.entry Sample.twin_a) = VStr "LOG-4FZYO82MV" /\
  Ledger.id_of (Ledger.entry Sample.twin_b) = VStr "LOG-4FZYO82MV".
Proof.
  split; [discriminate|]. split; [discriminate|]. split; reflexivity.
Qed.

(** C9 (amended). The id of an entry is made when the entry is written:
    [LOG-] followed by the nine characters after the point of a random
    number written in base 36, in upper case.  The ids of two calls are
    distinct exactly when those nine characters differ. *)
Theorem ids_distinct_when_draws_differ (c1 c2 : Ledger.Call) :
  Ledger.base36_text (random36 (Ledger.call_tick c1)) = true ->
  Ledger.base36_text (random36 (Ledger.call_tick c2)) = true ->
  Ledger.id_of (Ledger.entry c1)
  = VStr (LoggerService.log_id (Ledger.call_tick c1)) /\
  (Ledger.id_of (Ledger.entry c1) <> Ledger.id_of (Ledger.entry c2) <->
   substr 2 9 (random36 (Ledger.call_tick c1))
   <> substr 2 9 (random36 (Ledger.call_tick c2))).
Proof.
  intros H1 H2. split; [reflexivity|].
  change (Ledger.id_of (Ledger.entry c1))
    with (VStr (LoggerService.log_id (Ledger.call_tick c1))).
  change (Ledger.id_of (Ledger.entry c2))
    with (VStr (LoggerService.log_id (Ledger.call_tick c2))).
  unfold LoggerService.log_id.
  split; intros Hne E; apply Hne.
  - now rewrite E.
  - injection E as E. apply toUpperCase_inj in E; [exact E| |];
      unfold substr; now apply base36_take, base36_drop.
Qed.

Lemma ids_distinct_when_draws_differ_witness :
  Ledger.id_of (Ledger.entry Sample.twin_a)
  = VStr (LoggerService.log_id (Ledger.call_tick Sample.twin_a)) /\
  (Ledger.id_of (Ledger.entry Sample.twin_a)
   <> Ledger.id_of (Ledger.entry Sample.fourth_call) <->
   substr 2 9 (random36 (Ledger.call_tick Sample.twin_a))
   <> substr 2 9 (random36 (Ledger.call_tick Sample.fourth_call))).
Proof.
  apply (ids_distinct_when_draws_differ Sample.twin_a Sample.fourth_call);
    reflexivity.
Defined.

(** *** The purge *)

(** The claim C10 as it is stated fails where the purge call cannot
    write: on a host whose storage is full, [clearLogs] emits no
    notification at all, so listeners receive no purge entry. *)
Lemma clearLogs_on_full_storage_notifies_nobody :
  let w' := snd (LoggerService.clearLogs Sample.host_full
                   (Ledger.call_tick Sample.fourth_call) Sample.stocked) in
  LoggerService.clearLogs Sample.host_full
    (Ledger.call_tick Sample.fourth_call) Sample.stocked
  = (Normal tt, w') /\
  Ledger.silent_after (length (trace Sample.stocked)) w'.
Proof.
  split; [reflexivity|].
  intros type detail H. vm_compute in H.
  destruct H as [H|[H|[]]]; discriminate H.
Qed.

(** C10 (amended). In a call of [clearLogs] whose purge write takes
    place, the purge entry is written, then notified, and only then is
    the key removed: listeners have received an entry that the store
    does not hold afterwards, [getLogs] returning the empty sequence.
    In a call whose purge write does not take place (storage denied or
    full, stored value not iterable) no notification is emitted.  On a
    host whose storage accepts the write, with a ledger that holds a
    sequence, the call is of the first kind. *)
Theorem clearLogs_notifies_before_removing (host : Host) (t : Tick)
    (w : World) :
  Ledger.call_in_model (Ledger.purge_call t) = true ->
  Ledger.ledger_in_model w = true ->
  let w1 := snd (LoggerService.getLogs host w) in
  let w' := snd (LoggerService.clearLogs host t w) in
  (if Ledger.accepted host (Ledger.purge_call t) w
   then exists text,
          LoggerService.clearLogs host t w = (Normal tt, w') /\
          trace w'
          = (trace w1 ++
             [SetItem LoggerService.STORAGE_KEY text;
              DispatchEvent "audit-log-updated"
                (Ledger.entry (Ledger.purge_call t));
              RemoveItem LoggerService.STORAGE_KEY])%list /\
          (exists rest,
              JSON.parse text
              = JSON.Ok (VArr (Ledger.persisted (Ledger.purge_call t)
                               :: rest))) /\
          localStorage w' !! LoggerService.STORAGE_KEY = None
   else Ledger.silent_after (length (trace w)) w') /\
  fst (LoggerService.getLogs host w') = Normal (VArr []) /\
  (Ledger.reliable host ->
   (exists l, fst (LoggerService.getLogs host w) = Normal (VArr l)) ->
   Ledger.accepted host (Ledger.purge_call t) w = true).
Proof.
  intros Hc Hm w1 w'. subst w1 w'.
  pose proof (getLogs_in_model host w Hm) as Hm'.
  split; [|split].
  - destruct (Ledger.accepted host (Ledger.purge_call t) w) eqn:Hacc.
    + destruct (append_accepted host _ w Hc Hacc)
        as (items & Hheld & Hkept & Happ & _ & Hden).
      rewrite (clearLogs_accessible host t w Hden Hm'), Happ. cbn [snd].
      exists (Ledger.ledger_text
                (Ledger.capped (Ledger.persisted (Ledger.purge_call t))
                   items)).
      split; [reflexivity|]. split; [|split].
      * unfold Ledger.removed, Ledger.written. cbn [trace].
        now rewrite <- app_assoc.
      * exists (take 499 items). unfold Ledger.ledger_text.
        rewrite parse_print by exact Hkept. reflexivity.
      * unfold Ledger.removed. cbn [localStorage]. apply lookup_delete_eq.
    + assert (exists tail,
                 trace (snd (LoggerService.clearLogs host t w))
                 = (trace w ++ tail)%list /\
                 forall type detail, ~ In (DispatchEvent type detail) tail)
        as (tail & Htail & Hsilent).
      { destruct (append_refused host _ w Hm' Hacc) as (e & Happ & _).
        assert (exists pre,
                   trace (snd (LoggerService.getLogs host w))
                   = (trace w ++ pre)%list /\
                   forall type detail, ~ In (DispatchEvent type detail) pre)
          as (pre & Hpre & Hpre').
        { rewrite getLogs_spec.
          destruct (access_denied host).
          - eexists. split; [reflexivity|].
            intros ty d [H|[]]. discriminate H.
          - destruct (localStorage w !! LoggerService.STORAGE_KEY) as [s|];
              [|exists []; split; [now rewrite app_nil_r|intros ty d []]].
            destruct (String.eqb s EmptyString);
              [exists []; split; [now rewrite app_nil_r|intros ty d []]|].
            destruct (JSON.parse s);
              [exists []; split; [now rewrite app_nil_r|intros ty d []]
              |eexists; split; [reflexivity|
                                intros ty d [H|[]]; discriminate H]
              |exists []; split; [now rewrite app_nil_r|intros ty d []]]. }
        destruct (access_denied host) eqn:Hden.
        - rewrite (clearLogs_denied host t w Hden).
          eexists. split; [cbn; rewrite <- app_assoc; reflexivity|].
          intros ty d [H|[H|[]]]; discriminate H.
        - rewrite (clearLogs_accessible host t w Hden Hm'), Happ.
          cbn [snd Ledger.removed Ledger.save_failed trace]. rewrite Hpre.
          eexists. split; [rewrite <- !app_assoc; reflexivity|].
          intros ty d H. apply in_app_or in H as [H|H];
            [exact (Hpre' ty d H)|].
          destruct H as [H|[H|[]]]; discriminate H. }
      intros type detail. rewrite Htail, drop_app_length.
      apply Hsilent.
  - now apply getLogs_after_clearLogs.
  - intros Hhost [l Hget].
    now destruct (accepted_reliable host (Ledger.purge_call t) w l Hhost
                    eq_refl Hget).
Qed.

Lemma clearLogs_notifies_before_removing_witness :
  let t := Ledger.call_tick Sample.fourth_call in
  let w' := snd (LoggerService.clearLogs Sample.host_ok t Sample.stocked) in
  (exists text,
      LoggerService.clearLogs Sample.host_ok t Sample.stocked
      = (Normal tt, w') /\
      trace w'
      = (trace (snd (LoggerService.getLogs Sample.host_ok Sample.stocked)) ++
         [SetItem LoggerService.STORAGE_KEY text;
          DispatchEvent "audit-log-updated"
            (Ledger.entry (Ledger.purge_call t));
          RemoveItem LoggerService.STORAGE_KEY])%list /\
      (exists rest,
          JSON.parse text
          = JSON.Ok (VArr (Ledger.persisted (Ledger.purge_call t) :: rest))) /\
      localStorage w' !! LoggerService.STORAGE_KEY = None) /\
  fst (LoggerService.getLogs Sample.host_ok w') = Normal (VArr []) /\
  Ledger.silent_after (length (trace Sample.stocked))
    (snd (LoggerService.clearLogs Sample.host_denied t Sample.stocked)).
Proof.
  destruct (clearLogs_notifies_before_removing Sample.host_ok
              (Ledger.call_tick Sample.fourth_call) Sample.stocked
              eq_refl eq_refl) as (Hkind & Hread & _).
  destruct (clearLogs_notifies_before_removing Sample.host_denied
              (Ledger.call_tick Sample.fourth_call) Sample.stocked
              eq_refl eq_refl) as (Hkind' & _).
  change (Ledger.accepted Sample.host_ok
            (Ledger.purge_call (Ledger.call_tick Sample.fourth_call))
            Sample.stocked) with true in Hkind.
  change (Ledger.accepted Sample.host_denied
            (Ledger.purge_call (Ledger.call_tick Sample.fourth_call))
            Sample.stocked) with false in Hkind'.
  split; [exact Hkind|]. split; [exact Hread|exact Hkind'].
Defined.

(** ** The view: filtering and sorting *)

Lemma Array_filter_pure {A} (p : A -> Completion bool) (f : A -> bool)
    (l : list A) :
  Forall (fun x => p x = Normal (f x)) l ->
  AuditLogView.Array_filter p l = Normal (List.filter f l).
Proof.
  induction 1 as [|x l Hx Hl IH]; [reflexivity|].
  cbn [AuditLogView.Array_filter List.filter]. now rewrite Hx, IH.
Qed.

Lemma truthy_jsonify (m : JsVal) :
  truthy m = true -> JSON.jsonify m = Some (stored m).
Proof.
  unfold stored. destruct (JSON.jsonify m) eqn:E; [reflexivity|].
  destruct m as [| | |[]| | | |]; discriminate.
Qed.

Lemma matchesMetadata_shown (q : string) (e : AuditLog.t) :
  View.serialisable e = true ->
  AuditLogView.matchesMetadata (toLowerCase q) e
  = Normal match AuditLog.metadata e with
           | Some m => truthy m && View.contains (JSON.print (stored m)) q
           | None => false
           end.
Proof.
  unfold View.serialisable, AuditLogView.matchesMetadata.
  destruct (AuditLog.metadata e) as [m|]; [|reflexivity].
  intros Hbig. apply negb_true_iff in Hbig.
  destruct (truthy m) eqn:Ht; [|reflexivity].
  unfold JSON.stringify. rewrite Hbig, (truthy_jsonify m Ht). reflexivity.
Qed.

(** The callback of the filter computes [View.shown]. *)
Lemma keeps_shown (filter : AuditLogView.CategoryFilter) (q : string)
    (e : AuditLog.t) :
  View.serialisable e = true ->
  AuditLogView.keeps filter q e = Normal (View.shown filter q e).
Proof.
  intros Hs. unfold AuditLogView.keeps, View.shown. cbv zeta.
  destruct (String.eqb q EmptyString).
  { cbn [orb]. now rewrite andb_true_r. }
  cbn [orb]. fold (View.contains (AuditLog.action e) q).
  destruct (View.contains (AuditLog.action e) q).
  { reflexivity. }
  fold (View.contains (category_name (AuditLog.category e)) q).
  destruct (View.contains (category_name (AuditLog.category e)) q).
  { reflexivity. }
  now rewrite (matchesMetadata_shown q e Hs).
Qed.

Lemma insert_sorted_perm {A} (cmp : A -> A -> Z) (x : A) (l : list A) :
  Permutation (AuditLogView.insert_sorted cmp x l) (x :: l).
Proof.
  induction l as [|y l IH]; [reflexivity|].
  cbn [AuditLogView.insert_sorted]. destruct (0 <? cmp x y)%Z.
  - rewrite IH. apply perm_swap.
  - reflexivity.
Qed.

Lemma Array_sort_perm {A} (cmp : A -> A -> Z) (l : list A) :
  Permutation (AuditLogView.Array_sort cmp l) l.
Proof.
  induction l as [|x l IH]; [reflexivity|].
  cbn [AuditLogView.Array_sort]. rewrite insert_sorted_perm. now constructor.
Qed.

Section Sorting.
Context {A : Type} (cmp : A -> A -> Z) (R : A -> A -> Prop).
Hypothesis R_trans : forall a b c, R a b -> R b c -> R a c.
Hypothesis cmp_after : forall a b, (0 <? cmp a b)%Z = true -> R b a.
Hypothesis cmp_before : forall a b, (0 <? cmp a b)%Z = false -> R a b.

Lemma insert_sorted_sorted (x : A) (l : list A) :
  StronglySorted R l ->
  StronglySorted R (AuditLogView.insert_sorted cmp x l).
Proof.
  induction 1 as [|y l Hl IH Hy]; [repeat constructor|].
  cbn [AuditLogView.insert_sorted].
  destruct (0 <? cmp x y)%Z eqn:E.
  - constructor; [exact IH|].
    rewrite List.Forall_forall. intros z Hz.
    apply (Permutation_in _ (insert_sorted_perm cmp x l)) in Hz.
    destruct Hz as [<-|Hz]; [now apply cmp_after|].
    rewrite List.Forall_forall in Hy. now apply Hy.
  - constructor; [now constructor|].
    constructor; [now apply cmp_before|].
    rewrite List.Forall_forall in *. intros z Hz.
    apply R_trans with y; [now apply cmp_before|now apply Hy].
Qed.

Lemma Array_sort_sorted (l : list A) :
  StronglySorted R (AuditLogView.Array_sort cmp l).
Proof.
  induction l as [|x l IH]; [constructor|].
  cbn [AuditLogView.Array_sort]. now apply insert_sorted_sorted.
Qed.
End Sorting.

(** *** The order of the keys *)

Lemma str_ltb_leb (a b : string) : str_ltb b a = negb (String.leb a b).
Proof.
  unfold str_ltb, String.leb. rewrite (String.compare_antisym a b).
  now destruct (String.compare b a).
Qed.

Lemma js_lt_asym (x y : AuditLogView.Field) :
  AuditLogView.js_lt x y = true -> AuditLogView.js_lt y x = false.
Proof.
  destruct x as [a|a], y as [b|b]; cbn [AuditLogView.js_lt];
    try discriminate.
  - intros H. apply Z.ltb_lt in H. apply Z.ltb_ge. lia.
  - unfold str_ltb. rewrite (String.compare_antisym a b).
    now destruct (String.compare b a).
Qed.

(** Two keys of the same kind that are not above one another in two
    steps are not above one another in one. *)
Lemma js_lt_neg_trans (x y z : AuditLogView.Field) :
  (match x, y, z with
   | AuditLogView.FNum _, AuditLogView.FNum _, AuditLogView.FNum _
   | AuditLogView.FStr _, AuditLogView.FStr _, AuditLogView.FStr _ =>
       True
   | _, _, _ => False
   end) ->
  AuditLogView.js_lt y x = false -> AuditLogView.js_lt z y = false ->
  AuditLogView.js_lt z x = false.
Proof.
  destruct x as [a|a], y as [b|b], z as [c|c]; intros []; 
    cbn [AuditLogView.js_lt].
  - rewrite !Z.ltb_ge. lia.
  - rewrite !str_ltb_leb, !negb_false_iff. intros H1 H2.
    apply Is_true_true. apply Is_true_true in H1, H2.
    exact (transitivity (R := String.le) H1 H2).
Qed.

Lemma compareFn_after (cfg : AuditLogView.SortConfig) (a b : AuditLog.t) :
  (0 <? AuditLogView.compareFn cfg a b)%Z = true ->
  View.in_order cfg b a = true.
Proof.
  unfold AuditLogView.compareFn, View.in_order. cbv zeta.
  fold (View.sort_key cfg a). fold (View.sort_key cfg b).
  destruct (AuditLogView.js_lt (View.sort_key cfg a) (View.sort_key cfg b))
    eqn:Hab;
    destruct (AuditLogView.js_lt (View.sort_key cfg b) (View.sort_key cfg a))
      eqn:Hba;
    destruct (AuditLogView.direction cfg); try discriminate;
    try reflexivity.
  apply js_lt_asym in Hab. congruence.
Qed.

Lemma compareFn_before (cfg : AuditLogView.SortConfig) (a b : AuditLog.t) :
  (0 <? AuditLogView.compareFn cfg a b)%Z = false ->
  View.in_order cfg a b = true.
Proof.
  unfold AuditLogView.compareFn, View.in_order. cbv zeta.
  fold (View.sort_key cfg a). fold (View.sort_key cfg b).
  destruct (AuditLogView.js_lt (View.sort_key cfg a) (View.sort_key cfg b))
    eqn:Hab;
    destruct (AuditLogView.js_lt (View.sort_key cfg b) (View.sort_key cfg a))
      eqn:Hba;
    destruct (AuditLogView.direction cfg); try discriminate;
    try reflexivity.
  apply js_lt_asym in Hab. congruence.
Qed.

Lemma in_order_trans (cfg : AuditLogView.SortConfig) (a b c : AuditLog.t) :
  View.in_order cfg a b = true -> View.in_order cfg b c = true ->
  View.in_order cfg a c = true.
Proof.
  unfold View.in_order.
  assert (match View.sort_key cfg a, View.sort_key cfg b,
                View.sort_key cfg c with
          | AuditLogView.FNum _, AuditLogView.FNum _,
            AuditLogView.FNum _
          | AuditLogView.FStr _, AuditLogView.FStr _,
            AuditLogView.FStr _ => True
          | _, _, _ => False
          end) as Hkind
    by (unfold View.sort_key; destruct (AuditLogView.key cfg); exact I).
  assert (match View.sort_key cfg c, View.sort_key cfg b,
                View.sort_key cfg a with
          | AuditLogView.FNum _, AuditLogView.FNum _,
            AuditLogView.FNum _
          | AuditLogView.FStr _, AuditLogView.FStr _,
            AuditLogView.FStr _ => True
          | _, _, _ => False
          end) as Hkind'
    by (unfold View.sort_key; destruct (AuditLogView.key cfg); exact I).
  destruct (AuditLogView.direction cfg); rewrite !negb_true_iff;
    intros H1 H2.
  - exact (js_lt_neg_trans _ _ _ Hkind H1 H2).
  - exact (js_lt_neg_trans _ _ _ Hkind' H2 H1).
Qed.

(** The claim C8 as it is stated fails: the query is also looked for
    in the name of the category, so an entry is shown whose action and
    metadata do not contain it. *)
Lemma view_matches_category_name :
  AuditLogView.sortedAndFilteredLogs [Sample.boot] AuditLogView.ALL
    "sys" Sample.by_newest
  = Normal [Sample.boot] /\
  AuditLogView.shown_by_spec AuditLogView.ALL "sys" Sample.boot = false.
Proof. split; reflexivity. Qed.

(** C8 (amended). For every list of entries with serialisable
    metadata, every filter, query and sort configuration, the view
    computes the entries of the selected category whose action text,
    category name or serialised metadata contains the query as a
    substring, letter case aside (all of that category when the query
    is empty), each as often as in the list, sorted by the selected key
    in the selected direction, strings compared in lower case. *)
Theorem view_shows_matching_entries_sorted (logs : list AuditLog.t)
    (filter : AuditLogView.CategoryFilter) (searchQuery : string)
    (sortConfig : AuditLogView.SortConfig) :
  forallb View.serialisable logs = true ->
  exists result,
    AuditLogView.sortedAndFilteredLogs logs filter searchQuery sortConfig
    = Normal result /\
    Permutation result (List.filter (View.shown filter searchQuery) logs) /\
    (forall e, In e result <->
               In e logs /\ View.shown filter searchQuery e = true) /\
    StronglySorted (fun a b => View.in_order sortConfig a b = true) result.
Proof.
  intros Hs. unfold AuditLogView.sortedAndFilteredLogs.
  rewrite (Array_filter_pure _ (View.shown filter searchQuery)).
  2:{ rewrite forallb_forall in Hs. apply List.Forall_forall.
      intros e He. apply keeps_shown. now apply Hs. }
  eexists. split; [reflexivity|].
  pose proof (Array_sort_perm (AuditLogView.compareFn sortConfig)
                (List.filter (View.shown filter searchQuery) logs)) as Hperm.
  split; [exact Hperm|]. split.
  - intros e. rewrite <- filter_In. split; intros H.
    + eapply Permutation_in; [exact Hperm|exact H].
    + eapply Permutation_in; [symmetry; exact Hperm|exact H].
  - apply Array_sort_sorted.
    + intros a b c. apply in_order_trans.
    + intros a b. apply compareFn_after.
    + intros a b. apply compareFn_before.
Qed.

Lemma view_shows_matching_entries_sorted_witness :
  exists result,
    AuditLogView.sortedAndFilteredLogs [Sample.boot; Sample.payout]
      AuditLogView.ALL "HYPERNODE" Sample.by_newest
    = Normal result /\
    Permutation result
      (List.filter (View.shown AuditLogView.ALL "HYPERNODE")
         [Sample.boot; Sample.payout]) /\
    (forall e, In e result <->
               In e [Sample.boot; Sample.payout] /\
               View.shown AuditLogView.ALL "HYPERNODE" e = true) /\
    StronglySorted (fun a b => View.in_order Sample.by_newest a b = true)
      result.
Proof.
  apply (view_shows_matching_entries_sorted [Sample.boot; Sample.payout]
           AuditLogView.ALL "HYPERNODE" Sample.by_newest).
  reflexivity.
Defined.

(** ** The scenarios of the specification, and a few readings *)

(** Three appends with the categories SYSTEM, FINANCIAL and SECURITY:
    [getLogs] returns them as SECURITY, FINANCIAL, SYSTEM. *)
Example scenario_three_categories :
  let w := snd (Ledger.appends Sample.host_ok Sample.three_calls
                  Sample.fresh) in
  match fst (LoggerService.getLogs Sample.host_ok w) with
  | Normal (VArr l) =>
      List.map (fun v => option_map AuditLog.category (entry_of_value v)) l
  | _ => []
  end = [Some SECURITY; Some FINANCIAL; Some SYSTEM].
Proof. vm_compute. reflexivity. Qed.

(** 501 appends with the actions [evt-0] to [evt-500]: [getLogs]
    returns 500 entries, from [evt-500] down to [evt-1]. *)
Example scenario_evt_500 :
  exists w' l,
    Ledger.appends Sample.host_ok Sample.many_calls Sample.fresh
    = (Normal tt, w') /\
    fst (LoggerService.getLogs Sample.host_ok w') = Normal (VArr l) /\
    length l = 500 /\
    option_map AuditLog.action (head l ≫= entry_of_value) = Some "evt-500" /\
    option_map AuditLog.action (last l ≫= entry_of_value) = Some "evt-1".
Proof.
  destruct (appends_ok Sample.host_ok Sample.many_calls host_ok_reliable
              eq_refl [] Sample.fresh Sample.fresh eq_refl)
    as (w' & Hrun & Hread).
  rewrite (fold_capped Ledger.persisted Sample.many_calls [])
    in Hread by (cbn; lia).
  eexists _, _. split; [exact Hrun|]. split; [exact Hread|].
  vm_compute. repeat split.
Qed.

(** Texts [getLogs] may find under the key. *)
Example parse_sequence :
  JSON.parse " [1, [], {} ] " = JSON.Ok (VArr [VNum (Fin 1); VArr []; VObj []]).
Proof. reflexivity. Qed.

Example parse_trailing_comma : JSON.parse "[1,]" = JSON.Malformed.
Proof. reflexivity. Qed.

Example parse_fraction : JSON.parse "1.5" = JSON.Beyond.
Proof. reflexivity. Qed.

Example stringify_undefined_and_nan :
  JSON.stringify (VObj [("verdict", VUndefined); ("ratio", VNum NaN);
                        ("tags", VArr [VUndefined; VStr "a"])])
  = inr (Some (JSON.print (VObj [("ratio", VNull);
                                 ("tags", VArr [VNull; VStr "a"])]))).
Proof. reflexivity. Qed.

Example stringify_bigint :
  JSON.stringify (VObj [("n", VBigInt 10)]) = inl TypeError.
Proof. reflexivity. Qed.

(** A stored text that [JSON.parse] rejects: [getLogs] reports it on
    the console and returns the empty sequence, and the next [log]
    replaces it. *)
Example log_over_broken_text :
  let w := Sample.holding "{broken" in
  fst (LoggerService.getLogs Sample.host_ok w) = Normal (VArr []) /\
  fst (LoggerService.getLogs Sample.host_ok
         (snd (Ledger.append Sample.host_ok Sample.fourth_call w)))
  = Normal (VArr [Ledger.persisted Sample.fourth_call]).
Proof. split; reflexivity. Qed.

(** Where the document is denied its storage, [getLogs] returns the
    empty sequence and [log] returns, but [clearLogs] throws at the
    removal, which no [try] surrounds. *)
Example clearLogs_without_storage :
  let t := Ledger.call_tick Sample.fourth_call in
  fst (LoggerService.getLogs Sample.host_denied Sample.fresh)
  = Normal (VArr []) /\
  fst (Ledger.append Sample.host_denied Sample.fourth_call Sample.fresh)
  = Normal tt /\
  fst (LoggerService.clearLogs Sample.host_denied t Sample.fresh)
  = Throw SecurityError.
Proof. repeat split. Qed.
(** * Further properties: the table, the purge and the export *)

(** ** The pages of the view *)

Section Pages.
Local Open Scope Z_scope.
Context {A : Type}.
Implicit Types (l : list A) (p : Z).

Lemma totalPages_bounds l :
  0 <= AuditLogTable.totalPages l /\
  (AuditLogTable.totalPages l - 1) * 20 < Z.of_nat (length l) + 20 /\
  Z.of_nat (length l) <= AuditLogTable.totalPages l * 20 /\
  (l = [] -> AuditLogTable.totalPages l = 0) /\
  (AuditLogTable.totalPages l * 20 < Z.of_nat (length l) + 20).
Proof.
  unfold AuditLogTable.totalPages, Math_ceil_div, AuditLogTable.PAGE_SIZE.
  pose proof (Z.div_mod (- Z.of_nat (length l)) 20 ltac:(lia)) as H.
  pose proof (Z.mod_pos_bound (- Z.of_nat (length l)) 20 ltac:(lia)) as H'.
  repeat split; try lia.
  intros ->. reflexivity.
Qed.

Lemma paginatedLogs_take_drop l p :
  1 <= p ->
  AuditLogTable.paginatedLogs l p
  = take 20 (drop (20 * Z.to_nat (p - 1)) l).
Proof.
  intros Hp.
  unfold AuditLogTable.paginatedLogs, Array_slice, relative_index,
    AuditLogTable.PAGE_SIZE.
  destruct ((p - 1) * 20 <? 0) eqn:E1; [apply Z.ltb_lt in E1; lia|].
  destruct ((p - 1) * 20 + 20 <? 0) eqn:E2; [apply Z.ltb_lt in E2; lia|].
  clear E1 E2.
  destruct (Z.le_gt_cases (Z.of_nat (length l)) ((p - 1) * 20)) as [Hge|Hlt].
  - rewrite !drop_ge by lia. now rewrite !take_nil.
  - replace (Z.to_nat (Z.min ((p - 1) * 20) (Z.of_nat (length l))))
      with (20 * Z.to_nat (p - 1))%nat by lia.
    set (d := drop _ l).
    assert (length d = length l - 20 * Z.to_nat (p - 1))%nat as Hd
      by (unfold d; now rewrite length_drop).
    destruct (Z.le_gt_cases ((p - 1) * 20 + 20) (Z.of_nat (length l))).
    + f_equal. lia.
    + rewrite !take_ge by lia. reflexivity.
Qed.

Lemma concat_chunks (n k : nat) l :
  concat (List.map (fun i => take n (drop (n * i) l)) (seq 0 k))
  = take (n * k) l.
Proof.
  induction k as [|k IH].
  - now rewrite Nat.mul_0_r, take_0.
  - rewrite seq_S, List.map_app, concat_app, IH. cbn [List.map concat plus].
    rewrite app_nil_r, take_take_drop. f_equal. lia.
Qed.

(** X1. The pages 1 to [totalPages] cut the list shown into
    consecutive pieces: put one after the other, in order, they give
    back the list, every entry once. *)
Theorem pages_partition_the_list l :
  concat (List.map (AuditLogTable.paginatedLogs l)
            (seqZ 1 (AuditLogTable.totalPages l)))
  = l.
Proof.
  destruct (totalPages_bounds l) as (H0 & _ & Hup & _).
  unfold seqZ. rewrite <- list_fmap_compose.
  change (fmap ?f ?x) with (List.map f x).
  rewrite (List.map_ext _ (fun i => take 20 (drop (20 * i) l))).
  - rewrite concat_chunks. apply take_ge. lia.
  - intros i. unfold compose. rewrite paginatedLogs_take_drop by lia.
    do 3 f_equal. lia.
Qed.

(** X2. No page holds more than twenty entries, whatever the page
    number; a page before the last holds exactly twenty, the last page
    at least one, and a page after the last none, also when the list is
    not empty. *)
Theorem page_sizes l p :
  (Z.of_nat (length (AuditLogTable.paginatedLogs l p)) <= 20) /\
  (1 <= p < AuditLogTable.totalPages l ->
   length (AuditLogTable.paginatedLogs l p) = 20%nat) /\
  (1 <= p -> p = AuditLogTable.totalPages l ->
   (1 <= length (AuditLogTable.paginatedLogs l p))%nat) /\
  (AuditLogTable.totalPages l < p ->
   AuditLogTable.paginatedLogs l p = []).
Proof.
  destruct (totalPages_bounds l) as (H0 & Hlo & Hup & _ & Hlt).
  split; [|split; [|split]].
  - unfold AuditLogTable.paginatedLogs, Array_slice, relative_index,
      AuditLogTable.PAGE_SIZE.
    rewrite length_take, length_drop.
    destruct ((p - 1) * 20 <? 0) eqn:E1;
      destruct ((p - 1) * 20 + 20 <? 0) eqn:E2;
      try apply Z.ltb_lt in E1; try apply Z.ltb_ge in E1;
      try apply Z.ltb_lt in E2; try apply Z.ltb_ge in E2; lia.
  - intros Hp. rewrite paginatedLogs_take_drop by lia.
    rewrite length_take, length_drop. lia.
  - intros Hp ->. rewrite paginatedLogs_take_drop by lia.
    rewrite length_take, length_drop. lia.
  - intros Hp. rewrite paginatedLogs_take_drop by lia.
    rewrite drop_ge by lia. apply take_nil.
Qed.

(** X3. On a page within range the line [Showing a-b of n] names the
    entries of the page: [a <= b], the page holds [b - a + 1] entries,
    and its entry number [i] is the entry number [a + i] of the whole
    list, counted from 1. *)
Theorem showing_line_names_the_page l p :
  1 <= p <= AuditLogTable.totalPages l ->
  let a := AuditLogTable.showing_from p in
  let b := AuditLogTable.showing_to l p in
  1 <= a <= b /\ b <= Z.of_nat (length l) /\
  Z.of_nat (length (AuditLogTable.paginatedLogs l p)) = b - a + 1 /\
  forall i : nat,
    AuditLogTable.paginatedLogs l p !! i
    = if (Z.of_nat i <=? b - a) then l !! Z.to_nat (a - 1 + Z.of_nat i)
      else None.
Proof.
  intros Hp a b.
  destruct (totalPages_bounds l) as (H0 & Hlo & Hup & _ & Hlt).
  subst a b. unfold AuditLogTable.showing_from, AuditLogTable.showing_to,
    AuditLogTable.PAGE_SIZE.
  rewrite paginatedLogs_take_drop by lia.
  rewrite length_take, length_drop.
  repeat split; try lia.
  intros i. destruct (Z.leb_spec (Z.of_nat i)
      (Z.min (p * 20) (Z.of_nat (length l)) - ((p - 1) * 20 + 1))) as [Hi|Hi].
  - rewrite lookup_take_lt by lia. rewrite lookup_drop. f_equal. lia.
  - destruct (Nat.lt_ge_cases i 20) as [Hlt20|Hge20].
    + rewrite lookup_take_lt by lia. rewrite lookup_drop.
      apply lookup_ge_None. lia.
    + apply lookup_take_ge. lia.
Qed.

End Pages.

Lemma page_sizes_witness :
  (Z.of_nat (length (AuditLogTable.paginatedLogs (seq 0 45) 2)) <= 20)%Z /\
  length (AuditLogTable.paginatedLogs (seq 0 45) 2) = 20 /\
  1 <= length (AuditLogTable.paginatedLogs (seq 0 45) 3) /\
  AuditLogTable.paginatedLogs (seq 0 45) 4 = [].
Proof.
  destruct (page_sizes (seq 0 45) 2) as (H1 & H2 & _).
  destruct (page_sizes (seq 0 45) 3) as (_ & _ & H3 & _).
  destruct (page_sizes (seq 0 45) 4) as (_ & _ & _ & H4).
  split; [exact H1|]. split; [apply H2; vm_compute; split; congruence|].
  split; [apply H3; [vm_compute; congruence|reflexivity]|].
  apply H4. reflexivity.
Defined.

Lemma showing_line_names_the_page_witness :
  let a := AuditLogTable.showing_from 3 in
  let b := AuditLogTable.showing_to (seq 0 45) 3 in
  (1 <= a <= b)%Z /\ (b <= Z.of_nat (length (seq 0 45)))%Z /\
  (Z.of_nat (length (AuditLogTable.paginatedLogs (seq 0 45) 3))
   = b - a + 1)%Z /\
  forall i : nat,
    AuditLogTable.paginatedLogs (seq 0 45) 3 !! i
    = if (Z.of_nat i <=? b - a)%Z
      then seq 0 45 !! Z.to_nat (a - 1 + Z.of_nat i)
      else None.
Proof.
  apply (showing_line_names_the_page (seq 0 45) 3).
  vm_compute. split; congruence.
Defined.

Section PageControls.
Local Open Scope Z_scope.

Lemma pageNumbers_window (cur total : Z) :
  exists first,
    AuditLogTable.pageNumbers cur total
    = List.map (fun i => (i, cur =? i)) (seqZ first (Z.min 5 total)) /\
    1 <= first /\
    (0 <= total -> first + Z.min 5 total - 1 <= total) /\
    (1 <= cur <= total -> first <= cur < first + Z.min 5 total).
Proof.
  unfold AuditLogTable.pageNumbers.
  set (s0 := Z.max 1 (cur - 2)).
  set (e := Z.min total (s0 + 5 - 1)).
  destruct (e - s0 <? 5 - 1) eqn:E.
  - apply Z.ltb_lt in E.
    destruct (Z.le_gt_cases e 0) as [He|He].
    + exists 1. replace (seqZ (Z.max 1 (e - 5 + 1)) _) with (@nil Z).
      * replace (seqZ 1 (Z.min 5 total)) with (@nil Z); [split; [easy|lia]|].
        symmetry. apply seqZ_nil. lia.
      * symmetry. apply seqZ_nil. lia.
    + exists (Z.max 1 (e - 5 + 1)). split; [|lia]. do 2 f_equal. lia.
  - apply Z.ltb_ge in E. exists s0. split; [|lia]. do 2 f_equal. lia.
Qed.

Lemma pageNumbers_in_range (cur total i : Z) (h : bool) :
  0 <= total ->
  In (i, h) (AuditLogTable.pageNumbers cur total) ->
  1 <= i <= total.
Proof.
  intros Htotal Hin.
  destruct (pageNumbers_window cur total) as (first & Heq & H1 & H2 & _).
  rewrite Heq in Hin. apply in_map_iff in Hin as (j & Hj & Hin).
  injection Hj as <- _.
  apply list_elem_of_In, elem_of_seqZ in Hin. lia.
Qed.

(** X4. The numbered buttons form a window of consecutive page
    numbers: as many as there are pages, up to five, none below 1 or
    above the last page; a button is highlighted exactly when its
    number is the current page, and the current page, when it is
    within range, is among them. *)
Theorem page_buttons_window (cur total : Z) :
  0 <= total ->
  exists first,
    List.map fst (AuditLogTable.pageNumbers cur total)
    = seqZ first (Z.min 5 total) /\
    1 <= first /\ first + Z.min 5 total - 1 <= total /\
    (forall i h, In (i, h) (AuditLogTable.pageNumbers cur total) ->
                 h = (cur =? i) /\ 1 <= i <= total) /\
    (1 <= cur <= total ->
     In (cur, true) (AuditLogTable.pageNumbers cur total)).
Proof.
  intros Htotal.
  destruct (pageNumbers_window cur total) as (first & -> & H1 & H2 & H3).
  exists first. split; [|split; [exact H1|split; [auto|split]]].
  - rewrite List.map_map. cbn [fst]. apply List.map_id.
  - intros i h Hin. apply in_map_iff in Hin as (j & Hj & Hin).
    injection Hj as <- <-. split; [reflexivity|].
    apply list_elem_of_In, elem_of_seqZ in Hin. lia.
  - intros Hcur. apply in_map_iff. exists cur. split.
    + now rewrite Z.eqb_refl.
    + apply list_elem_of_In, elem_of_seqZ. lia.
Qed.

(** X5. From a page within range, a click on any of the page controls
    (first, previous, a numbered button, next, last; a disabled one
    does nothing) leads to a page within range, and closes the
    inspected entry unless the button was disabled. *)
Theorem page_controls_stay_in_range (st : AuditLogTable.PageState)
    (total : Z) (b : AuditLogTable.Button) :
  1 <= AuditLogTable.currentPage st <= total ->
  In b (AuditLogTable.pageControls (AuditLogTable.currentPage st) total) ->
  1 <= AuditLogTable.currentPage (AuditLogTable.click b st) <= total /\
  (AuditLogTable.disabled b = false ->
   AuditLogTable.inspectingLogId (AuditLogTable.click b st) = None).
Proof.
  intros Hcur Hin. unfold AuditLogTable.pageControls in Hin.
  destruct (1 <? total) eqn:E; [|destruct Hin].
  apply Z.ltb_lt in E.
  assert (forall page d,
             (d = false -> 1 <= page <= total) ->
             let b := AuditLogTable.mkButton
                        (AuditLogTable.handlePageChange page) d in
             1 <= AuditLogTable.currentPage (AuditLogTable.click b st)
               <= total /\
             (AuditLogTable.disabled b = false ->
              AuditLogTable.inspectingLogId (AuditLogTable.click b st)
              = None)) as Hbutton.
  { intros page d Hd. unfold AuditLogTable.click. cbn.
    destruct d; [split; [exact Hcur|discriminate]|].
    cbn. split; [apply Hd|]; reflexivity. }
  apply in_app_or in Hin as [Hin|Hin];
    [|apply in_app_or in Hin as [Hin|Hin]].
  - destruct Hin as [<-|[<-|[]]]; apply Hbutton; intros Hd;
      apply Z.eqb_neq in Hd; lia.
  - unfold AuditLogTable.renderPaginationButtons in Hin.
    apply in_map_iff in Hin as ([i h] & <- & Hin).
    apply Hbutton. intros _.
    exact (pageNumbers_in_range _ total i h ltac:(lia) Hin).
  - destruct Hin as [<-|[<-|[]]]; apply Hbutton; intros Hd;
      apply Z.eqb_neq in Hd; lia.
Qed.

End PageControls.

Lemma page_buttons_window_witness :
  exists first,
    List.map fst (AuditLogTable.pageNumbers 7 10)
    = seqZ first (Z.min 5 10) /\
    (1 <= first)%Z /\ (first + Z.min 5 10 - 1 <= 10)%Z /\
    (forall i h, In (i, h) (AuditLogTable.pageNumbers 7 10) ->
                 h = (7 =? i)%Z /\ (1 <= i <= 10)%Z) /\
    ((1 <= 7 <= 10)%Z -> In (7%Z, true) (AuditLogTable.pageNumbers 7 10)).
Proof.
  apply (page_buttons_window 7 10). vm_compute. congruence.
Defined.

Lemma page_controls_stay_in_range_witness :
  let st := AuditLogTable.mkPageState 3 None 0 in
  let next := AuditLogTable.mkButton (AuditLogTable.handlePageChange 4)
                (3 =? 3)%Z in
  (1 <= AuditLogTable.currentPage (AuditLogTable.click next st) <= 3)%Z /\
  (AuditLogTable.disabled next = false ->
   AuditLogTable.inspectingLogId (AuditLogTable.click next st) = None).
Proof.
  apply (page_controls_stay_in_range (AuditLogTable.mkPageState 3 None 0) 3
           (AuditLogTable.mkButton (AuditLogTable.handlePageChange 4)
              (3 =? 3)%Z)).
  - vm_compute. split; congruence.
  - cbn. right. right. right. right. right. now left.
Defined.

(** ** Sorting and searching *)

(** X6. A click on a column header sorts by that column: ascending,
    unless the view was sorted by it ascending, and then descending.
    So further clicks on the same header alternate the direction. *)
Theorem handleSort_alternates (k : AuditLogView.SortKey)
    (cfg : AuditLogView.SortConfig) (n : nat) :
  Nat.iter (S n) (AuditLogTable.handleSort k) cfg
  = AuditLogView.mkSortConfig k
      (if xorb (Nat.even n)
              (AuditLogTable.sortkey_eqb (AuditLogView.key cfg) k &&
               match AuditLogView.direction cfg with
               | AuditLogView.asc => true
               | AuditLogView.desc => false
               end)
       then AuditLogView.asc else AuditLogView.desc).
Proof.
  induction n as [|n IH].
  - cbn. unfold AuditLogTable.handleSort.
    destruct (_ && _); reflexivity.
  - rewrite Nat.even_succ, <- Nat.negb_even.
    change (Nat.iter (S (S n)) ?f ?x) with (f (Nat.iter (S n) f x)).
    rewrite IH. unfold AuditLogTable.handleSort. cbn [AuditLogView.key
      AuditLogView.direction].
    assert (AuditLogTable.sortkey_eqb k k = true) as -> by now destruct k.
    destruct (Nat.even n), (_ && _); reflexivity.
Qed.

Lemma field_eqb_eq (a b : AuditLogView.Field) :
  Table.field_eqb a b = true <-> a = b.
Proof.
  destruct a as [x|x], b as [y|y]; cbn; split; try discriminate.
  - intros H. apply Z.eqb_eq in H. now subst.
  - intros [= ->]. apply Z.eqb_refl.
  - intros H. apply String.eqb_eq in H. now subst.
  - intros [= ->]. apply String.eqb_refl.
Qed.

Lemma js_lt_irrefl (x : AuditLogView.Field) : AuditLogView.js_lt x x = false.
Proof.
  destruct (AuditLogView.js_lt x x) eqn:E; [|reflexivity].
  pose proof (js_lt_asym x x E). congruence.
Qed.

(** Entries with equal keys compare as equal. *)
Lemma compareFn_equal_keys (cfg : AuditLogView.SortConfig)
    (a b : AuditLog.t) :
  View.sort_key cfg a = View.sort_key cfg b ->
  AuditLogView.compareFn cfg a b = 0%Z.
Proof.
  unfold AuditLogView.compareFn, View.sort_key. cbv zeta.
  intros ->. now rewrite js_lt_irrefl.
Qed.

Lemma insert_sorted_filter {A} (cmp : A -> A -> Z) (p : A -> bool) (x : A)
    (l : list A) :
  (forall y, p x = true -> p y = true -> (0 <? cmp x y)%Z = false) ->
  List.filter p (AuditLogView.insert_sorted cmp x l)
  = List.filter p (x :: l).
Proof.
  intros Hp. induction l as [|y l IH]; [reflexivity|].
  cbn [AuditLogView.insert_sorted].
  destruct (0 <? cmp x y)%Z eqn:E; [|reflexivity].
  cbn [List.filter] in *. rewrite IH.
  destruct (p x) eqn:Hx, (p y) eqn:Hy; try reflexivity.
  rewrite (Hp y eq_refl Hy) in E. discriminate.
Qed.

Lemma Array_sort_filter {A} (cmp : A -> A -> Z) (p : A -> bool) (l : list A) :
  (forall x y, p x = true -> p y = true -> (0 <? cmp x y)%Z = false) ->
  List.filter p (AuditLogView.Array_sort cmp l) = List.filter p l.
Proof.
  intros Hp. induction l as [|x l IH]; [reflexivity|].
  cbn [AuditLogView.Array_sort].
  rewrite insert_sorted_filter by (intros y; apply Hp).
  cbn [List.filter]. now rewrite IH.
Qed.

(** X7. The sort of the view is stable: among the entries shown, those
    with the same sort key (the selected field, strings in lower case)
    stand in the order they have in the ledger, whatever the column and
    the direction. *)
Theorem sort_keeps_ledger_order_of_equal_keys (logs : list AuditLog.t)
    (filter : AuditLogView.CategoryFilter) (searchQuery : string)
    (sortConfig : AuditLogView.SortConfig) :
  forallb View.serialisable logs = true ->
  exists result,
    AuditLogView.sortedAndFilteredLogs logs filter searchQuery sortConfig
    = Normal result /\
    forall k,
      List.filter (Table.has_key sortConfig k) result
      = List.filter (Table.has_key sortConfig k)
          (List.filter (View.shown filter searchQuery) logs).
Proof.
  intros Hs. unfold AuditLogView.sortedAndFilteredLogs.
  rewrite (Array_filter_pure _ (View.shown filter searchQuery)).
  2:{ rewrite forallb_forall in Hs. apply List.Forall_forall.
      intros e He. apply keeps_shown. now apply Hs. }
  eexists. split; [reflexivity|].
  intros k. apply Array_sort_filter.
  intros x y Hx Hy. unfold Table.has_key in *.
  apply field_eqb_eq in Hx, Hy.
  rewrite (compareFn_equal_keys sortConfig x y) by congruence.
  reflexivity.
Qed.

Lemma sort_keeps_ledger_order_of_equal_keys_witness :
  exists result,
    AuditLogView.sortedAndFilteredLogs
      [Sample.payout; Sample.boot; Sample.payout] AuditLogView.ALL
      EmptyString
      (AuditLogView.mkSortConfig AuditLogView.category AuditLogView.asc)
    = Normal result /\
    forall k,
      List.filter
        (Table.has_key
           (AuditLogView.mkSortConfig AuditLogView.category AuditLogView.asc)
           k) result
      = List.filter
          (Table.has_key
             (AuditLogView.mkSortConfig AuditLogView.category
                AuditLogView.asc) k)
          (List.filter (View.shown AuditLogView.ALL EmptyString)
             [Sample.payout; Sample.boot; Sample.payout]).
Proof.
  apply (sort_keeps_ledger_order_of_equal_keys
           [Sample.payout; Sample.boot; Sample.payout] AuditLogView.ALL
           EmptyString
           (AuditLogView.mkSortConfig AuditLogView.category
              AuditLogView.asc)).
  reflexivity.
Defined.

Lemma Array_sort_sorted_id {A} (cmp : A -> A -> Z) (l : list A) :
  StronglySorted (fun a b => (0 <? cmp a b)%Z = false) l ->
  AuditLogView.Array_sort cmp l = l.
Proof.
  induction 1 as [|x l Hl IH Hx]; [reflexivity|].
  cbn [AuditLogView.Array_sort]. rewrite IH.
  destruct l as [|y l]; [reflexivity|].
  cbn [AuditLogView.insert_sorted].
  apply List.Forall_inv in Hx. now rewrite Hx.
Qed.

Lemma StronglySorted_snoc {A} (R : A -> A -> Prop) (l : list A) (z : A) :
  StronglySorted R l -> Forall (fun y => R y z) l ->
  StronglySorted R (l ++ [z])%list.
Proof.
  induction 1 as [|x l Hl IH Hx]; intros Hz.
  - repeat constructor.
  - cbn. apply List.Forall_cons_iff in Hz as [Hxz Hz]. constructor.
    + now apply IH.
    + apply List.Forall_app. split; [exact Hx|now repeat constructor].
Qed.

Lemma StronglySorted_rev_map {A B} (R : A -> A -> Prop) (R' : B -> B -> Prop)
    (f : A -> B) (l : list A) :
  (forall x y, R x y -> R' (f y) (f x)) ->
  StronglySorted R l -> StronglySorted R' (rev (List.map f l)).
Proof.
  intros Hf. induction 1 as [|x l Hl IH Hx]; [constructor|].
  cbn [List.map rev]. apply StronglySorted_snoc; [exact IH|].
  rewrite List.Forall_forall in *. intros y Hy.
  apply in_rev, in_map_iff in Hy as (y' & <- & Hy). now apply Hf, Hx.
Qed.

Lemma StronglySorted_drop {A} (R : A -> A -> Prop) (n : nat) (l : list A) :
  StronglySorted R l -> StronglySorted R (drop n l).
Proof.
  intros H. revert n. induction H as [|x l Hl IH Hx]; intros [|n];
    cbn [drop]; try constructor; auto.
Qed.

(** X8. With the settings the component starts with (all categories, no
    query, newest first) the view shows the ledger as it is read, in
    the same order, provided the clock did not run backwards between
    the calls that wrote it. *)
Theorem initial_view_is_the_ledger (host : Host)
    (calls : list Ledger.Call) (w : World) :
  Ledger.reliable host ->
  localStorage w !! LoggerService.STORAGE_KEY = None ->
  forallb Ledger.call_ok calls = true ->
  Table.clock_monotone calls ->
  exists w' entries logs,
    Ledger.appends host calls w = (Normal tt, w') /\
    fst (LoggerService.getLogs host w') = Normal (VArr entries) /\
    List.map entry_of_value entries = List.map Some logs /\
    logs = rev (List.map Ledger.reloaded_entry
                  (drop (length calls - 500) calls)) /\
    AuditLogView.sortedAndFilteredLogs logs AuditLogView.ALL EmptyString
      Table.initial_sort
    = Normal logs.
Proof.
  intros Hhost Hempty Hok Hclock.
  assert (LoggerService.getLogs host w = (Normal (VArr []), w)) as Hget.
  { rewrite getLogs_spec, Hempty. now destruct Hhost as [-> _]. }
  destruct (appends_ok host calls Hhost Hok [] w w Hget)
    as (w' & Hrun & Hread).
  set (kept := drop (length calls - 500) calls).
  exists w', (rev (List.map Ledger.persisted kept)),
    (rev (List.map Ledger.reloaded_entry kept)).
  split; [exact Hrun|]. split; [|split; [|split; [reflexivity|]]].
  - rewrite Hread.
    rewrite (fold_capped Ledger.persisted calls []) by (cbn; lia).
    rewrite app_nil_r, take_rev, length_map, <- map_drop. reflexivity.
  - rewrite !List.map_rev, !List.map_map. f_equal.
    apply List.map_ext. intros c. apply persisted_entry.
  - unfold AuditLogView.sortedAndFilteredLogs.
    rewrite (Array_filter_pure _ (fun _ => true)).
    2:{ apply List.Forall_forall. intros e _. reflexivity. }
    assert (forall l : list AuditLog.t, List.filter (fun _ => true) l = l)
      as -> by (induction l as [|x l IH]; cbn; congruence).
    f_equal. apply Array_sort_sorted_id.
    apply (StronglySorted_rev_map
             (fun a b => (now (Ledger.call_tick a)
                          <= now (Ledger.call_tick b))%Z)).
    + intros x y Hxy. unfold AuditLogView.compareFn. cbn.
      destruct (Z.ltb_spec (now (Ledger.call_tick y))
                  (now (Ledger.call_tick x))); [lia|].
      destruct (Z.ltb_spec (now (Ledger.call_tick x))
                  (now (Ledger.call_tick y))); reflexivity.
    + apply StronglySorted_drop. exact Hclock.
Qed.

(** On Latin-1 text the lower case of a text is made of the lower
    cases of its parts. *)
Lemma toLowerCase_append (a b : string) :
  toLowerCase (a +:+ b) = toLowerCase a +:+ toLowerCase b.
Proof.
  induction a as [|c a IH]; [reflexivity|].
  change (String c a +:+ b) with (String c (a +:+ b)).
  cbn [toLowerCase]. rewrite IH. reflexivity.
Qed.

Lemma starts_with_prefix (p q s : string) :
  starts_with (p +:+ q) s = true -> starts_with p s = true.
Proof.
  revert s. induction p as [|c p IH]; intros s; [reflexivity|].
  cbn. destruct s as [|d s]; [discriminate|].
  intros H. apply andb_true_iff in H as [-> H]. now apply IH.
Qed.

Lemma includes_prefix (s p q : string) :
  includes s (p +:+ q) = true -> includes s p = true.
Proof.
  induction s as [|c s IH]; cbn [includes]; intros H;
    apply orb_true_iff in H as [H|H].
  - now rewrite (starts_with_prefix _ _ _ H).
  - discriminate.
  - now rewrite (starts_with_prefix _ _ _ H).
  - rewrite (IH H). apply orb_true_r.
Qed.

Lemma three_calls_monotone : Table.clock_monotone Sample.three_calls.
Proof.
  unfold Table.clock_monotone, Sample.three_calls.
  repeat (constructor; [|repeat constructor; cbn; lia]). constructor.
Defined.

Lemma initial_view_is_the_ledger_witness :
  exists w' entries logs,
    Ledger.appends Sample.host_ok Sample.three_calls Sample.fresh
    = (Normal tt, w') /\
    fst (LoggerService.getLogs Sample.host_ok w') = Normal (VArr entries) /\
    List.map entry_of_value entries = List.map Some logs /\
    logs = rev (List.map Ledger.reloaded_entry
                  (drop (length Sample.three_calls - 500)
                     Sample.three_calls)) /\
    AuditLogView.sortedAndFilteredLogs logs AuditLogView.ALL EmptyString
      Table.initial_sort
    = Normal logs.
Proof.
  apply (initial_view_is_the_ledger Sample.host_ok Sample.three_calls
           Sample.fresh).
  - exact host_ok_reliable.
  - reflexivity.
  - reflexivity.
  - exact three_calls_monotone.
Defined.

(** The callback of the filter, on a query and on a longer one. *)
Lemma keeps_longer_query (filter : AuditLogView.CategoryFilter)
    (q q' : string) (e : AuditLog.t) (b' : bool) :
  AuditLogView.keeps filter (q +:+ q') e = Normal b' ->
  exists b, AuditLogView.keeps filter q e = Normal b /\
            (b' = true -> b = true).
Proof.
  unfold AuditLogView.keeps. cbv zeta.
  set (cat := match filter with
              | AuditLogView.ALL => true
              | AuditLogView.Only c => category_eqb (AuditLog.category e) c
              end).
  destruct (String.eqb q EmptyString) eqn:Eq.
  { intros H. exists cat. split; [reflexivity|].
    intros ->. destruct (String.eqb (q +:+ q') EmptyString).
    - now injection H.
    - destruct (if includes _ _ then _ else _) as [b| |];
        [|discriminate..].
      injection H as H. now apply andb_true_iff in H as [-> _]. }
  assert (String.eqb (q +:+ q') EmptyString = false) as ->.
  { destruct q; [discriminate|reflexivity]. }
  rewrite toLowerCase_append.
  set (lq := toLowerCase q). set (lq' := toLowerCase q').
  destruct (includes (toLowerCase (AuditLog.action e)) lq) eqn:E1.
  { intros H. exists (cat && true). split; [reflexivity|].
    intros ->. destruct (if includes _ (lq +:+ lq') then _ else _)
      as [b| |]; [|discriminate..].
    injection H as H. apply andb_true_iff in H as [-> _]. reflexivity. }
  destruct (includes (toLowerCase (AuditLog.action e)) (lq +:+ lq')) eqn:E1'.
  { rewrite (includes_prefix _ _ _ E1') in E1. discriminate. }
  destruct (includes (toLowerCase (category_name (AuditLog.category e))) lq)
    eqn:E2.
  { intros H. exists (cat && true). split; [reflexivity|].
    intros ->. destruct (if includes _ (lq +:+ lq') then _ else _)
      as [b| |]; [|discriminate..].
    injection H as H. apply andb_true_iff in H as [-> _]. reflexivity. }
  destruct (includes (toLowerCase (category_name (AuditLog.category e)))
              (lq +:+ lq')) eqn:E2'.
  { rewrite (includes_prefix _ _ _ E2') in E2. discriminate. }
  unfold AuditLogView.matchesMetadata.
  destruct (AuditLog.metadata e) as [m|]; [|intros H; eauto].
  destruct (truthy m); [|intros H; eauto].
  destruct (JSON.stringify m) as [err|[text|]]; try discriminate.
  intros H. injection H as <-. eexists. split; [reflexivity|].
  intros H. apply andb_true_iff in H as [-> H].
  now rewrite (includes_prefix _ _ _ H).
Qed.

Lemma Array_filter_longer_query (filter : AuditLogView.CategoryFilter)
    (q q' : string) (logs r' : list AuditLog.t) :
  AuditLogView.Array_filter (AuditLogView.keeps filter (q +:+ q')) logs
  = Normal r' ->
  exists r,
    AuditLogView.Array_filter (AuditLogView.keeps filter q) logs = Normal r /\
    (forall e, In e r' -> In e r) /\
    length r' <= length r.
Proof.
  revert r'. induction logs as [|x logs IH]; intros r' H.
  - injection H as <-. exists []. split; [reflexivity|auto].
  - cbn [AuditLogView.Array_filter] in *.
    destruct (AuditLogView.keeps filter (q +:+ q') x) as [b'| |] eqn:Hx;
      [|discriminate..].
    destruct (AuditLogView.Array_filter _ logs) as [t'| |] eqn:Ht;
      [|discriminate..].
    injection H as <-.
    destruct (keeps_longer_query filter q q' x b' Hx) as (b & -> & Hb).
    destruct (IH t' eq_refl) as (t & -> & Hin & Hlen).
    eexists. split; [reflexivity|]. split.
    + intros e He. destruct b'.
      * rewrite (Hb eq_refl). destruct He as [<-|He]; [now left|].
        right. now apply Hin.
      * destruct b; [right|]; now apply Hin.
    + destruct b'; [rewrite (Hb eq_refl); cbn; lia|].
      destruct b; cbn; lia.
Qed.

(** X9. On Latin-1 text, which is all the text of this model and on
    which [toLowerCase] works one character at a time, typing further
    characters after a query only narrows the view: when the view of
    the longer query is computed, so is the view of the shorter one,
    and it holds every entry the longer one shows.  (Beyond Latin-1
    the lower case of a query is not the lower case of its parts, and
    the property is not claimed.) *)
Theorem longer_query_narrows_the_view (logs : list AuditLog.t)
    (filter : AuditLogView.CategoryFilter) (q q' : string)
    (sortConfig : AuditLogView.SortConfig) (r' : list AuditLog.t) :
  AuditLogView.sortedAndFilteredLogs logs filter (q +:+ q') sortConfig
  = Normal r' ->
  exists r,
    AuditLogView.sortedAndFilteredLogs logs filter q sortConfig = Normal r /\
    (forall e, In e r' -> In e r) /\
    length r' <= length r.
Proof.
  unfold AuditLogView.sortedAndFilteredLogs. intros H.
  destruct (AuditLogView.Array_filter _ logs) as [t'| |] eqn:Ht;
    [|discriminate..].
  injection H as <-.
  destruct (Array_filter_longer_query filter q q' logs t' Ht)
    as (t & -> & Hin & Hlen).
  eexists. split; [reflexivity|]. split.
  - intros e He.
    apply (Permutation_in _ (Array_sort_perm _ t')) in He.
    apply (Permutation_in _ (Permutation_sym (Array_sort_perm _ t))).
    now apply Hin.
  - rewrite (Permutation_length (Array_sort_perm _ t')),
      (Permutation_length (Array_sort_perm _ t)). exact Hlen.
Qed.

Lemma longer_query_narrows_the_view_witness :
  exists r,
    AuditLogView.sortedAndFilteredLogs [Sample.boot; Sample.payout]
      AuditLogView.ALL "pay" Sample.by_newest
    = Normal r /\
    (forall e, In e [Sample.payout] -> In e r) /\
    length [Sample.payout] <= length r.
Proof.
  apply (longer_query_narrows_the_view [Sample.boot; Sample.payout]
           AuditLogView.ALL "pay" "out" Sample.by_newest [Sample.payout]).
  reflexivity.
Defined.

Lemma Array_filter_length {A} (p : A -> Completion bool) (l r : list A) :
  AuditLogView.Array_filter p l = Normal r -> length r <= length l.
Proof.
  revert r. induction l as [|x l IH]; intros r H.
  - injection H as <-. reflexivity.
  - cbn [AuditLogView.Array_filter] in H.
    destruct (p x) as [b| |]; [|discriminate..].
    destruct (AuditLogView.Array_filter p l) as [t| |]; [|discriminate..].
    injection H as <-. specialize (IH t eq_refl).
    destruct b; cbn; lia.
Qed.

(** X10. The view never shows more entries than the ledger holds: with
    a ledger within its cap of 500 entries there are at most 25 pages,
    whatever the filter, the query and the sort. *)
Theorem view_has_at_most_25_pages (logs : list AuditLog.t)
    (filter : AuditLogView.CategoryFilter) (searchQuery : string)
    (sortConfig : AuditLogView.SortConfig) (shown : list AuditLog.t) :
  AuditLogView.sortedAndFilteredLogs logs filter searchQuery sortConfig
  = Normal shown ->
  length logs <= 500 ->
  length shown <= length logs /\
  (0 <= AuditLogTable.totalPages shown <= 25)%Z.
Proof.
  unfold AuditLogView.sortedAndFilteredLogs. intros H Hcap.
  destruct (AuditLogView.Array_filter _ logs) as [t| |] eqn:Ht;
    [|discriminate..].
  injection H as <-. apply Array_filter_length in Ht.
  rewrite <- (Permutation_length (Array_sort_perm
                                     (AuditLogView.compareFn sortConfig) t))
    in Ht.
  split; [exact Ht|].
  destruct (totalPages_bounds
              (AuditLogView.Array_sort (AuditLogView.compareFn sortConfig) t))
    as (H0 & _ & _ & _ & Hlt).
  lia.
Qed.

Lemma view_has_at_most_25_pages_witness :
  length [Sample.boot] <= length [Sample.boot; Sample.payout] /\
  (0 <= AuditLogTable.totalPages [Sample.boot] <= 25)%Z.
Proof.
  apply (view_has_at_most_25_pages [Sample.boot; Sample.payout]
           (AuditLogView.Only SYSTEM) EmptyString Sample.by_newest
           [Sample.boot]).
  - reflexivity.
  - cbn. lia.
Defined.

(** ** More on the ledger *)

(** X11. [getLogs] only reads: it never throws, leaves the storage as
    it is, writes at most one message to the console, and returns the
    same value when it is called again. *)
Theorem getLogs_only_reads (host : Host) (w : World) :
  let w' := snd (LoggerService.getLogs host w) in
  (forall e w1, LoggerService.getLogs host w <> (Throw e, w1)) /\
  localStorage w' = localStorage w /\
  (trace w' = trace w \/
   exists e,
     trace w' = (trace w ++ [ConsoleError "Failed to load audit ledger:" e])%list) /\
  fst (LoggerService.getLogs host w') = fst (LoggerService.getLogs host w).
Proof.
  cbv zeta. split; [|split; [|split]].
  - intros e w1. rewrite getLogs_spec.
    destruct (access_denied host); [discriminate|].
    destruct (localStorage w !! LoggerService.STORAGE_KEY) as [s|];
      [|discriminate].
    destruct (String.eqb s EmptyString); [discriminate|].
    destruct (JSON.parse s); discriminate.
  - rewrite getLogs_spec.
    destruct (access_denied host); [reflexivity|].
    destruct (localStorage w !! LoggerService.STORAGE_KEY) as [s|];
      [|reflexivity].
    destruct (String.eqb s EmptyString); [reflexivity|].
    destruct (JSON.parse s); reflexivity.
  - rewrite getLogs_spec.
    destruct (access_denied host); [right; now eexists|].
    destruct (localStorage w !! LoggerService.STORAGE_KEY) as [s|];
      [|now left].
    destruct (String.eqb s EmptyString); [now left|].
    destruct (JSON.parse s); [now left|right; now eexists|now left].
  - apply getLogs_storage.
    rewrite getLogs_spec.
    destruct (access_denied host); [reflexivity|].
    destruct (localStorage w !! LoggerService.STORAGE_KEY) as [s|];
      [|reflexivity].
    destruct (String.eqb s EmptyString); [reflexivity|].
    destruct (JSON.parse s); reflexivity.
Qed.

Lemma getLogs_only_reads_witness :
  let w := Sample.holding "[1," in
  let w' := snd (LoggerService.getLogs Sample.host_ok w) in
  (forall e w1, LoggerService.getLogs Sample.host_ok w <> (Throw e, w1)) /\
  localStorage w' = localStorage w /\
  (trace w' = trace w \/
   exists e,
     trace w'
     = (trace w ++ [ConsoleError "Failed to load audit ledger:" e])%list) /\
  fst (LoggerService.getLogs Sample.host_ok w')
  = fst (LoggerService.getLogs Sample.host_ok w).
Proof.
  exact (getLogs_only_reads Sample.host_ok (Sample.holding "[1,")).
Defined.

(** X12. The ledger touches no key of the storage but its own: [log],
    [clearLogs] and [getLogs] leave the value under every other key as
    it was, whatever the host and the stored text. *)
Theorem ledger_touches_only_its_key (host : Host) (w : World) (k : string) :
  k <> LoggerService.STORAGE_KEY ->
  (forall c, localStorage (snd (Ledger.append host c w)) !! k
             = localStorage w !! k) /\
  (forall t, localStorage (snd (LoggerService.clearLogs host t w)) !! k
             = localStorage w !! k) /\
  localStorage (snd (LoggerService.getLogs host w)) !! k
  = localStorage w !! k.
Proof.
  intros Hk.
  assert (forall c, localStorage (snd (Ledger.append host c w)) !! k
                    = localStorage w !! k) as Happend.
  { intros c.
    destruct (append_cases host c w)
      as [(v & items & w1 & Hget & _ & _ & Hst & _ & _ & ->)
         |[(e & w1 & _ & _ & Hst & ->)|(_ & ->)]]; cbn.
    - rewrite lookup_insert_ne by congruence. now rewrite Hst.
    - now rewrite Hst.
    - reflexivity. }
  split; [exact Happend|]. split.
  - intros t. specialize (Happend (Ledger.purge_call t)).
    destruct (clearLogs_cases host t w) as [(w1 & Hlog & ->)|(_ & ->)];
      [|reflexivity].
    rewrite Hlog in Happend. cbn in Happend.
    destruct (access_denied host); cbn; [exact Happend|].
    rewrite lookup_delete_ne by congruence. exact Happend.
  - destruct (getLogs_completion host w)
      as [(v & w1 & -> & _ & Hst)|(-> & _)]; [|reflexivity].
    cbn. now rewrite Hst.
Qed.

Lemma ledger_touches_only_its_key_witness :
  let w := mkWorld (<["cloudmine_whitelist" := "[]"]> ∅) [] in
  (forall c, localStorage (snd (Ledger.append Sample.host_ok c w))
               !! "cloudmine_whitelist"
             = localStorage w !! "cloudmine_whitelist") /\
  (forall t, localStorage (snd (LoggerService.clearLogs Sample.host_ok t w))
               !! "cloudmine_whitelist"
             = localStorage w !! "cloudmine_whitelist") /\
  localStorage (snd (LoggerService.getLogs Sample.host_ok w))
    !! "cloudmine_whitelist"
  = localStorage w !! "cloudmine_whitelist".
Proof.
  apply (ledger_touches_only_its_key Sample.host_ok
           (mkWorld (<["cloudmine_whitelist" := "[]"]> ∅) [])
           "cloudmine_whitelist").
  discriminate.
Defined.

(** X13. On a host that denies the storage [clearLogs] throws: the
    purge call of [log] ends in the console, with one message for the
    read and one for the write, and the [removeItem] that follows is
    not guarded; the SecurityError reaches the caller.  Nothing is
    stored, removed or notified. *)
Theorem clearLogs_throws_when_storage_is_denied (host : Host) (t : Tick)
    (w : World) :
  access_denied host = true ->
  LoggerService.clearLogs host t w
  = (Throw SecurityError,
     mkWorld (localStorage w)
       (trace w ++
        [ConsoleError "Failed to load audit ledger:" SecurityError;
         ConsoleError "Failed to save audit log:" SecurityError])%list).
Proof.
  intros Hden. rewrite (clearLogs_denied host t w Hden).
  unfold Ledger.save_failed, Ledger.load_failed. cbn.
  now rewrite <- app_assoc.
Qed.

Lemma clearLogs_throws_when_storage_is_denied_witness :
  LoggerService.clearLogs Sample.host_denied (mkTick "0.4fzyo82mvyr" 7)
    (Sample.holding "[1,2,3]")
  = (Throw SecurityError,
     mkWorld (localStorage (Sample.holding "[1,2,3]"))
       (trace (Sample.holding "[1,2,3]") ++
        [ConsoleError "Failed to load audit ledger:" SecurityError;
         ConsoleError "Failed to save audit log:" SecurityError])%list).
Proof.
  apply (clearLogs_throws_when_storage_is_denied Sample.host_denied
           (mkTick "0.4fzyo82mvyr" 7) (Sample.holding "[1,2,3]")).
  reflexivity.
Defined.

(** X14. The purge button: when the dialog is declined nothing
    happens; when it is confirmed and the storage can be used, the
    view is given the empty list and the key is gone; when the storage
    is denied the handler throws before it updates the view, which
    keeps showing its entries. *)
Theorem handleClear_outcomes (host : Host) (t : Tick) (w : World) :
  AuditLogTable.handleClear host t false w = (Normal None, w) /\
  (access_denied host = false -> Ledger.ledger_in_model w = true ->
   exists w',
     AuditLogTable.handleClear host t true w = (Normal (Some (VArr [])), w') /\
     localStorage w' !! LoggerService.STORAGE_KEY = None) /\
  (access_denied host = true ->
   exists w',
     AuditLogTable.handleClear host t true w = (Throw SecurityError, w') /\
     localStorage w' = localStorage w).
Proof.
  split; [reflexivity|]. split.
  - intros Hok Hmodel. unfold AuditLogTable.handleClear, bind.
    destruct (clearLogs_cases host t w) as [(w1 & Hlog & Hclear)|(H & _)];
      [|congruence].
    rewrite Hok in Hclear. rewrite Hclear.
    assert (LoggerService.getLogs host (Ledger.removed w1)
            = (Normal (VArr []), Ledger.removed w1)) as ->.
    { rewrite getLogs_spec, Hok. cbn [Ledger.removed localStorage].
      now rewrite lookup_delete_eq. }
    eexists. split; [reflexivity|].
    cbn [Ledger.removed localStorage]. apply lookup_delete_eq.
  - intros Hden. unfold AuditLogTable.handleClear, bind.
    rewrite (clearLogs_denied host t w Hden).
    eexists. split; reflexivity.
Qed.

Lemma handleClear_outcomes_witness :
  AuditLogTable.handleClear Sample.host_ok (mkTick "0.4fzyo82mvyr" 7) false
    (Sample.holding "[1,2,3]")
  = (Normal None, Sample.holding "[1,2,3]") /\
  (exists w',
      AuditLogTable.handleClear Sample.host_ok (mkTick "0.4fzyo82mvyr" 7)
        true (Sample.holding "[1,2,3]")
      = (Normal (Some (VArr [])), w') /\
      localStorage w' !! LoggerService.STORAGE_KEY = None) /\
  (exists w',
      AuditLogTable.handleClear Sample.host_denied
        (mkTick "0.4fzyo82mvyr" 7) true (Sample.holding "[1,2,3]")
      = (Throw SecurityError, w') /\
      localStorage w' = localStorage (Sample.holding "[1,2,3]")).
Proof.
  destruct (handleClear_outcomes Sample.host_ok (mkTick "0.4fzyo82mvyr" 7)
              (Sample.holding "[1,2,3]")) as (H1 & H2 & _).
  destruct (handleClear_outcomes Sample.host_denied
              (mkTick "0.4fzyo82mvyr" 7) (Sample.holding "[1,2,3]"))
    as (_ & _ & H3).
  split; [exact H1|]. split; [apply H2; reflexivity|apply H3; reflexivity].
Defined.

(** X15. A stored text that [JSON.parse] rejects is lost at the next
    [log]: the read reports it on the console and yields the empty
    sequence, and the write replaces the text by a ledger of one
    entry, the new one. *)
Theorem log_replaces_an_unreadable_ledger (host : Host) (c : Ledger.Call)
    (w : World) (s : string) :
  Ledger.reliable host ->
  Ledger.call_ok c = true ->
  localStorage w !! LoggerService.STORAGE_KEY = Some s ->
  s <> EmptyString ->
  JSON.parse s = JSON.Malformed ->
  exists w' text,
    Ledger.append host c w = (Normal tt, w') /\
    trace w'
    = (trace w ++
       [ConsoleError "Failed to load audit ledger:" SyntaxError;
        SetItem LoggerService.STORAGE_KEY text;
        DispatchEvent "audit-log-updated" (Ledger.entry c)])%list /\
    localStorage w' !! LoggerService.STORAGE_KEY = Some text /\
    LoggerService.getLogs host w' = (Normal (VArr [Ledger.persisted c]), w').
Proof.
  intros Hhost Hok Hs Hne Hbad.
  assert (LoggerService.getLogs host w
          = (Normal (VArr []), Ledger.load_failed SyntaxError w)) as Hget.
  { rewrite getLogs_spec, Hs, Hbad. destruct Hhost as [-> _].
    destruct (String.eqb s EmptyString) eqn:E; [|reflexivity].
    apply String.eqb_eq in E. contradiction. }
  destruct (append_ok host c [] w _ Hhost Hok Hget) as [Hrun Hjson].
  cbv zeta in Hrun.
  change (Ledger.capped (Ledger.persisted c) []) with [Ledger.persisted c]
    in *.
  eexists _, _. split; [exact Hrun|]. split; [|split].
  - cbn. rewrite <- app_assoc. reflexivity.
  - cbn. apply lookup_insert_eq.
  - apply getLogs_written; [now destruct Hhost|exact Hjson].
Qed.

Lemma log_replaces_an_unreadable_ledger_witness :
  exists w' text,
    Ledger.append Sample.host_ok Sample.fourth_call (Sample.holding "[1,")
    = (Normal tt, w') /\
    trace w'
    = (trace (Sample.holding "[1,") ++
       [ConsoleError "Failed to load audit ledger:" SyntaxError;
        SetItem LoggerService.STORAGE_KEY text;
        DispatchEvent "audit-log-updated"
          (Ledger.entry Sample.fourth_call)])%list /\
    localStorage w' !! LoggerService.STORAGE_KEY = Some text /\
    LoggerService.getLogs Sample.host_ok w'
    = (Normal (VArr [Ledger.persisted Sample.fourth_call]), w').
Proof.
  apply (log_replaces_an_unreadable_ledger Sample.host_ok Sample.fourth_call
           (Sample.holding "[1,") "[1,").
  - exact host_ok_reliable.
  - reflexivity.
  - reflexivity.
  - discriminate.
  - reflexivity.
Defined.

(** X16. A stored text that is JSON but denotes no sequence (a number,
    an object, [null], a boolean) is never repaired by [log]: every
    call fails at the spread, reports it on the console and writes
    nothing, so the text stays, and [getLogs] goes on returning its
    value, until [clearLogs] removes the key. *)
Theorem log_never_repairs_a_non_sequence (host : Host)
    (calls : list Ledger.Call) (w : World) (s : string) (v : JsVal) :
  access_denied host = false ->
  localStorage w !! LoggerService.STORAGE_KEY = Some s ->
  JSON.parse s = JSON.Ok v ->
  iterate v = None ->
  Ledger.appends host calls w
  = (Normal tt,
     mkWorld (localStorage w)
       (trace w ++
        List.map (fun _ => ConsoleError "Failed to save audit log:" TypeError)
          calls)%list) /\
  forall w', localStorage w' = localStorage w ->
             LoggerService.getLogs host w' = (Normal v, w').
Proof.
  intros Hok Hs Hv Hiter.
  assert (forall w', localStorage w' = localStorage w ->
                     LoggerService.getLogs host w' = (Normal v, w')) as Hget.
  { intros w' Hst. apply (getLogs_returns_parsed host w' s v Hok);
      [now rewrite Hst|exact Hv]. }
  split; [|exact Hget].
  assert (forall w', localStorage w' = localStorage w ->
            Ledger.appends host calls w'
            = (Normal tt,
               mkWorld (localStorage w')
                 (trace w' ++
                  List.map (fun _ => ConsoleError "Failed to save audit log:"
                                       TypeError) calls)%list)) as H.
  { induction calls as [|c calls IH]; intros w' Hst.
    - cbn. rewrite app_nil_r. now destruct w'.
    - cbn [Ledger.appends List.map]. unfold bind, Ledger.append.
      rewrite log_spec. cbv zeta. rewrite (Hget w' Hst), Hiter.
      rewrite IH by exact Hst. cbn. now rewrite <- app_assoc. }
  now apply H.
Qed.

Lemma log_never_repairs_a_non_sequence_witness :
  Ledger.appends Sample.host_ok Sample.three_calls (Sample.holding "{}")
  = (Normal tt,
     mkWorld (localStorage (Sample.holding "{}"))
       (trace (Sample.holding "{}") ++
        List.map (fun _ => ConsoleError "Failed to save audit log:" TypeError)
          Sample.three_calls)%list) /\
  forall w', localStorage w' = localStorage (Sample.holding "{}") ->
             LoggerService.getLogs Sample.host_ok w' = (Normal (VObj []), w').
Proof.
  apply (log_never_repairs_a_non_sequence Sample.host_ok Sample.three_calls
           (Sample.holding "{}") "{}" (VObj [])); reflexivity.
Defined.

(** X17. A stored text that is a JSON string is taken for a sequence:
    [log] spreads it into its characters and writes a ledger made of
    the new entry followed by one string per character. *)
Theorem log_spreads_a_stored_string (host : Host) (c : Ledger.Call)
    (w : World) (s text : string) :
  Ledger.reliable host ->
  Ledger.call_ok c = true ->
  localStorage w !! LoggerService.STORAGE_KEY = Some s ->
  JSON.parse s = JSON.Ok (VStr text) ->
  exists w',
    Ledger.append host c w = (Normal tt, w') /\
    fst (LoggerService.getLogs host w')
    = Normal (VArr (take 500
                      (Ledger.persisted c
                       :: List.map (fun ch => VStr (String ch EmptyString))
                            (list_ascii_of_string text)))).
Proof.
  intros Hhost Hok Hs Hv.
  pose proof Hhost as [Hacc Hquota].
  pose proof (getLogs_returns_parsed host w s (VStr text) Hacc Hs Hv) as Hget.
  assert (forall l : list ascii,
             forallb is_json
               (List.map (fun ch => VStr (String ch EmptyString)) l) = true)
    as Hchars by (induction l as [|ch l IH]; [reflexivity|exact IH]).
  set (items := List.map (fun ch => VStr (String ch EmptyString))
                  (list_ascii_of_string text)).
  pose proof (Hchars (list_ascii_of_string text)) as Hitems. fold items in Hitems.
  destruct (written_kept c (VStr text) items Hok eq_refl eq_refl)
    as [Hkept Hjson].
  unfold Ledger.append. rewrite log_spec. cbv zeta. rewrite Hget.
  cbn [iterate]. fold items. fold (Ledger.entry c).
  assert (JSON.has_bigint (VArr (Ledger.capped (Ledger.entry c) items))
          = false) as ->.
  { cbn [JSON.has_bigint]. unfold Ledger.capped. apply existsb_take.
    cbn [existsb]. unfold Ledger.call_ok in Hok.
    apply andb_true_iff in Hok as [_ Hbig]. apply negb_true_iff in Hbig.
    rewrite Hbig. now apply no_bigint_json. }
  rewrite Hacc, Hquota, Hkept.
  eexists. split; [reflexivity|].
  rewrite (getLogs_written host _ _ _ Hacc Hjson). reflexivity.
Qed.

Lemma log_spreads_a_stored_string_witness :
  exists w',
    Ledger.append Sample.host_ok Sample.fourth_call
      (Sample.holding (JSON.quote "ab"))
    = (Normal tt, w') /\
    fst (LoggerService.getLogs Sample.host_ok w')
    = Normal (VArr (take 500
                      (Ledger.persisted Sample.fourth_call
                       :: List.map (fun ch => VStr (String ch EmptyString))
                            (list_ascii_of_string "ab")))).
Proof.
  apply (log_spreads_a_stored_string Sample.host_ok Sample.fourth_call
           (Sample.holding (JSON.quote "ab")) (JSON.quote "ab") "ab").
  - exact host_ok_reliable.
  - reflexivity.
  - reflexivity.
  - reflexivity.
Defined.

(** ** Identifiers in the table *)

Lemma upper36_upper_char (c : ascii) :
  Ledger.base36_char c = true -> Ident.upper36_char (upper_char c) = true.
Proof.
  unfold Ledger.base36_char, Ident.upper36_char. intros H.
  assert (forall x, Ascii.eqb x "." = true -> N_of_ascii x = 46%N) as Hdot
    by (intros x Hx; apply Ascii.eqb_eq in Hx; now subst x).
  unfold in_range in *. rewrite !N_upper_char. unfold in_range.
  repeat match goal with
         | H : (_ || _) = true |- _ => apply orb_true_iff in H as [H|H]
         | H : (_ && _) = true |- _ => apply andb_true_iff in H as [? H]
         | H : (_ <=? _)%N = true |- _ => apply N.leb_le in H
         | H : Ascii.eqb _ "." = true |- _ => pose proof (Hdot _ H); clear H
         end.
  - destruct (N.leb_spec 97 (N_of_ascii c)); [lia|]. cbn [andb].
    apply orb_true_iff. left. apply orb_true_iff. left.
    apply andb_true_iff. split; apply N.leb_le; lia.
  - destruct (N.leb_spec 97 (N_of_ascii c)); [|lia].
    destruct (N.leb_spec (N_of_ascii c) 122); [|lia]. cbn [andb].
    apply orb_true_iff. left. apply orb_true_iff. right.
    apply andb_true_iff. split; apply N.leb_le; lia.
  - destruct (N.leb_spec 97 (N_of_ascii c)); [lia|]. cbn [andb].
    apply orb_true_iff. right.
    unfold upper_char, in_range.
    destruct (N.leb_spec 97 (N_of_ascii c)); [lia|]. cbn [andb].
    rewrite <- (ascii_N_embedding c). now rewrite H0.
Qed.

Lemma upper36_toUpperCase (s : string) :
  Ledger.base36_text s = true -> Ident.upper36_text (toUpperCase s) = true.
Proof.
  induction s as [|c s IH]; [reflexivity|].
  cbn [Ledger.base36_text toUpperCase Ident.upper36_text].
  intros H. apply andb_true_iff in H as [Hc Hs].
  now rewrite (upper36_upper_char c Hc), (IH Hs).
Qed.

(** The random part of an id made by [log] is a base-36 numeral in
    upper case. *)
Lemma log_id_upper36 (t : Tick) :
  Ledger.base36_text (random36 t) = true ->
  Ident.upper36_text (toUpperCase (substr 2 9 (random36 t))) = true.
Proof.
  intros H. apply upper36_toUpperCase. unfold substr.
  now apply base36_take, base36_drop.
Qed.

Lemma upper36_free_of (c : ascii) (s : string) :
  Ident.upper36_char c = false ->
  Ident.upper36_text s = true -> Ident.free_of c s = true.
Proof.
  intros Hc. induction s as [|x s IH]; [reflexivity|].
  cbn [Ident.upper36_text Ident.free_of]. intros H.
  apply andb_true_iff in H as [Hx Hs]. rewrite (IH Hs), andb_true_r.
  apply negb_true_iff. destruct (Ascii.eqb x c) eqn:E; [|reflexivity].
  apply Ascii.eqb_eq in E. subst x. congruence.
Qed.

Lemma split_free_of (sep : ascii) (s : string) :
  Ident.free_of sep s = true -> split sep s = [s].
Proof.
  induction s as [|x s IH]; [reflexivity|].
  cbn [Ident.free_of split]. intros H. apply andb_true_iff in H as [Hx Hs].
  apply negb_true_iff in Hx. now rewrite Hx, (IH Hs).
Qed.

(** X18. For an id made by [log] the table shows, after the [#],
    exactly the random part of the id: the nine base-36 digits (or
    fewer, when the numeral is short) in upper case. *)
Theorem id_label_is_the_random_part (t : Tick) :
  Ledger.base36_text (random36 t) = true ->
  AuditLogTable.id_label (LoggerService.log_id t)
  = Some (toUpperCase (substr 2 9 (random36 t))) /\
  String.length (toUpperCase (substr 2 9 (random36 t))) <= 9.
Proof.
  intros H. split.
  - unfold AuditLogTable.id_label, LoggerService.log_id.
    set (u := toUpperCase (substr 2 9 (random36 t))).
    change ("LOG-" +:+ u) with (String "L" (String "O" (String "G"
                                  (String "-" u)))).
    cbn [split Ascii.eqb Bool.eqb].
    rewrite (split_free_of "-" u); [reflexivity|].
    apply upper36_free_of; [reflexivity|]. now apply log_id_upper36.
  - unfold substr. generalize (drop_chars 2 (random36 t)). intros s.
    assert (forall n s, String.length (toUpperCase (take_chars n s)) <= n)
      as Hlen.
    { induction n as [|n IH]; intros [|c r]; cbn; try lia.
      specialize (IH r). lia. }
    apply Hlen.
Qed.

Lemma id_label_is_the_random_part_witness :
  AuditLogTable.id_label (LoggerService.log_id (mkTick "0.4fzyo82mvyr" 5))
  = Some (toUpperCase (substr 2 9 "0.4fzyo82mvyr")) /\
  String.length (toUpperCase (substr 2 9 "0.4fzyo82mvyr")) <= 9.
Proof.
  apply (id_label_is_the_random_part (mkTick "0.4fzyo82mvyr" 5)).
  reflexivity.
Defined.

(** ** The export *)

Section Reader.
Import CSV.

Lemma prepend_field (a f : string) (fs : list string)
    (rs : list (list string)) :
  prepend a (Some ((f :: fs) :: rs)) = Some (((a +:+ f) :: fs) :: rs).
Proof.
  induction a as [|c a IH]; [reflexivity|].
  cbn [prepend]. now rewrite IH.
Qed.

Lemma scan_boundary (rest : string) :
  boundary rest = true ->
  scan Unquoted rest = scan FieldStart rest /\
  scan QuoteSeen rest = scan FieldStart rest.
Proof.
  destruct rest as [|c r]; [now split|].
  cbn [boundary scan]. intros H.
  destruct (Ascii.eqb c JSON.dquote) eqn:Eq.
  { apply Ascii.eqb_eq in Eq. subst c. discriminate. }
  destruct (Ascii.eqb c ","); [now split|].
  destruct (Ascii.eqb c LF); [now split|discriminate].
Qed.

Lemma scan_unquoted (a rest : string) :
  plain a = true ->
  scan Unquoted (a +:+ rest) = prepend a (scan Unquoted rest).
Proof.
  induction a as [|c a IH]; [reflexivity|].
  cbn [plain]. intros H. apply andb_true_iff in H as [Hc Ha].
  unfold plain_char in Hc.
  apply andb_true_iff in Hc as [Hc H3]. apply andb_true_iff in Hc as [H1 H2].
  apply negb_true_iff in H1, H2, H3.
  change (String c a +:+ rest) with (String c (a +:+ rest)).
  cbn [scan prepend]. now rewrite H1, H2, H3, (IH Ha).
Qed.

(** A field written without quotes is read as it is. *)
Lemma scan_plain_field (a rest : string) :
  plain a = true -> boundary rest = true ->
  scan FieldStart (a +:+ rest) = prepend a (scan FieldStart rest).
Proof.
  intros Ha Hrest. destruct (scan_boundary rest Hrest) as [Hu _].
  destruct a as [|c a]; [reflexivity|].
  cbn [plain] in Ha. apply andb_true_iff in Ha as [Hc Ha].
  unfold plain_char in Hc.
  apply andb_true_iff in Hc as [Hc H3]. apply andb_true_iff in Hc as [H1 H2].
  apply negb_true_iff in H1, H2, H3.
  change (String c a +:+ rest) with (String c (a +:+ rest)).
  cbn [scan prepend]. now rewrite H1, H2, H3, (scan_unquoted a rest Ha), Hu.
Qed.

Lemma scan_quoted (a rest : string) :
  scan Quoted
    (replace_char JSON.dquote
       (String JSON.dquote (String JSON.dquote EmptyString)) a
     +:+ String JSON.dquote rest)
  = prepend a (scan QuoteSeen rest).
Proof.
  induction a as [|c a IH].
  - cbn [replace_char prepend].
    change (EmptyString +:+ ?x) with x.
    cbn [scan]. now rewrite Ascii.eqb_refl.
  - cbn [replace_char prepend]. destruct (Ascii.eqb c JSON.dquote) eqn:E.
    + apply Ascii.eqb_eq in E. subst c.
      rewrite append_assoc.
      change (String JSON.dquote (String JSON.dquote EmptyString) +:+ ?x)
        with (String JSON.dquote (String JSON.dquote x)).
      cbn [scan]. rewrite !Ascii.eqb_refl. now rewrite IH.
    + change (String c ?x +:+ ?y) with (String c (x +:+ y)).
      cbn [scan]. now rewrite E, IH.
Qed.

(** A field written by [AuditLogTable.quoted] is read as the text that
    was put in quotes. *)
Lemma scan_quoted_field (a rest : string) :
  boundary rest = true ->
  scan FieldStart (AuditLogTable.quoted a +:+ rest)
  = prepend a (scan FieldStart rest).
Proof.
  intros Hrest. destruct (scan_boundary rest Hrest) as [_ Hq].
  unfold AuditLogTable.quoted.
  change (String JSON.dquote ?x +:+ rest)
    with (String JSON.dquote (x +:+ rest)).
  cbn [scan]. rewrite Ascii.eqb_refl.
  rewrite append_assoc.
  change (String JSON.dquote EmptyString +:+ rest)
    with (String JSON.dquote rest).
  now rewrite scan_quoted, Hq.
Qed.

End Reader.

Section Records.
Import CSV.

Lemma scan_field (raw enc rest : string) :
  encodes raw enc -> boundary rest = true ->
  scan FieldStart (enc +:+ rest) = prepend raw (scan FieldStart rest).
Proof.
  intros [[-> Hplain]| ->] Hrest.
  - now apply scan_plain_field.
  - now apply scan_quoted_field.
Qed.

Lemma scan_comma (r : string) :
  scan FieldStart (String "," r) = end_field (scan FieldStart r).
Proof. reflexivity. Qed.

Lemma scan_line_feed (r : string) :
  scan FieldStart (String LF r) = end_record (scan FieldStart r).
Proof. reflexivity. Qed.

(** A record: the fields as they are written, joined by commas. *)
Lemma scan_record (raws encs : list string) (rest : string)
    (rs : list (list string)) :
  Forall2 encodes raws encs -> raws <> [] ->
  boundary rest = true ->
  scan FieldStart rest = Some ([EmptyString] :: rs) ->
  scan FieldStart (String.concat "," encs +:+ rest) = Some (raws :: rs).
Proof.
  intros Hall. induction Hall as [|raw enc raws encs Henc Hall IH];
    intros Hne Hrest Hscan; [contradiction|].
  destruct Hall as [|raw2 enc2 raws encs Henc2 Hall].
  - cbn [String.concat]. rewrite (scan_field raw enc rest Henc Hrest), Hscan.
    now rewrite prepend_field, append_nil_r.
  - change (String.concat "," (enc :: enc2 :: encs))
      with (enc +:+ "," +:+ String.concat "," (enc2 :: encs)).
    rewrite !append_assoc.
    change ("," +:+ ?x) with (String "," x).
    rewrite (scan_field raw enc
               (String "," (String.concat "," (enc2 :: encs) +:+ rest))
               Henc eq_refl).
    rewrite scan_comma.
    rewrite IH; [|discriminate|exact Hrest|exact Hscan].
    cbn [end_field]. now rewrite prepend_field, append_nil_r.
Qed.

(** A text: the records joined by line feeds. *)
Lemma scan_records (lines : list (list string * list string)) :
  lines <> [] ->
  Forall (fun line => Forall2 encodes (fst line) (snd line) /\
                      fst line <> []) lines ->
  read (String.concat (String LF EmptyString)
          (List.map (fun line => String.concat "," (snd line)) lines))
  = Some (List.map fst lines).
Proof.
  unfold read. intros Hne Hall.
  induction Hall as [|[raws encs] lines [Henc Hraws] Hall IH];
    [contradiction|].
  cbn [fst snd] in *. destruct lines as [|line2 lines].
  - change (scan FieldStart (String.concat "," encs) = Some [raws]).
    rewrite <- (append_nil_r (String.concat "," encs)).
    now apply scan_record.
  - change (String.concat ?sep (List.map ?f ((raws, encs) :: line2 :: lines)))
      with (String.concat "," encs +:+ sep +:+
            String.concat sep (List.map f (line2 :: lines))).
    change (String LF EmptyString +:+ ?x) with (String LF x).
    apply scan_record; [exact Henc|exact Hraws|..].
    + cbn [boundary]. now rewrite Ascii.eqb_refl, orb_true_r.
    + rewrite scan_line_feed.
      rewrite IH by discriminate. reflexivity.
Qed.

Lemma plain_append (a b : string) :
  plain (a +:+ b) = plain a && plain b.
Proof.
  induction a as [|c a IH]; [reflexivity|].
  change (String c a +:+ b) with (String c (a +:+ b)).
  cbn [plain]. now rewrite IH, andb_assoc.
Qed.

Lemma plain_uint (d : Decimal.uint) :
  plain (NilEmpty.string_of_uint d) = true.
Proof.
  induction d as [|d IH|d IH|d IH|d IH|d IH|d IH|d IH|d IH|d IH|d IH];
    [reflexivity|..]; cbn [NilEmpty.string_of_uint plain]; now rewrite IH.
Qed.

Lemma plain_print_int (z : Z) : plain (JSON.print_int z) = true.
Proof.
  destruct z as [|p|p]; [reflexivity| |]; unfold JSON.print_int;
    cbn [plain]; unfold JSON.print_nat; now rewrite plain_uint.
Qed.

Lemma plain_pad (width : nat) (n : Z) : plain (Date.pad width n) = true.
Proof.
  unfold Date.pad. rewrite plain_append. unfold JSON.print_nat.
  rewrite plain_uint, andb_true_r.
  induction (width - _)%nat as [|k IH]; [reflexivity|exact IH].
Qed.

Lemma plain_toISOString (t : Z) (s : string) :
  Date.toISOString t = Normal s -> plain s = true.
Proof.
  unfold Date.toISOString. destruct (Date.valid t); [|discriminate].
  intros [= <-].
  assert (forall y, plain (Date.year_text y) = true) as Hyear.
  { intros y. unfold Date.year_text.
    destruct ((0 <=? y)%Z && (y <=? 9999)%Z); [apply plain_pad|].
    destruct (y <? 0)%Z; cbn [plain]; now rewrite plain_pad. }
  rewrite !plain_append, !plain_pad, Hyear. reflexivity.
Qed.

Lemma plain_category_name (c : LogCategory) :
  plain (category_name c) = true.
Proof. now destruct c. Qed.

End Records.

Lemma metadata_json_serialisable (e : AuditLog.t) :
  View.serialisable e = true ->
  exists text, AuditLogTable.metadata_json e = Normal text.
Proof.
  unfold View.serialisable, AuditLogTable.metadata_json.
  destruct (AuditLog.metadata e) as [m|]; [|intros _; now eexists].
  intros Hbig. apply negb_true_iff in Hbig.
  destruct (truthy m) eqn:Ht; [|now eexists].
  unfold JSON.stringify. rewrite Hbig, (truthy_jsonify m Ht). now eexists.
Qed.

(** The record of an exportable entry, and the row written for it. *)
Lemma row_exportable (e : AuditLog.t) :
  Exporting.exportable e = true ->
  exists raws encs,
    Exporting.record e = Normal raws /\
    AuditLogTable.row e = Normal encs /\
    Forall2 CSV.encodes raws encs /\ raws <> [].
Proof.
  unfold Exporting.exportable. intros H.
  apply andb_true_iff in H as [H Hser]. apply andb_true_iff in H as [Hid Hts].
  destruct (metadata_json_serialisable e Hser) as (text & Htext).
  assert (exists date, Date.toISOString (AuditLog.timestamp e) = Normal date)
    as (date & Hdate)
    by (unfold Date.toISOString; rewrite Hts; now eexists).
  unfold AuditLogTable.row, Exporting.record. rewrite Hdate, Htext.
  eexists _, _. split; [reflexivity|]. split; [reflexivity|].
  split; [|discriminate].
  apply List.Forall2_cons; [left; split; [reflexivity|exact Hid]|].
  apply List.Forall2_cons; [left; split; [reflexivity|apply plain_print_int]|].
  apply List.Forall2_cons;
    [left; split; [reflexivity|exact (plain_toISOString _ _ Hdate)]|].
  apply List.Forall2_cons;
    [left; split; [reflexivity|apply plain_category_name]|].
  apply List.Forall2_cons; [now right|].
  apply List.Forall2_cons; [now right|].
  apply List.Forall2_nil.
Qed.

Lemma rows_exportable (shown : list AuditLog.t) :
  forallb Exporting.exportable shown = true ->
  exists lines : list (list string * list string),
    AuditLogTable.Array_map Exporting.record shown
    = Normal (List.map fst lines) /\
    AuditLogTable.Array_map AuditLogTable.row shown
    = Normal (List.map snd lines) /\
    length lines = length shown /\
    Forall (fun line => Forall2 CSV.encodes (fst line) (snd line) /\
                        fst line <> []) lines.
Proof.
  induction shown as [|e shown IH]; intros H.
  - exists []. repeat split; constructor.
  - cbn [forallb] in H. apply andb_true_iff in H as [He Hs].
    destruct (row_exportable e He) as (raws & encs & Hc & Hr & Henc & Hne).
    destruct (IH Hs) as (lines & Hcs & Hrs & Hlen & Hall).
    exists ((raws, encs) :: lines).
    cbn [AuditLogTable.Array_map List.map fst snd length].
    rewrite Hc, Hr, Hcs, Hrs, Hlen. repeat split. now constructor.
Qed.

Lemma headers_plain :
  Forall2 CSV.encodes AuditLogTable.headers AuditLogTable.headers.
Proof.
  unfold AuditLogTable.headers.
  repeat (apply List.Forall2_cons; [left; split; reflexivity|]).
  apply List.Forall2_nil.
Qed.

(** The file made of exportable entries, read back. *)
Lemma export_of_exportable (now : Z) (shown : list AuditLog.t) (w : World) :
  shown <> [] ->
  Date.valid now = true ->
  forallb Exporting.exportable shown = true ->
  exists file records,
    AuditLogTable.handleExportCSV now shown w = (Normal (Some file), w) /\
    AuditLogTable.Array_map Exporting.record shown = Normal records /\
    length records = length shown /\
    CSV.read (AuditLogTable.content file)
    = Some (AuditLogTable.headers :: records).
Proof.
  intros Hne Hnow Hall.
  destruct (rows_exportable shown Hall) as (lines & Hcs & Hrs & Hlen & Hok).
  unfold AuditLogTable.handleExportCSV.
  destruct shown as [|e shown]; [contradiction|].
  cbn [length Nat.eqb].
  unfold try_catch, bind, AuditLogTable.complete, AuditLogTable.csvContent.
  rewrite Hrs. unfold Date.toISOString at 1. rewrite Hnow. cbn [ret].
  eexists _, _. split; [reflexivity|]. split; [exact Hcs|].
  split; [now rewrite length_map|].
  cbn [AuditLogTable.content].
  rewrite List.map_map.
  apply (scan_records
           ((AuditLogTable.headers, AuditLogTable.headers) :: lines));
    [discriminate|].
  constructor; [|exact Hok]. split; [exact headers_plain|discriminate].
Qed.


(** X19. The export is well-formed: for a view that is not empty, whose
    entries have an id without comma, quote or line feed, a timestamp
    [Date] can hold and metadata [JSON.stringify] accepts, the file
    handed to the browser reads back, field by field, as the header
    line followed by one record per entry shown, in order: id,
    timestamp, date, category, and the action text and the metadata
    exactly as they were before the quoting. *)
Theorem export_reads_back (now : Z) (shown : list AuditLog.t) (w : World) :
  shown <> [] ->
  Date.valid now = true ->
  forallb Exporting.exportable shown = true ->
  exists file records,
    AuditLogTable.handleExportCSV now shown w = (Normal (Some file), w) /\
    AuditLogTable.Array_map Exporting.record shown = Normal records /\
    length records = length shown /\
    CSV.read (AuditLogTable.content file)
    = Some (AuditLogTable.headers :: records).
Proof.
  intros Hne Hnow Hall. now apply export_of_exportable.
Qed.

Lemma export_reads_back_witness :
  exists file records,
    AuditLogTable.handleExportCSV 1700000000002 [Sample.boot; Sample.payout]
      Sample.fresh
    = (Normal (Some file), Sample.fresh) /\
    AuditLogTable.Array_map Exporting.record [Sample.boot; Sample.payout]
    = Normal records /\
    length records = length [Sample.boot; Sample.payout] /\
    CSV.read (AuditLogTable.content file)
    = Some (AuditLogTable.headers :: records).
Proof.
  apply (export_reads_back 1700000000002 [Sample.boot; Sample.payout]
           Sample.fresh).
  - discriminate.
  - reflexivity.
  - reflexivity.
Defined.

(** A row is made or the callback throws; no run of the export leaves
    the model. *)
Lemma row_completes (e : AuditLog.t) :
  AuditLogTable.row e <> Unmodelled.
Proof.
  unfold AuditLogTable.row, Date.toISOString, AuditLogTable.metadata_json.
  destruct (Date.valid (AuditLog.timestamp e)); [|discriminate].
  destruct (JSON.stringify _) as [err|[text|]]; discriminate.
Qed.

Lemma csvContent_completes (shown : list AuditLog.t) :
  AuditLogTable.csvContent shown <> Unmodelled.
Proof.
  unfold AuditLogTable.csvContent.
  assert (AuditLogTable.Array_map AuditLogTable.row shown <> Unmodelled)
    as H.
  { induction shown as [|x shown IH]; [discriminate|].
    cbn [AuditLogTable.Array_map].
    pose proof (row_completes x) as Hx.
    destruct (AuditLogTable.row x); [|discriminate|contradiction].
    destruct (AuditLogTable.Array_map AuditLogTable.row shown);
      [discriminate|discriminate|contradiction]. }
  destruct (AuditLogTable.Array_map AuditLogTable.row shown);
    [discriminate|discriminate|contradiction].
Qed.

(** The first entry for which no row can be made decides the error. *)
Lemma csvContent_throws (before after : list AuditLog.t) (x : AuditLog.t)
    (e : JsError) :
  forallb (fun y => Date.valid (AuditLog.timestamp y) &&
                    View.serialisable y) before = true ->
  AuditLogTable.row x = Throw e ->
  AuditLogTable.csvContent (before ++ x :: after)%list = Throw e.
Proof.
  intros Hbefore Hx. unfold AuditLogTable.csvContent.
  assert (AuditLogTable.Array_map AuditLogTable.row
            (before ++ x :: after)%list = Throw e) as ->; [|reflexivity].
  induction before as [|y before IH].
  - cbn [app AuditLogTable.Array_map]. now rewrite Hx.
  - cbn [forallb] in Hbefore. apply andb_true_iff in Hbefore as [Hy Hb].
    apply andb_true_iff in Hy as [Hts Hser].
    cbn [app AuditLogTable.Array_map].
    destruct (metadata_json_serialisable y Hser) as (text & Htext).
    unfold AuditLogTable.row at 1, Date.toISOString. rewrite Hts, Htext.
    now rewrite (IH Hb).
Qed.

(** X20. The export always returns, and never touches the storage.
    On an empty view it does nothing.  When a row cannot be made, the
    error of the first such entry goes to the console as [Export
    failed:] and nothing is handed to the browser: a RangeError for a
    timestamp [Date] cannot hold, a TypeError for metadata that holds
    a BigInt; so does the RangeError of a clock out of range. *)
Theorem export_never_throws (now : Z) (shown : list AuditLog.t) (w : World) :
  (exists out w',
      AuditLogTable.handleExportCSV now shown w = (Normal out, w') /\
      localStorage w' = localStorage w) /\
  (shown = [] ->
   AuditLogTable.handleExportCSV now shown w = (Normal None, w)) /\
  (forall e,
     shown <> [] ->
     AuditLogTable.csvContent shown = Throw e \/
     (exists csv, AuditLogTable.csvContent shown = Normal csv) /\
     Date.toISOString now = Throw e ->
     AuditLogTable.handleExportCSV now shown w
     = (Normal None,
        mkWorld (localStorage w)
          (trace w ++ [ConsoleError "Export failed:" e])%list)) /\
  (forall before x after,
     shown = (before ++ x :: after)%list ->
     forallb (fun y => Date.valid (AuditLog.timestamp y) &&
                       View.serialisable y) before = true ->
     (Date.valid (AuditLog.timestamp x) = false ->
      AuditLogTable.csvContent shown = Throw RangeError) /\
     (Date.valid (AuditLog.timestamp x) = true ->
      forall m, AuditLog.metadata x = Some m -> truthy m = true ->
                JSON.has_bigint m = true ->
                AuditLogTable.csvContent shown = Throw TypeError)).
Proof.
  split; [|split; [|split]].
  - unfold AuditLogTable.handleExportCSV.
    destruct shown as [|x shown]; [cbn; eauto|].
    cbn [length Nat.eqb].
    unfold try_catch, bind, AuditLogTable.complete, console_error, emit, ret.
    pose proof (csvContent_completes (x :: shown)) as Hc.
    destruct (AuditLogTable.csvContent (x :: shown)) as [csv|e|];
      [|cbn; eauto|contradiction].
    unfold Date.toISOString. destruct (Date.valid now); cbn; eauto.
  - intros ->. reflexivity.
  - intros e Hne H. unfold AuditLogTable.handleExportCSV.
    destruct shown as [|x shown]; [contradiction|].
    cbn [length Nat.eqb].
    unfold try_catch, bind, AuditLogTable.complete, console_error, emit, ret.
    destruct H as [->|[(csv & ->) ->]]; reflexivity.
  - intros before x after -> Hbefore. split.
    + intros Hts. apply csvContent_throws; [exact Hbefore|].
      unfold AuditLogTable.row, Date.toISOString. now rewrite Hts.
    + intros Hts m Hm Ht Hbig. apply csvContent_throws; [exact Hbefore|].
      unfold AuditLogTable.row, Date.toISOString,
        AuditLogTable.metadata_json, JSON.stringify.
      now rewrite Hts, Hm, Ht, Hbig.
Qed.

Lemma export_never_throws_witness :
  AuditLogTable.handleExportCSV 1700000000002 [] Sample.fresh
  = (Normal None, Sample.fresh) /\
  AuditLogTable.handleExportCSV 1700000000002
    [Sample.boot;
     AuditLog.mk "LOG-1" 5 AI "mint" (Some (VObj [("wei", VBigInt 1)]))]
    Sample.fresh
  = (Normal None,
     mkWorld (localStorage Sample.fresh)
       (trace Sample.fresh ++ [ConsoleError "Export failed:" TypeError])%list)
  /\
  AuditLogTable.handleExportCSV 1700000000002
    [Sample.boot; AuditLog.mk "LOG-2" 8640000000000001 AI "late" None;
     Sample.payout]
    Sample.fresh
  = (Normal None,
     mkWorld (localStorage Sample.fresh)
       (trace Sample.fresh ++ [ConsoleError "Export failed:" RangeError])%list).
Proof.
  destruct (export_never_throws 1700000000002 [] Sample.fresh)
    as (_ & H1 & _).
  destruct (export_never_throws 1700000000002
              [Sample.boot;
               AuditLog.mk "LOG-1" 5 AI "mint"
                 (Some (VObj [("wei", VBigInt 1)]))] Sample.fresh)
    as (_ & _ & H2 & H2').
  destruct (export_never_throws 1700000000002
              [Sample.boot;
               AuditLog.mk "LOG-2" 8640000000000001 AI "late" None;
               Sample.payout] Sample.fresh)
    as (_ & _ & H3 & H3').
  split; [apply H1; reflexivity|]. split.
  - apply H2; [discriminate|]. left.
    destruct (H2' [Sample.boot]
                (AuditLog.mk "LOG-1" 5 AI "mint"
                   (Some (VObj [("wei", VBigInt 1)]))) []
                eq_refl eq_refl) as [_ Hbig].
    apply (Hbig eq_refl (VObj [("wei", VBigInt 1)])); reflexivity.
  - apply H3; [discriminate|]. left.
    destruct (H3' [Sample.boot]
                (AuditLog.mk "LOG-2" 8640000000000001 AI "late" None)
                [Sample.payout] eq_refl eq_refl) as [Hrange _].
    apply Hrange. reflexivity.
Defined.

Lemma upper36_plain (s : string) :
  Ident.upper36_text s = true -> CSV.plain s = true.
Proof.
  induction s as [|c s IH]; [reflexivity|].
  cbn [Ident.upper36_text CSV.plain]. intros H.
  apply andb_true_iff in H as [Hc Hs]. rewrite (IH Hs), andb_true_r.
  unfold CSV.plain_char.
  assert (forall x, Ident.upper36_char x = false ->
                    negb (Ascii.eqb c x) = true) as Hx.
  { intros x Hx. apply negb_true_iff.
    destruct (Ascii.eqb c x) eqn:E; [|reflexivity].
    apply Ascii.eqb_eq in E. subst x. congruence. }
  now rewrite !Hx.
Qed.

(** An entry written by [log] and read back can be exported. *)
Lemma reloaded_exportable (c : Ledger.Call) :
  Ledger.call_ok c = true ->
  Ledger.base36_text (random36 (Ledger.call_tick c)) = true ->
  Date.valid (now (Ledger.call_tick c)) = true ->
  Exporting.exportable (Ledger.reloaded_entry c) = true.
Proof.
  intros Hok Hdraw Hclock. unfold Exporting.exportable, Ledger.reloaded_entry.
  cbn [AuditLog.id AuditLog.timestamp]. rewrite Hclock, andb_true_r.
  apply andb_true_iff. split.
  - unfold LoggerService.log_id.
    change ("LOG-" +:+ ?u)
      with (String "L" (String "O" (String "G" (String "-" u)))).
    cbn [CSV.plain]. rewrite (upper36_plain _ (log_id_upper36 _ Hdraw)).
    reflexivity.
  - unfold View.serialisable. cbn [AuditLog.metadata].
    destruct (Ledger.call_metadata c) as [props|] eqn:Hmd; [|reflexivity].
    cbn [option_map]. apply negb_true_iff.
    unfold Ledger.call_ok, Ledger.entry, LoggerService.newLog in Hok.
    rewrite Hmd in Hok. apply andb_true_iff in Hok as [Hwf Hbig].
    apply negb_true_iff in Hbig.
    cbn [well_formed forallb snd] in Hwf.
    cbn [JSON.has_bigint existsb snd] in Hbig.
    repeat match type of Hwf with
           | (_ && _) = true => apply andb_true_iff in Hwf as [? Hwf]
           end.
    rewrite !orb_false_r in Hbig. cbn [orb] in Hbig.
    assert (well_formed (VObj props) = true) as Hwp.
    { cbn [well_formed].
      match goal with
      | H : negb (JSON.index_like (fst ("metadata", _))) && _ = true |- _ =>
          now apply andb_true_iff in H as [_ H]
      end. }
    pose proof (stored_is_json (VObj props) Hwp Hbig) as Hjson.
    unfold stored in Hjson. rewrite jsonify_object in Hjson.
    now destruct (is_json_well_formed _ Hjson).
Qed.

(** X21. What [log] wrote can always be exported: for calls within
    the model, with base-36 draws and a clock in the range of [Date],
    the export of their entries as read back succeeds, and the file
    reads back as the header line and one record per entry. *)
Theorem export_of_logged_entries (now : Z) (calls : list Ledger.Call)
    (w : World) :
  calls <> [] ->
  Date.valid now = true ->
  forallb Ledger.call_ok calls = true ->
  forallb (fun c => Ledger.base36_text (random36 (Ledger.call_tick c)) &&
                    Date.valid (Browser.now (Ledger.call_tick c))) calls
  = true ->
  let shown := rev (List.map Ledger.reloaded_entry calls) in
  exists file records,
    AuditLogTable.handleExportCSV now shown w = (Normal (Some file), w) /\
    AuditLogTable.Array_map Exporting.record shown = Normal records /\
    length records = length calls /\
    CSV.read (AuditLogTable.content file)
    = Some (AuditLogTable.headers :: records).
Proof.
  intros Hne Hnow Hok Hdraws shown.
  destruct (export_of_exportable now shown w) as (file & records & H).
  - unfold shown. destruct calls as [|c calls]; [contradiction|].
    cbn [List.map rev]. intros E. now apply app_eq_nil in E as [_ E].
  - exact Hnow.
  - unfold shown. apply forallb_forall. intros e He.
    apply in_rev, in_map_iff in He as (c & <- & Hc).
    rewrite forallb_forall in Hok, Hdraws.
    specialize (Hdraws c Hc). apply andb_true_iff in Hdraws as [Hd Ht].
    now apply reloaded_exportable; [apply Hok| |].
  - exists file, records. destruct H as (H1 & H2 & H3 & H4).
    repeat split; try assumption.
    rewrite H3. unfold shown. now rewrite length_rev, length_map.
Qed.

Lemma export_of_logged_entries_witness :
  let shown := rev (List.map Ledger.reloaded_entry Sample.three_calls) in
  exists file records,
    AuditLogTable.handleExportCSV 1700000000002 shown Sample.fresh
    = (Normal (Some file), Sample.fresh) /\
    AuditLogTable.Array_map Exporting.record shown = Normal records /\
    length records = length Sample.three_calls /\
    CSV.read (AuditLogTable.content file)
    = Some (AuditLogTable.headers :: records).
Proof.
  apply (export_of_logged_entries 1700000000002 Sample.three_calls
           Sample.fresh).
  - discriminate.
  - reflexivity.
  - reflexivity.
  - reflexivity.
Defined.

(** ** The calendar *)

Section Calendar.
Local Open Scope Z_scope.

Lemma DayFromYear_alt (y : Z) :
  Date.DayFromYear y
  = 365 * (y - 1970) + (y - 1) / 4 - (y - 1) / 100 + (y - 1) / 400 - 477.
Proof.
  unfold Date.DayFromYear.
  replace (y - 1969) with (y - 1 + (-492) * 4) by lia.
  replace (y - 1901) with (y - 1 + (-19) * 100) by lia.
  replace (y - 1601) with (y - 1 + (-4) * 400) by lia.
  rewrite !Z.div_add by lia. lia.
Qed.

Lemma DayFromYear_step (y : Z) :
  Date.DayFromYear (y + 1)
  = Date.DayFromYear y + (if Date.leap_year y then 366 else 365).
Proof.
  rewrite !DayFromYear_alt. replace (y + 1 - 1) with y by lia.
  assert (y / 4 = (y - 1) / 4 + (if y mod 4 =? 0 then 1 else 0)) as H4.
  { destruct (Z.eqb_spec (y mod 4) 0);
      Z.to_euclidean_division_equations; lia. }
  assert (y / 100 = (y - 1) / 100 + (if y mod 100 =? 0 then 1 else 0))
    as H100.
  { destruct (Z.eqb_spec (y mod 100) 0);
      Z.to_euclidean_division_equations; lia. }
  assert (y / 400 = (y - 1) / 400 + (if y mod 400 =? 0 then 1 else 0))
    as H400.
  { destruct (Z.eqb_spec (y mod 400) 0);
      Z.to_euclidean_division_equations; lia. }
  assert (y mod 100 = 0 -> y mod 4 = 0) as Ha
    by (Z.to_euclidean_division_equations; lia).
  assert (y mod 400 = 0 -> y mod 100 = 0) as Hb
    by (Z.to_euclidean_division_equations; lia).
  rewrite H4, H100, H400. unfold Date.leap_year.
  destruct (Z.eqb_spec (y mod 4) 0); destruct (Z.eqb_spec (y mod 100) 0);
    destruct (Z.eqb_spec (y mod 400) 0); cbn [andb orb negb]; lia.
Qed.

(** [YearFromTime] is the year ECMA-262 defines: the largest one whose
    first day is not after the day of [t]. *)
Lemma YearFromTime_spec (t : Z) :
  Date.DayFromYear (Date.YearFromTime t) <= Date.Day t
  < Date.DayFromYear (Date.YearFromTime t + 1).
Proof.
  unfold Date.YearFromTime. cbv zeta.
  set (d := Date.Day t). set (y := 1970 + d * 400 / 146097).
  assert (Date.DayFromYear (y - 1) <= d < Date.DayFromYear (y + 2)) as Hy.
  { rewrite !DayFromYear_alt. unfold y.
    Z.to_euclidean_division_equations. lia. }
  destruct (Z.leb_spec (Date.DayFromYear (y + 1)) d) as [H1|H1].
  - replace (y + 1 + 1) with (y + 2) by lia. lia.
  - destruct (Z.leb_spec (Date.DayFromYear y) d) as [H0|H0]; [lia|].
    replace (y - 1 + 1) with y by lia. lia.
Qed.

Lemma DayFromYear_mono (y y' : Z) :
  y <= y' -> Date.DayFromYear y <= Date.DayFromYear y'.
Proof.
  intros H. rewrite !DayFromYear_alt.
  Z.to_euclidean_division_equations. lia.
Qed.

Lemma YearFromTime_largest (t y : Z) :
  Date.DayFromYear y <= Date.Day t -> y <= Date.YearFromTime t.
Proof.
  intros H. destruct (YearFromTime_spec t) as [_ Hlt].
  destruct (Z.le_gt_cases y (Date.YearFromTime t)) as [Hle|Hgt];
    [exact Hle|].
  pose proof (DayFromYear_mono (Date.YearFromTime t + 1) y ltac:(lia)). lia.
Qed.

(** The day within the year, the month and the day of the month are in
    range. *)
Lemma DateFromTime_range (t : Z) :
  0 <= Date.DayWithinYear t < 365 + Date.InLeapYear t /\
  0 <= Date.MonthFromTime t <= 11 /\
  1 <= Date.DateFromTime t <= 31.
Proof.
  assert (0 <= Date.DayWithinYear t < 365 + Date.InLeapYear t) as Hd.
  { unfold Date.DayWithinYear, Date.InLeapYear.
    destruct (YearFromTime_spec t) as [H1 H2].
    rewrite DayFromYear_step in H2.
    destruct (Date.leap_year (Date.YearFromTime t)); lia. }
  split; [exact Hd|].
  unfold Date.DateFromTime, Date.MonthFromTime. cbv zeta.
  assert (0 <= Date.InLeapYear t <= 1) as Hl
    by (unfold Date.InLeapYear; destruct (Date.leap_year _); lia).
  repeat match goal with
         | |- context [(?a <? ?b)] => destruct (Z.ltb_spec a b)
         end; lia.
Qed.

End Calendar.

Example toISOString_samples :
  List.map Date.toISOString
    [0; 1700000000000; 951782400000; -1; 253402300800000;
     8640000000000001]%Z
  = [Normal "1970-01-01T00:00:00.000Z"; Normal "2023-11-14T22:13:20.000Z";
     Normal "2000-02-29T00:00:00.000Z"; Normal "1969-12-31T23:59:59.999Z";
     Normal "+010000-01-01T00:00:00.000Z"; Throw RangeError].
Proof. reflexivity. Qed.
